(** * webcodecs-capture: the capture orchestration engine of [src/main.ts]

    A shallow embedding of the pure reducer, the pattern parser, the
    one-shot wrapper [createOnce], the illumination sequencer
    [startIllumination] and the frame-read loop of [run], followed by the
    properties of the design document that concern them; then of [render],
    of the handlers of the controls and of [initCamera], with the
    properties that the code itself shows.

    Conventions.
    - A JavaScript string is the list of its UTF-16 code units ([jsstring]).
    - A JavaScript number that counts something is an integer of [Z].
    - The single-threaded event loop is modelled by explicit state passing:
      every callback (timer tick, resolved read, unload handler, click) is
      one atomic function on the store [World]; a run is the fold of these
      callbacks over the list of things the environment delivers. *)

From Stdlib Require Import ZArith List Bool String Ascii Lia DecimalString.
Import ListNotations.
Local Open Scope Z_scope.

(* ================================================================== *)
(** ** Strings *)

Definition jsstring := list Z.

(** An ASCII literal of the source, as code units. *)
Definition lit (s : string) : jsstring :=
  map (fun a => Z.of_N (N_of_ascii a)) (list_ascii_of_string s).

(** The two non-ASCII characters of the status texts. *)
Definition ellipsis : jsstring := [8230].   (* U+2026 *)
Definition emdash : jsstring := [8212].     (* U+2014 *)

(** [`${n}`] for an integer [n]. *)
Definition show (n : Z) : jsstring := lit (NilZero.string_of_int (Z.to_int n)).

Definition jslength (s : jsstring) : Z := Z.of_nat (List.length s).

Definition code_B : Z := 66.
Definition code_W : Z := 87.

(* ================================================================== *)
(** ** Constants and the data model (lines 1-30) *)

Definition TARGET_LENGTH : Z := 20.

Record AppState := mkAppState {
  phaseIsWhite : bool;
  status : jsstring;
  error : jsstring;
  pendingCaptures : Z;
  captures : list jsstring;
  captureComplete : bool;
  patternString : jsstring;
  isRunning : bool;
  selectedCaptureIndex : option Z
}.

(** The tagged union [AppEvent].  The last constructor stands for an object
    whose [type] is none of the eight tags of the union: the TypeScript type
    excludes it, the [default] branch of [reduce] receives it. *)
Inductive AppEvent :=
| PatternChanged (value : jsstring)
| BeginRun (patternString : jsstring)
| PhaseChanged (isWhite : bool)
| FrameCaptured (dataUrl : jsstring)
| StreamStarted
| ErrorEvent (message : jsstring) (status : option jsstring)
| RunComplete
| SelectCapture (index : Z)
| OtherEvent (tag : jsstring).

Definition event_type (e : AppEvent) : jsstring :=
  match e with
  | PatternChanged _ => lit "pattern-changed"
  | BeginRun _ => lit "begin-run"
  | PhaseChanged _ => lit "phase-changed"
  | FrameCaptured _ => lit "frame-captured"
  | StreamStarted => lit "stream-started"
  | ErrorEvent _ _ => lit "error"
  | RunComplete => lit "run-complete"
  | SelectCapture _ => lit "select-capture"
  | OtherEvent tag => tag
  end.

Definition jsstring_eqb (a b : jsstring) : bool :=
  if list_eq_dec Z.eq_dec a b then true else false.

(** The [case] labels of the [switch] in [reduce]. *)
Definition case_labels : list jsstring :=
  [ lit "pattern-changed"; lit "begin-run"; lit "phase-changed";
    lit "frame-captured"; lit "stream-started"; lit "error";
    lit "run-complete"; lit "select-capture" ].

Definition recognized (tag : jsstring) : bool :=
  existsb (jsstring_eqb tag) case_labels.

Record ParsedPattern := mkParsedPattern {
  text : jsstring;
  sequence : list bool;
  isComplete : bool
}.

(* ================================================================== *)
(** ** [parsePatternInput] (lines 46-57) *)

Definition isBW (c : Z) : bool := (c =? code_B) || (c =? code_W).

(** [.replace(/[^BW]/g, '')]: without the [u] flag the class matches one
    code unit at a time. *)
Definition strip_non_BW (s : jsstring) : jsstring := filter isBW s.

(** [.slice(0, end)] for an integer [end]: a negative [end] counts from the
    end of the string, and both ends are clamped into the string. *)
Definition slice0 (s : jsstring) (end_ : Z) : jsstring :=
  let len := jslength s in
  let to := if end_ <? 0 then Z.max (len + end_) 0 else Z.min end_ len in
  firstn (Z.to_nat to) s.

Section ParsePattern.

(** [String.prototype.toUpperCase] is the host's Unicode case mapping; it
    is a parameter of the development.  It can lengthen a string and can
    produce a ['W'] from a character other than ['w'] (U+1E98). *)
Variable toUpperCase : jsstring -> jsstring.

(** [Array.from(text, f)] walks the string by code points; [text] holds
    only ['B'] and ['W'] here, so code points and code units coincide. *)
Definition parsePatternInput (value : jsstring) (limit : Z) : ParsedPattern :=
  let text := slice0 (strip_non_BW (toUpperCase value)) limit in
  let sequence := map (fun char => char =? code_W) text in
  {| text := text;
     sequence := sequence;
     isComplete := Z.of_nat (List.length sequence) =? limit |}.

Definition parsePatternInput_default (value : jsstring) : ParsedPattern :=
  parsePatternInput value TARGET_LENGTH.

End ParsePattern.

(** The ASCII part of the case mapping, used to run the parser on concrete
    inputs. *)
Definition ascii_upper (s : jsstring) : jsstring :=
  map (fun c => if (97 <=? c) && (c <=? 122) then c - 32 else c) s.

(* ================================================================== *)
(** ** The reducer (lines 120-130 and 196-285) *)

Definition initialState : AppState :=
  {| phaseIsWhite := false;
     status := lit "Enter " ++ show TARGET_LENGTH ++ lit " frame pattern to begin.";
     error := [];
     pendingCaptures := 0;
     captures := [];
     captureComplete := false;
     patternString := [];
     isRunning := false;
     selectedCaptureIndex := None |}.

Definition capture_complete_text : jsstring :=
  lit "Capture complete " ++ emdash ++ lit " review below.".

Definition capturing_text (n : Z) : jsstring :=
  lit "Capturing" ++ ellipsis ++ lit " (" ++ show n ++ lit "/"
      ++ show TARGET_LENGTH ++ lit ")".

Definition reduce (current : AppState) (event : AppEvent) : AppState :=
  match event with
  | PatternChanged value =>
      let patternString' := value in
      if current.(isRunning) then
        {| phaseIsWhite := current.(phaseIsWhite);
           status := current.(status);
           error := current.(error);
           pendingCaptures := current.(pendingCaptures);
           captures := current.(captures);
           captureComplete := current.(captureComplete);
           patternString := patternString';
           isRunning := current.(isRunning);
           selectedCaptureIndex := current.(selectedCaptureIndex) |}
      else
        let remaining := TARGET_LENGTH - jslength patternString' in
        let status' :=
          if 0 <? remaining
          then lit "Add " ++ show remaining ++ lit " more "
                   ++ (if remaining =? 1 then lit "character" else lit "characters")
                   ++ lit " to begin."
          else lit "Pattern ready " ++ emdash ++ lit " press start to capture." in
        {| phaseIsWhite := current.(phaseIsWhite);
           status := status';
           error := [];
           pendingCaptures := current.(pendingCaptures);
           captures := current.(captures);
           captureComplete := current.(captureComplete);
           patternString := patternString';
           isRunning := current.(isRunning);
           selectedCaptureIndex := current.(selectedCaptureIndex) |}
  | BeginRun patternString' =>
      {| phaseIsWhite := false;
         status := lit "Preparing capture" ++ ellipsis;
         error := [];
         pendingCaptures := 0;
         captures := [];
         captureComplete := false;
         patternString := patternString';
         isRunning := true;
         selectedCaptureIndex := None |}
  | PhaseChanged isWhite =>
      let remainingBudget := TARGET_LENGTH - Z.of_nat (List.length current.(captures)) in
      let pending := Z.max 0 (Z.min (current.(pendingCaptures) + 1) remainingBudget) in
      let status' :=
        if TARGET_LENGTH <=? Z.of_nat (List.length current.(captures))
        then capture_complete_text
        else capturing_text (Z.of_nat (List.length current.(captures))) in
      {| phaseIsWhite := isWhite;
         status := status';
         error := current.(error);
         pendingCaptures := pending;
         captures := current.(captures);
         captureComplete := current.(captureComplete);
         patternString := current.(patternString);
         isRunning := current.(isRunning);
         selectedCaptureIndex := current.(selectedCaptureIndex) |}
  | FrameCaptured dataUrl =>
      let captures' := current.(captures) ++ [dataUrl] in
      let done := TARGET_LENGTH <=? Z.of_nat (List.length captures') in
      let status' :=
        if done then capture_complete_text
        else capturing_text (Z.of_nat (List.length captures')) in
      {| phaseIsWhite := current.(phaseIsWhite);
         status := status';
         error := current.(error);
         pendingCaptures := Z.max 0 (current.(pendingCaptures) - 1);
         captures := captures';
         captureComplete := done;
         patternString := current.(patternString);
         isRunning := current.(isRunning);
         selectedCaptureIndex :=
           match current.(selectedCaptureIndex) with
           | Some i => Some i
           | None => Some 0
           end |}
  | StreamStarted =>
      {| phaseIsWhite := current.(phaseIsWhite);
         status := lit "Streaming" ++ ellipsis;
         error := [];
         pendingCaptures := current.(pendingCaptures);
         captures := current.(captures);
         captureComplete := current.(captureComplete);
         patternString := current.(patternString);
         isRunning := current.(isRunning);
         selectedCaptureIndex := current.(selectedCaptureIndex) |}
  | ErrorEvent message status' =>
      {| phaseIsWhite := current.(phaseIsWhite);
         status := match status' with Some s => s | None => lit "Error" end;
         error := message;
         pendingCaptures := current.(pendingCaptures);
         captures := current.(captures);
         captureComplete := current.(captureComplete);
         patternString := current.(patternString);
         isRunning := false;
         selectedCaptureIndex := current.(selectedCaptureIndex) |}
  | RunComplete =>
      {| phaseIsWhite := false;
         status := current.(status);
         error := current.(error);
         pendingCaptures := current.(pendingCaptures);
         captures := current.(captures);
         captureComplete := current.(captureComplete);
         patternString := current.(patternString);
         isRunning := false;
         selectedCaptureIndex := current.(selectedCaptureIndex) |}
  | SelectCapture index =>
      {| phaseIsWhite := current.(phaseIsWhite);
         status := current.(status);
         error := current.(error);
         pendingCaptures := current.(pendingCaptures);
         captures := current.(captures);
         captureComplete := current.(captureComplete);
         patternString := current.(patternString);
         isRunning := current.(isRunning);
         selectedCaptureIndex := Some index |}
  | OtherEvent _ => current
  end.

(** The reducer applied to a sequence of events, oldest first. *)
Definition reduce_all (s : AppState) (events : list AppEvent) : AppState :=
  fold_left reduce events s.

(* ================================================================== *)
(** ** [reduce] as it runs (lines 196-285)

    The types of TypeScript are erased before the code runs: what [reduce]
    receives is an object.  Reading a property that the object lacks gives
    [undefined]; reading a property of [undefined] or [null] throws a
    [TypeError]; nothing else in [reduce] can throw.  [Runtime.reduce] is
    the function on such objects, and [reduce] above is what it computes on
    the objects of the union [AppEvent].

    Of the state, the fields that [reduce] only ever writes from a property
    of the event hold any value; the others are written from literals,
    [Math.max] and array spreads, and keep their type.  Numbers are followed
    as integers, as in [AppState]. *)

Module Runtime.

Inductive Value :=
| JsUndefined
| JsNull
| JsBoolean (b : bool)
| JsNumber (n : Z)
| JsString (s : jsstring).

(** An object literal: its properties, in the order they are written. *)
Definition Event := list (string * Value).

Definition property (key : string) (v : Value) : string * Value := (key, v).

(** [event.key]. *)
Fixpoint get (event : Event) (key : string) : Value :=
  match event with
  | [] => JsUndefined
  | (k, v) :: rest => if String.eqb k key then v else get rest key
  end.

Record State := mkState {
  phaseIsWhite : Value;
  status : Value;
  error : Value;
  pendingCaptures : Z;
  captures : list Value;
  captureComplete : bool;
  patternString : Value;
  isRunning : bool;
  selectedCaptureIndex : Value
}.

Inductive Result (A : Type) :=
| Returned (a : A)
| TypeError.

Arguments Returned {A} a.
Arguments TypeError {A}.

(** [v === 'label'], the comparison of a [case]. *)
Definition strict_equal (v : Value) (label : string) : bool :=
  match v with
  | JsString s => jsstring_eqb s (lit label)
  | _ => false
  end.

(** [v.length]: a string has one, a boolean or a number has none
    ([undefined], here [None]), and [undefined] and [null] have no
    properties at all. *)
Definition length_of (v : Value) : Result (option Z) :=
  match v with
  | JsUndefined | JsNull => TypeError
  | JsString s => Returned (Some (jslength s))
  | JsBoolean _ | JsNumber _ => Returned None
  end.

(** [v ?? d]. *)
Definition nullish (v d : Value) : Value :=
  match v with
  | JsUndefined | JsNull => d
  | _ => v
  end.

Definition reduce (current : State) (event : Event) : Result State :=
  let tag := get event "type" in
  if strict_equal tag "pattern-changed" then
    let patternString' := get event "value" in
    if current.(isRunning) then
      Returned {| phaseIsWhite := current.(phaseIsWhite);
                  status := current.(status);
                  error := current.(error);
                  pendingCaptures := current.(pendingCaptures);
                  captures := current.(captures);
                  captureComplete := current.(captureComplete);
                  patternString := patternString';
                  isRunning := current.(isRunning);
                  selectedCaptureIndex := current.(selectedCaptureIndex) |}
    else
      match length_of patternString' with
      | TypeError => TypeError
      | Returned len =>
          (* [TARGET_LENGTH - undefined] is [NaN], and [NaN > 0] is false *)
          let status' :=
            match len with
            | Some n =>
                let remaining := TARGET_LENGTH - n in
                if 0 <? remaining
                then lit "Add " ++ show remaining ++ lit " more "
                         ++ (if remaining =? 1 then lit "character" else lit "characters")
                         ++ lit " to begin."
                else lit "Pattern ready " ++ emdash ++ lit " press start to capture."
            | None => lit "Pattern ready " ++ emdash ++ lit " press start to capture."
            end in
          Returned {| phaseIsWhite := current.(phaseIsWhite);
                      status := JsString status';
                      error := JsString [];
                      pendingCaptures := current.(pendingCaptures);
                      captures := current.(captures);
                      captureComplete := current.(captureComplete);
                      patternString := patternString';
                      isRunning := current.(isRunning);
                      selectedCaptureIndex := current.(selectedCaptureIndex) |}
      end
  else if strict_equal tag "begin-run" then
    Returned {| phaseIsWhite := JsBoolean false;
                status := JsString (lit "Preparing capture" ++ ellipsis);
                error := JsString [];
                pendingCaptures := 0;
                captures := [];
                captureComplete := false;
                patternString := get event "patternString";
                isRunning := true;
                selectedCaptureIndex := JsNull |}
  else if strict_equal tag "phase-changed" then
    let remainingBudget := TARGET_LENGTH - Z.of_nat (List.length current.(captures)) in
    let pending := Z.max 0 (Z.min (current.(pendingCaptures) + 1) remainingBudget) in
    let status' :=
      if TARGET_LENGTH <=? Z.of_nat (List.length current.(captures))
      then capture_complete_text
      else capturing_text (Z.of_nat (List.length current.(captures))) in
    Returned {| phaseIsWhite := get event "isWhite";
                status := JsString status';
                error := current.(error);
                pendingCaptures := pending;
                captures := current.(captures);
                captureComplete := current.(captureComplete);
                patternString := current.(patternString);
                isRunning := current.(isRunning);
                selectedCaptureIndex := current.(selectedCaptureIndex) |}
  else if strict_equal tag "frame-captured" then
    let captures' := current.(captures) ++ [get event "dataUrl"] in
    let done := TARGET_LENGTH <=? Z.of_nat (List.length captures') in
    let status' :=
      if done then capture_complete_text
      else capturing_text (Z.of_nat (List.length captures')) in
    Returned {| phaseIsWhite := current.(phaseIsWhite);
                status := JsString status';
                error := current.(error);
                pendingCaptures := Z.max 0 (current.(pendingCaptures) - 1);
                captures := captures';
                captureComplete := done;
                patternString := current.(patternString);
                isRunning := current.(isRunning);
                selectedCaptureIndex :=
                  nullish current.(selectedCaptureIndex) (JsNumber 0) |}
  else if strict_equal tag "stream-started" then
    Returned {| phaseIsWhite := current.(phaseIsWhite);
                status := JsString (lit "Streaming" ++ ellipsis);
                error := JsString [];
                pendingCaptures := current.(pendingCaptures);
                captures := current.(captures);
                captureComplete := current.(captureComplete);
                patternString := current.(patternString);
                isRunning := current.(isRunning);
                selectedCaptureIndex := current.(selectedCaptureIndex) |}
  else if strict_equal tag "error" then
    Returned {| phaseIsWhite := current.(phaseIsWhite);
                status := nullish (get event "status") (JsString (lit "Error"));
                error := get event "message";
                pendingCaptures := current.(pendingCaptures);
                captures := current.(captures);
                captureComplete := current.(captureComplete);
                patternString := current.(patternString);
                isRunning := false;
                selectedCaptureIndex := current.(selectedCaptureIndex) |}
  else if strict_equal tag "run-complete" then
    Returned {| phaseIsWhite := JsBoolean false;
                status := current.(status);
                error := current.(error);
                pendingCaptures := current.(pendingCaptures);
                captures := current.(captures);
                captureComplete := current.(captureComplete);
                patternString := current.(patternString);
                isRunning := false;
                selectedCaptureIndex := current.(selectedCaptureIndex) |}
  else if strict_equal tag "select-capture" then
    Returned {| phaseIsWhite := current.(phaseIsWhite);
                status := current.(status);
                error := current.(error);
                pendingCaptures := current.(pendingCaptures);
                captures := current.(captures);
                captureComplete := current.(captureComplete);
                patternString := current.(patternString);
                isRunning := current.(isRunning);
                selectedCaptureIndex := get event "index" |}
  else Returned current.

(** The value is one of the [case] labels of the [switch]. *)
Definition is_case_label (v : Value) : bool :=
  match v with
  | JsString s => recognized s
  | _ => false
  end.

End Runtime.

(** The object that a state of type [AppState] is. *)
Definition state_object (s : AppState) : Runtime.State :=
  {| Runtime.phaseIsWhite := Runtime.JsBoolean s.(phaseIsWhite);
     Runtime.status := Runtime.JsString s.(status);
     Runtime.error := Runtime.JsString s.(error);
     Runtime.pendingCaptures := s.(pendingCaptures);
     Runtime.captures := map Runtime.JsString s.(captures);
     Runtime.captureComplete := s.(captureComplete);
     Runtime.patternString := Runtime.JsString s.(patternString);
     Runtime.isRunning := s.(isRunning);
     Runtime.selectedCaptureIndex :=
       match s.(selectedCaptureIndex) with
       | Some i => Runtime.JsNumber i
       | None => Runtime.JsNull
       end |}.

(** The object that an event of the union [AppEvent] is; the optional
    [status] of an [error] event is present or missing. *)
Definition event_object (e : AppEvent) : Runtime.Event :=
  match e with
  | PatternChanged value =>
      [Runtime.property "type" (Runtime.JsString (lit "pattern-changed"));
       Runtime.property "value" (Runtime.JsString value)]
  | BeginRun patternString' =>
      [Runtime.property "type" (Runtime.JsString (lit "begin-run"));
       Runtime.property "patternString" (Runtime.JsString patternString')]
  | PhaseChanged isWhite =>
      [Runtime.property "type" (Runtime.JsString (lit "phase-changed"));
       Runtime.property "isWhite" (Runtime.JsBoolean isWhite)]
  | FrameCaptured dataUrl =>
      [Runtime.property "type" (Runtime.JsString (lit "frame-captured"));
       Runtime.property "dataUrl" (Runtime.JsString dataUrl)]
  | StreamStarted => [Runtime.property "type" (Runtime.JsString (lit "stream-started"))]
  | ErrorEvent message status' =>
      [Runtime.property "type" (Runtime.JsString (lit "error"));
       Runtime.property "message" (Runtime.JsString message)]
      ++ match status' with
         | Some s => [Runtime.property "status" (Runtime.JsString s)]
         | None => []
         end
  | RunComplete => [Runtime.property "type" (Runtime.JsString (lit "run-complete"))]
  | SelectCapture index' =>
      [Runtime.property "type" (Runtime.JsString (lit "select-capture"));
       Runtime.property "index" (Runtime.JsNumber index')]
  | OtherEvent tag => [Runtime.property "type" (Runtime.JsString tag)]
  end.

(** The event is an object of the union, or its tag is none of the [case]
    labels. *)
Definition well_tagged (e : AppEvent) : bool :=
  match e with
  | OtherEvent tag => negb (recognized tag)
  | _ => true
  end.

(* ================================================================== *)
(** ** [createOnce] (lines 60-69)

    The closure returned by [createOnce] owns one mutable cell, [called].
    In the store-passing model the cell lives in the store [W] and is reached
    through a reader and a writer; the returned function is a store
    transformer.  The arguments of the wrapped function are never used by
    the callers of this file and are left out. *)

Section Once.
Variable W : Type.
Variable called : W -> bool.
Variable set_called : bool -> W -> W.

Definition createOnce (fn : W -> W) : W -> W :=
  fun w =>
    if called w then w
    else fn (set_called true w).
End Once.

Arguments createOnce {W} called set_called fn w.

(* ================================================================== *)
(** ** [startIllumination] (lines 72-104)

    The store of one sequencer: the captured [pattern], the locals [index]
    and [intervalId], the cell of the returned one-shot handle, and what the
    host knows of the interval created on line 96 ([timerLive]: it will call
    [emitStep] again; [clearCalls]: how often [clearInterval] was called). *)

Record Illumination := mkIllumination {
  pattern : list bool;
  index : nat;
  intervalId : option unit;
  timerLive : bool;
  clearCalls : nat;
  stopCalled : bool
}.

Definition set_index (n : nat) (i : Illumination) : Illumination :=
  mkIllumination i.(pattern) n i.(intervalId) i.(timerLive) i.(clearCalls) i.(stopCalled).

Definition set_intervalId (v : option unit) (i : Illumination) : Illumination :=
  mkIllumination i.(pattern) i.(index) v i.(timerLive) i.(clearCalls) i.(stopCalled).

Definition set_stopCalled (b : bool) (i : Illumination) : Illumination :=
  mkIllumination i.(pattern) i.(index) i.(intervalId) i.(timerLive) i.(clearCalls) b.

(** [clearInterval(intervalId)]: the host stops calling [emitStep]. *)
Definition clearInterval (i : Illumination) : Illumination :=
  mkIllumination i.(pattern) i.(index) i.(intervalId) false (S i.(clearCalls)) i.(stopCalled).

Definition is_null (v : option unit) : bool:=
  match v with None => true | Some _ => false end.

Section Sequencer.
(** The client of the sequencer: its store [C] and the callback [onPhase]
    acting on it. *)
Variable C : Type.
Variable onPhase : bool -> C -> C.

Definition emitStep (x : Illumination * C) : Illumination * C :=
  let (i, c) := x in
  if (List.length i.(pattern) <=? i.(index))%nat then
    if negb (is_null i.(intervalId))
    then (set_intervalId None (clearInterval i), c)
    else (i, c)
  else
    let isWhite := nth i.(index) i.(pattern) false in
    let c' := onPhase isWhite c in
    let i' := set_index (i.(index) + 1)%nat i in
    if (List.length i'.(pattern) <=? i'.(index))%nat && negb (is_null i'.(intervalId))
    then (set_intervalId None (clearInterval i'), c')
    else (i', c').

(** The store of a sequencer that owns no interval: what
    [startIllumination] leaves behind for an empty pattern. *)
Definition idle : Illumination :=
  {| pattern := []; index := 0; intervalId := None; timerLive := false;
     clearCalls := 0; stopCalled := false |}.

Definition startIllumination (p : list bool) (c : C) : Illumination * C :=
  match p with
  | [] => (idle, c)
  | _ :: _ =>
      (* line 96, then line 97 *)
      emitStep ({| pattern := p; index := 0; intervalId := Some tt;
                   timerLive := true; clearCalls := 0; stopCalled := false |}, c)
  end.

(** The host fires the interval: [emitStep] runs if the interval still
    exists. *)
Definition tick (x : Illumination * C) : Illumination * C :=
  if (fst x).(timerLive) then emitStep x else x.

Fixpoint ticks (n : nat) (x : Illumination * C) : Illumination * C :=
  match n with
  | O => x
  | S n' => ticks n' (tick x)
  end.
(** The callback applied to a list of phases, first to last. *)
Definition deliver (c : C) (phases : list bool) : C :=
  fold_left (fun c b => onPhase b c) phases c.

(** The store of a sequencer of pattern [p] that has made [n] calls of the
    callback and was not cancelled. *)
Definition after_calls (p : list bool) (n : nat) (c : C) : Illumination * C :=
  ({| pattern := p;
      index := n;
      intervalId := if (n <? List.length p)%nat then Some tt else None;
      timerLive := (n <? List.length p)%nat;
      clearCalls := if (n <? List.length p)%nat then 0%nat else 1%nat;
      stopCalled := false |},
   deliver c (firstn n p)).

End Sequencer.

Arguments deliver {C} onPhase c phases.
Arguments after_calls {C} onPhase p n c.
Arguments emitStep {C} onPhase x.
Arguments startIllumination {C} onPhase p c.
Arguments tick {C} onPhase x.
Arguments ticks {C} onPhase n x.

(** The handle returned by [startIllumination]: line 74 for an empty
    pattern, lines 99-103 otherwise. *)
Definition stopIllumination (i : Illumination) : Illumination :=
  match i.(pattern) with
  | [] => createOnce stopCalled set_stopCalled (fun i => i) i
  | _ :: _ =>
      createOnce stopCalled set_stopCalled
        (fun i => if negb (is_null i.(intervalId)) then clearInterval i else i) i
  end.

(** A client that records the calls of its callback, oldest first. *)
Definition record_phase (isWhite : bool) (log : list bool) : list bool :=
  log ++ [isWhite].

(* ================================================================== *)
(** ** [dispatch] and [run] (lines 287-291 and 364-427) *)

(** What a run does to the outside, in the order it happens. *)
Inductive Effect :=
| Dispatched (e : AppEvent)
| DrawImage (frame : nat)
| FrameClosed (frame : nat)
| ReaderCancel
| ListenerAdded
| ListenerRemoved
| ConsoleError (label : jsstring).

(** The store of the application during a run: the global [state], the
    trace of effects, the cell of the [cleanup] handle, the registration of
    the [beforeunload] listener, the reader, and whether the [while] loop is
    still in its read cycle. *)
Record App := mkApp {
  state : AppState;
  effects : list Effect;
  cleanupCalled : bool;
  unloadListener : bool;
  readerCancelled : bool;
  reading : bool
}.

Definition World : Type := Illumination * App.

Definition emit (e : Effect) (a : App) : App :=
  mkApp a.(state) (a.(effects) ++ [e]) a.(cleanupCalled) a.(unloadListener)
        a.(readerCancelled) a.(reading).

Definition set_state (s : AppState) (a : App) : App :=
  mkApp s a.(effects) a.(cleanupCalled) a.(unloadListener)
        a.(readerCancelled) a.(reading).

Definition set_cleanupCalled (b : bool) (a : App) : App :=
  mkApp a.(state) a.(effects) b a.(unloadListener) a.(readerCancelled) a.(reading).

Definition set_unloadListener (b : bool) (a : App) : App :=
  mkApp a.(state) a.(effects) a.(cleanupCalled) b a.(readerCancelled) a.(reading).

Definition set_readerCancelled (b : bool) (a : App) : App :=
  mkApp a.(state) a.(effects) a.(cleanupCalled) a.(unloadListener) b a.(reading).

Definition set_reading (b : bool) (a : App) : App :=
  mkApp a.(state) a.(effects) a.(cleanupCalled) a.(unloadListener)
        a.(readerCancelled) b.

(** [dispatch]: the reducer replaces the global state; [render] only writes
    to the document. *)
Definition dispatch (e : AppEvent) (a : App) : App :=
  emit (Dispatched e) (set_state (reduce a.(state) e) a).

(** The callback handed to [startIllumination] on lines 386-388. *)
Definition onPhase (isWhite : bool) (a : App) : App :=
  dispatch (PhaseChanged isWhite) a.

(** A frame delivered by the reader, with what the canvas will do with it:
    [drawImage] may throw, and so may [toDataURL] ([png = None]). *)
Record VideoFrame := mkVideoFrame {
  frameId : nat;
  drawThrows : bool;
  png : option jsstring
}.

(** How a block of statements ends. *)
Inductive Completion :=
| Normal (w : World)
| Thrown (w : World).

(** The store a block leaves behind, however it ends. *)
Definition outcome (c : Completion) : World :=
  match c with Normal w => w | Thrown w => w end.

(** [try { body } finally { fin }]. *)
Definition try_finally (body : Completion) (fin : World -> World) : Completion :=
  match body with
  | Normal w => Normal (fin w)
  | Thrown w => Thrown (fin w)
  end.

Definition on_app (f : App -> App) (w : World) : World := (fst w, f (snd w)).
Definition on_seq (f : Illumination -> Illumination) (w : World) : World :=
  (f (fst w), snd w).

(** Lines 407-416, the body of the inner [try]. *)
Definition frame_body (f : VideoFrame) (w : World) : Completion :=
  if f.(drawThrows) then Thrown w
  else
    let w := on_app (emit (DrawImage f.(frameId))) w in
    let s := (snd w).(state) in
    if (0 <? s.(pendingCaptures)) && (Z.of_nat (List.length s.(captures)) <? TARGET_LENGTH)
    then
      match f.(png) with
      | None => Thrown w
      | Some dataUrl =>
          let w := on_app (dispatch (FrameCaptured dataUrl)) w in
          if TARGET_LENGTH <=? Z.of_nat (List.length (snd w).(state).(captures))
          then Normal (on_seq stopIllumination w)
          else Normal w
      end
    else Normal w.

(** Lines 406-419. *)
Definition process_frame (f : VideoFrame) (w : World) : Completion :=
  try_finally (frame_body f w) (on_app (emit (FrameClosed f.(frameId)))).

(** The body wrapped on lines 390-395, and the one-shot handle. *)
Definition cleanup_body (w : World) : World :=
  let w := on_seq stopIllumination w in
  let w := on_app (fun a => emit ReaderCancel (set_readerCancelled true a)) w in
  let w := on_app (fun a => emit ListenerRemoved (set_unloadListener false a)) w in
  on_app (dispatch RunComplete) w.

Definition cleanup : World -> World :=
  createOnce (fun w => (snd w).(cleanupCalled))
             (fun b => on_app (set_cleanupCalled b))
             cleanup_body.

(** Lines 421-423. *)
Definition catch_handler (w : World) : World :=
  on_app (fun a => dispatch (ErrorEvent (lit "Rendering stopped.") None)
                     (emit (ConsoleError (lit "Rendering error:")) a)) w.

(** Leaving the [while] loop: through [break] ([threw = false]) or through
    an exception, then the outer [finally]. *)
Definition leave_loop (threw : bool) (w : World) : World :=
  let w := if threw then catch_handler w else w in
  on_app (set_reading false) (cleanup w).

(** What [reader.read()] resolves to.  [ReadDone] stands for
    [done || !frame]. *)
Inductive ReadResult :=
| ReadFrame (f : VideoFrame)
| ReadDone
| ReadRejected.

(** What the event loop delivers while a run is under way: a firing of the
    interval, a resolved read, the [beforeunload] event, and a click on the
    thumbnail that carries [data-index = index] (lines 482-492; the other
    handlers of the page return at once while [isRunning] holds). *)
Inductive Input :=
| Tick
| Read (r : ReadResult)
| BeforeUnload
| ThumbnailClick (index : Z).

Definition same_selection (selected : option Z) (index : Z) : bool :=
  match selected with
  | Some i => i =? index
  | None => false
  end.

(** One turn of the event loop.  A read is only outstanding while the loop
    is in its read cycle; once the reader is cancelled its reads resolve
    with [done]. *)
Definition step (w : World) (i : Input) : World :=
  match i with
  | Tick => tick onPhase w
  | BeforeUnload => if (snd w).(unloadListener) then cleanup w else w
  | ThumbnailClick index =>
      if same_selection (snd w).(state).(selectedCaptureIndex) index then w
      else on_app (dispatch (SelectCapture index)) w
  | Read r =>
      if negb (snd w).(reading) then w
      else
        match (if (snd w).(readerCancelled) then ReadDone else r) with
        | ReadDone => leave_loop false w
        | ReadRejected => leave_loop true w
        | ReadFrame f =>
            match process_frame f w with
            | Normal w' => w'
            | Thrown w' => leave_loop true w'
            end
        end
  end.

Definition exec (w : World) (inputs : list Input) : World :=
  fold_left step inputs w.

(** How [stream ?? await initCamera()] ends (lines 318-358 and 365):
    [stream] is held already; the attempt that [run] waits for is granted,
    or denied; the call finds no camera API and no promise in [streamInit],
    and reports it; or the call finds in [streamInit] the promise that an
    earlier call without camera API resolved with null (line 335 returns
    outside the [try] whose [finally] resets [streamInit]), and gets null
    without a word.  On a page without camera API the call of line 495 has
    taken the fourth way, so that every [run] takes the fifth. *)
Inductive Camera :=
| CameraHeld
| CameraGranted
| CameraNoApi
| CameraDenied
| CameraNull.

Definition fresh (s : AppState) : App :=
  {| state := s; effects := []; cleanupCalled := false; unloadListener := false;
     readerCancelled := false; reading := false |}.

(** [run(pattern)] up to its first [await reader.read()]. *)
Definition run (p : list bool) (cam : Camera) (hasProcessor : bool)
    (s : AppState) : World :=
  let a := fresh s in
  let acquired :=
    match cam with
    | CameraHeld => (a, true)
    | CameraGranted => (dispatch StreamStarted a, true)
    | CameraNoApi =>
        (dispatch (ErrorEvent (lit "Webcam APIs unavailable in this browser.")
                              (Some (lit "Webcam unavailable"))) a, false)
    | CameraDenied =>
        (dispatch (ErrorEvent (lit "Camera permission denied.")
                              (Some (lit "Permission required")))
                  (emit (ConsoleError (lit "Camera access failed:")) a), false)
    | CameraNull => (a, false)
    end in
  let (a, activeStream) := acquired in
  if negb activeStream then (idle, dispatch RunComplete a)
  else if negb hasProcessor then
    (idle, dispatch RunComplete
             (dispatch (ErrorEvent (lit "WebCodecs not supported in this browser.")
                                   (Some (lit "WebCodecs unavailable"))) a))
  else
    let w := startIllumination onPhase p a in
    on_app (fun a => set_reading true (emit ListenerAdded (set_unloadListener true a))) w.

(** Lines 451-453 of [startFromControls]: [begin-run], then [run]. *)
Definition start_run (patternString : jsstring) (p : list bool) (cam : Camera)
    (hasProcessor : bool) (s : AppState) : World :=
  run p cam hasProcessor (reduce s (BeginRun patternString)).

(* ================================================================== *)
(** ** Predicates and auxiliary functions of the properties *)

Definition capturedCount (s : AppState) : Z := Z.of_nat (List.length s.(captures)).

(** The condition under which the read loop dispatches [frame-captured]
    (line 408). *)
Definition loop_guard (s : AppState) : bool :=
  (0 <? s.(pendingCaptures)) && (capturedCount s <? TARGET_LENGTH).

(** A sequence of events in which every [frame-captured] arrives in a state
    that passes the guard of the read loop. *)
Fixpoint guarded (s : AppState) (events : list AppEvent) : bool :=
  match events with
  | [] => true
  | e :: rest =>
      (match e with FrameCaptured _ => loop_guard s | _ => true end)
      && guarded (reduce s e) rest
  end.

Definition within_budget (s : AppState) : Prop :=
  0 <= s.(pendingCaptures) <= TARGET_LENGTH - capturedCount s.

Definition flag_is_threshold (s : AppState) : Prop :=
  s.(captureComplete) = (TARGET_LENGTH <=? capturedCount s).

(** [clamp(x, lo, hi)] as the design document uses it, with the reading the
    JavaScript libraries give it: first cap at [hi], then raise to [lo]. *)
Definition clamp (x lo hi : Z) : Z :=
  let capped := if x <=? hi then x else hi in
  if lo <=? capped then capped else lo.

Definition is_frame_captured (e : AppEvent) : bool :=
  match e with FrameCaptured _ => true | _ => false end.

(** Events that can write [selectedCaptureIndex] other than by
    auto-selection: [select-capture], and [begin-run], which opens another
    run. *)
Definition rewrites_selection (e : AppEvent) : bool :=
  match e with SelectCapture _ | BeginRun _ => true | _ => false end.

Definition run_invariant (s : AppState) : Prop :=
  within_budget s /\ flag_is_threshold s.

(** A sequencer whose handle was called, whose [intervalId] is null, or
    whose pattern is empty, has no live interval. *)
Definition seq_wf (i : Illumination) : Prop :=
  (stopCalled i = true -> timerLive i = false)
  /\ (intervalId i = None -> timerLive i = false)
  /\ (pattern i = [] -> timerLive i = false).

(** The only thing a run does to the sequencer outside a timer firing is to
    call its handle. *)
Definition stopped_or_same (i i' : Illumination) : Prop :=
  i' = i \/ i' = stopIllumination i.

Definition is_phase_dispatch (e : Effect) : bool :=
  match e with Dispatched (PhaseChanged _) => true | _ => false end.

Definition no_phase_dispatch (l : list Effect) : bool :=
  forallb (fun e => negb (is_phase_dispatch e)) l.

Definition cleanup_effects (a : App) : list Effect :=
  if cleanupCalled a then []
  else [ReaderCancel; ListenerRemoved; Dispatched RunComplete].

Definition catch_effects : list Effect :=
  [ConsoleError (lit "Rendering error:");
   Dispatched (ErrorEvent (lit "Rendering stopped.") None)].

(** What the loop body does with one frame in global state [s]. *)
Definition frame_effects (f : VideoFrame) (s : AppState) : list Effect :=
  if drawThrows f then [FrameClosed (frameId f)]
  else if loop_guard s then
    match png f with
    | None => [DrawImage (frameId f); FrameClosed (frameId f)]
    | Some dataUrl =>
        [DrawImage (frameId f); Dispatched (FrameCaptured dataUrl);
         FrameClosed (frameId f)]
    end
  else [DrawImage (frameId f); FrameClosed (frameId f)].

(** The loop body throws: [drawImage] fails, or the frame is due for capture
    and [toDataURL] fails. *)
Definition frame_throws (f : VideoFrame) (s : AppState) : bool :=
  drawThrows f || (loop_guard s && match png f with None => true | Some _ => false end).

(* ================================================================== *)
(** ** Readings of an event sequence *)

Definition is_begin_run (e : AppEvent) : bool :=
  match e with BeginRun _ => true | _ => false end.

Definition no_begin_run (events : list AppEvent) : bool :=
  forallb (fun e => negb (is_begin_run e)) events.

(** The payloads of the [frame-captured] events, in order. *)
Definition captured_urls (events : list AppEvent) : list jsstring :=
  flat_map (fun e => match e with FrameCaptured dataUrl => [dataUrl] | _ => [] end)
           events.

(** How many [phase-changed] events a sequence holds. *)
Definition phase_count (events : list AppEvent) : Z :=
  Z.of_nat (List.length
              (filter (fun e => match e with PhaseChanged _ => true | _ => false end)
                      events)).

(** The two events that switch [isRunning] off. *)
Definition ends_run (e : AppEvent) : bool :=
  match e with ErrorEvent _ _ | RunComplete => true | _ => false end.

(* ================================================================== *)
(** ** The sequencer under cancellation *)

(** What can happen to a started sequencer: the host fires its interval,
    or somebody calls the handle that [startIllumination] returned. *)
Inductive SeqInput :=
| FireInterval
| CallStop.

Definition seq_step {C : Type} (onPhase : bool -> C -> C)
    (x : Illumination * C) (i : SeqInput) : Illumination * C :=
  match i with
  | FireInterval => tick onPhase x
  | CallStop => (stopIllumination (fst x), snd x)
  end.

Definition seq_exec {C : Type} (onPhase : bool -> C -> C)
    (x : Illumination * C) (inputs : list SeqInput) : Illumination * C :=
  fold_left (seq_step onPhase) inputs x.

(** The shape of every store a sequencer can reach: the index stays inside
    the pattern; a live interval means that elements remain, that
    [intervalId] is set, that the handle was not called and that nothing was
    cleared; a dead one was cleared exactly once (never, if the pattern is
    empty and no interval was created), by the sequencer itself or through
    the handle. *)
Definition seq_inv (i : Illumination) : Prop :=
  (index i <= List.length (pattern i))%nat
  /\ (timerLive i = true ->
      (index i < List.length (pattern i))%nat
      /\ intervalId i = Some tt /\ stopCalled i = false /\ clearCalls i = 0%nat)
  /\ (timerLive i = false ->
      (intervalId i = None \/ stopCalled i = true)
      /\ clearCalls i = match pattern i with [] => 0%nat | _ :: _ => 1%nat end).

(* ================================================================== *)
(** ** Readings of the trace of a run *)

(** The events a trace dispatched, in order. *)
Definition dispatched (l : list Effect) : list AppEvent :=
  flat_map (fun e => match e with Dispatched ev => [ev] | _ => [] end) l.

(** The frames a trace closed, in order. *)
Definition closed_frames (l : list Effect) : list nat :=
  flat_map (fun e => match e with FrameClosed id => [id] | _ => [] end) l.

(** The frames the loop takes from the reader along a list of inputs: a
    delivered frame is taken when the loop is in its read cycle and the
    reader was not cancelled. *)
Fixpoint frames_taken (w : World) (inputs : list Input) : list nat :=
  match inputs with
  | [] => []
  | i :: rest =>
      (match i with
       | Read (ReadFrame f) =>
           if (snd w).(reading) && negb (snd w).(readerCancelled)
           then [f.(frameId)] else []
       | _ => []
       end) ++ frames_taken (step w i) rest
  end.

(** How often a trace dispatched [run-complete]. *)
Definition run_completions (l : list Effect) : nat :=
  List.length
    (filter (fun e => match e with Dispatched RunComplete => true | _ => false end) l).

(** [run] gets past its two early returns. *)
Definition enters_loop (cam : Camera) (hasProcessor : bool) : bool :=
  match cam with
  | CameraHeld | CameraGranted => hasProcessor
  | CameraNoApi | CameraDenied | CameraNull => false
  end.

(** What one turn of the event loop appends to the trace, read off the
    store it starts in. *)
Definition step_effects (w : World) (i : Input) : list Effect :=
  let a := snd w in
  match i with
  | Tick =>
      if (fst w).(timerLive) && (index (fst w) <? List.length (pattern (fst w)))%nat
      then [Dispatched (PhaseChanged (nth (index (fst w)) (pattern (fst w)) false))]
      else []
  | Read r =>
      if a.(reading) then
        match (if a.(readerCancelled) then ReadDone else r) with
        | ReadFrame f =>
            frame_effects f a.(state)
            ++ (if frame_throws f a.(state)
                then catch_effects ++ cleanup_effects a else [])
        | ReadDone => cleanup_effects a
        | ReadRejected => catch_effects ++ cleanup_effects a
        end
      else []
  | BeforeUnload => if a.(unloadListener) then cleanup_effects a else []
  | ThumbnailClick j =>
      if same_selection a.(state).(selectedCaptureIndex) j then []
      else [Dispatched (SelectCapture j)]
  end.


(** The turn leaves the [while] loop: the loop is reading and the read ends
    the stream, is rejected, or delivers a frame whose processing throws. *)
Definition leaves_loop (w : World) (i : Input) : bool :=
  match i with
  | Read r =>
      (snd w).(reading)
      && match (if (snd w).(readerCancelled) then ReadDone else r) with
         | ReadFrame f => frame_throws f (snd w).(state)
         | ReadDone | ReadRejected => true
         end
  | _ => false
  end.

(** The turn calls [cleanup()]: it leaves the loop, or it is a
    [beforeunload] with the listener registered. *)
Definition calls_cleanup (w : World) (i : Input) : bool :=
  match i with
  | BeforeUnload => (snd w).(unloadListener)
  | _ => leaves_loop w i
  end.

(** The shape of a run that entered its loop: [run-complete] has been
    dispatched once if [cleanup] ran and never otherwise; the loop is only
    left through [cleanup]; and after [cleanup] the listener is gone, no
    interval is live and [isRunning] is off. *)
Definition loop_run_shape (w : World) : Prop :=
  seq_wf (fst w)
  /\ run_completions (effects (snd w))
     = (if cleanupCalled (snd w) then 1%nat else 0%nat)
  /\ (reading (snd w) = false -> cleanupCalled (snd w) = true)
  /\ (cleanupCalled (snd w) = true ->
      unloadListener (snd w) = false
      /\ timerLive (fst w) = false
      /\ isRunning (state (snd w)) = false).

(** The books of a run started on pattern [p]: the state is within budget,
    the captures made and owed equal the phases the sequencer has
    delivered (capped), which are the [phase-changed] events of the trace,
    and the sequencer works on [p] (or was never started). *)
Definition run_books (p : list bool) (w : World) : Prop :=
  within_budget (state (snd w))
  /\ capturedCount (state (snd w)) + pendingCaptures (state (snd w))
     = Z.min (Z.of_nat (index (fst w))) TARGET_LENGTH
  /\ Z.of_nat (index (fst w)) = phase_count (dispatched (effects (snd w)))
  /\ seq_inv (fst w)
  /\ (pattern (fst w) = p \/ pattern (fst w) = []).

(* ================================================================== *)
(** ** [render] (lines 32-44 and 136-194)

    The document as far as the script writes it.  An element that may be
    missing ([.controls], the preview video) is an [option]. *)

Definition quote : jsstring := [34].

Definition DARK_FRAME_THEME : list (jsstring * jsstring) :=
  [ (lit "--bg-color", lit "#05060c");
    (lit "--text-color", lit "#f5f5f5");
    (lit "--panel", lit "rgba(12, 16, 28, 0.7)");
    (lit "--panel-border", lit "rgba(255, 255, 255, 0.15)") ].

Definition LIGHT_FRAME_THEME : list (jsstring * jsstring) :=
  [ (lit "--bg-color", lit "#f5f5f5");
    (lit "--text-color", lit "#05060c");
    (lit "--panel", lit "rgba(255, 255, 255, 0.78)");
    (lit "--panel-border", lit "rgba(0, 0, 0, 0.12)") ].

Record Dom := mkDom {
  rootStyle : list (jsstring * jsstring);
  errorText : jsstring;
  bodyIsGallery : bool;
  galleryHidden : bool;
  controlsDisplay : option jsstring;
  inputValue : jsstring;
  inputSelection : Z * Z;
  inputDisabled : bool;
  inputMaxLength : Z;
  startDisabled : bool;
  startMarkup : jsstring;
  gridMarkup : jsstring;
  selectedSrc : option jsstring;
  selectedAlt : jsstring;
  selectedHidden : bool;
  previewHidden : option bool;
  canvasHidden : bool
}.

(** [style.setProperty(name, value)] on the declarations of an element. *)
Fixpoint setProperty (name value : jsstring) (style : list (jsstring * jsstring))
  : list (jsstring * jsstring) :=
  match style with
  | [] => [(name, value)]
  | (n, v) :: rest =>
      if jsstring_eqb n name then (n, value) :: rest
      else (n, v) :: setProperty name value rest
  end.

Definition apply_theme (theme style : list (jsstring * jsstring))
  : list (jsstring * jsstring) :=
  fold_left (fun st entry => setProperty (fst entry) (snd entry) st) theme style.

(** [captures.map((src, index) => ...)]. *)
Fixpoint map_indexed {A B : Type} (f : A -> Z -> B) (from : Z) (l : list A) : list B :=
  match l with
  | [] => []
  | x :: rest => f x from :: map_indexed f (from + 1) rest
  end.

(** The callback of lines 172-175. *)
Definition thumbnail (selectedIndex : option Z) (src : jsstring) (index : Z) : jsstring :=
  let selectedClass := if same_selection selectedIndex index then lit " selected" else [] in
  lit "<img src=" ++ quote ++ src ++ quote
      ++ lit " alt=" ++ quote ++ lit "Captured frame " ++ show (index + 1) ++ quote
      ++ lit " data-index=" ++ quote ++ show index ++ quote
      ++ lit " class=" ++ quote ++ lit "capture-thumb" ++ selectedClass ++ quote
      ++ lit ">".

(** [captures[index]] for an integer [index]: [undefined] out of range. *)
Definition capture_at (l : list jsstring) (index : Z) : option jsstring :=
  if index <? 0 then None else nth_error l (Z.to_nat index).

Definition start_count_markup (n : Z) : jsstring :=
  lit "Start Capture<br><span class=" ++ quote ++ lit "start-button-count" ++ quote
      ++ lit ">(" ++ show n ++ lit "/" ++ show TARGET_LENGTH ++ lit ")</span>".

Definition render (nextState : AppState) (d : Dom) : Dom :=
  let theme := if nextState.(phaseIsWhite) then LIGHT_FRAME_THEME else DARK_FRAME_THEME in
  let galleryActive := nextState.(captureComplete) in
  let stale := negb (jsstring_eqb d.(inputValue) nextState.(patternString)) in
  let caret := jslength nextState.(patternString) in
  let selectedIndex := nextState.(selectedCaptureIndex) in
  {| rootStyle := apply_theme theme d.(rootStyle);
     errorText := nextState.(error);
     bodyIsGallery := galleryActive;
     galleryHidden := negb galleryActive;
     controlsDisplay :=
       match d.(controlsDisplay) with
       | Some _ => Some (if nextState.(isRunning) then lit "none" else [])
       | None => None
       end;
     inputValue := if stale then nextState.(patternString) else d.(inputValue);
     inputSelection := if stale then (caret, caret) else d.(inputSelection);
     inputDisabled := nextState.(isRunning);
     inputMaxLength := TARGET_LENGTH;
     startDisabled :=
       nextState.(isRunning)
       || negb (jslength nextState.(patternString) =? TARGET_LENGTH);
     startMarkup :=
       if nextState.(isRunning) then lit "Running" ++ ellipsis
       else start_count_markup (jslength nextState.(patternString));
     gridMarkup :=
       List.concat (map_indexed (thumbnail selectedIndex) 0 nextState.(captures));
     selectedSrc :=
       match selectedIndex with
       | None => None
       | Some i =>
           Some (match capture_at nextState.(captures) i with
                 | Some src => src
                 | None => []
                 end)
       end;
     selectedAlt :=
       match selectedIndex with
       | None => lit "Selected capture preview"
       | Some i => lit "Captured frame " ++ show (i + 1)
       end;
     selectedHidden :=
       match selectedIndex with None => true | Some _ => false end;
     previewHidden :=
       match d.(previewHidden) with
       | Some _ => Some nextState.(isRunning)
       | None => None
       end;
     canvasHidden :=
       match d.(previewHidden) with
       | Some _ => negb nextState.(isRunning)
       | None => false
       end |}.

(* ================================================================== *)
(** ** The page: [dispatch] with its [render], and the handlers of the
    controls (lines 287-291 and 429-492) *)

(** The global [state] and the document. *)
Definition Page : Type := AppState * Dom.

Definition page_dispatch (e : AppEvent) (pg : Page) : Page :=
  let s := reduce (fst pg) e in
  (s, render s (snd pg)).

Definition set_inputValue (v : jsstring) (d : Dom) : Dom :=
  mkDom d.(rootStyle) d.(errorText) d.(bodyIsGallery) d.(galleryHidden)
        d.(controlsDisplay) v d.(inputSelection) d.(inputDisabled) d.(inputMaxLength)
        d.(startDisabled) d.(startMarkup) d.(gridMarkup) d.(selectedSrc)
        d.(selectedAlt) d.(selectedHidden) d.(previewHidden) d.(canvasHidden).

Definition incomplete_message : jsstring :=
  lit "Enter exactly " ++ show TARGET_LENGTH ++ lit " characters using only B and W.".

Section Controls.
Variable toUpperCase : jsstring -> jsstring.

(** The [input] listener (lines 459-471); the browser has already put the
    typed text into the box. *)
Definition on_input (typed : jsstring) (pg : Page) : Page :=
  let pg := (fst pg, set_inputValue typed (snd pg)) in
  if (fst pg).(isRunning) then pg
  else
    let parsed := parsePatternInput toUpperCase typed TARGET_LENGTH in
    let pg :=
      if negb (jsstring_eqb parsed.(text) typed)
      then (fst pg, set_inputValue parsed.(text) (snd pg)) else pg in
    if negb (jsstring_eqb parsed.(text) (fst pg).(patternString))
    then page_dispatch (PatternChanged parsed.(text)) pg
    else pg.

(** [startFromControls] (lines 429-457), up to the call of [run]: the page
    it leaves and the sequence it hands to [run], if any. *)
Definition startFromControls (pg : Page) : Page * option (list bool) :=
  if (fst pg).(isRunning) then (pg, None)
  else
    let parsed := parsePatternInput toUpperCase (snd pg).(inputValue) TARGET_LENGTH in
    let pg :=
      if negb (jsstring_eqb (snd pg).(inputValue) parsed.(text))
      then (fst pg, set_inputValue parsed.(text) (snd pg)) else pg in
    if negb parsed.(isComplete) then
      (page_dispatch (ErrorEvent incomplete_message (Some (lit "Pattern incomplete"))) pg,
       None)
    else
      let pg :=
        if negb (jsstring_eqb parsed.(text) (fst pg).(patternString))
        then page_dispatch (PatternChanged parsed.(text)) pg else pg in
      (page_dispatch (BeginRun parsed.(text)) pg, Some parsed.(sequence)).

(** The [keydown] listener (lines 473-478). *)
Definition on_keydown (key : jsstring) (pg : Page) : Page * option (list bool) :=
  if jsstring_eqb key (lit "Enter") then startFromControls pg else (pg, None).

End Controls.


(** The document shows the state: rendering again changes nothing. *)
Definition in_sync (pg : Page) : Prop := render (fst pg) (snd pg) = snd pg.

(** A sequence of events whose [select-capture] events come from clicks on
    rendered thumbnails: the index is that of an existing capture. *)
Fixpoint clicks_on_thumbnails (s : AppState) (events : list AppEvent) : bool :=
  match events with
  | [] => true
  | e :: rest =>
      (match e with
       | SelectCapture i => (0 <=? i) && (i <? capturedCount s)
       | _ => true
       end)
      && clicks_on_thumbnails (reduce s e) rest
  end.

Definition selection_in_range (s : AppState) : Prop :=
  match s.(selectedCaptureIndex) with
  | None => True
  | Some i => 0 <= i < capturedCount s
  end.

Fixpoint lookup_property (name : jsstring) (style : list (jsstring * jsstring))
  : option jsstring :=
  match style with
  | [] => None
  | (n, v) :: rest => if jsstring_eqb n name then Some v else lookup_property name rest
  end.

(* ================================================================== *)
(** ** [attachPreview] and [initCamera] (lines 293-362)

    The globals [stream] and [streamInit].  A promise is followed as far as
    the code can tell promises apart: [streamInit] is null, or holds the
    promise of an attempt that waits for [getUserMedia], or holds the
    promise that the branch without camera API resolved with null and that
    nothing ever resets. *)

Inductive InitPromise :=
| NoAttempt
| InFlight
| SettledNull.

Record Acquisition := mkAcquisition {
  acqPage : Page;
  stream : option nat;
  streamInit : InitPromise;
  requests : nat;               (* calls of [getUserMedia] so far *)
  acqTrace : list Effect
}.

Definition set_previewHidden (v : option bool) (d : Dom) : Dom :=
  mkDom d.(rootStyle) d.(errorText) d.(bodyIsGallery) d.(galleryHidden)
        d.(controlsDisplay) d.(inputValue) d.(inputSelection) d.(inputDisabled)
        d.(inputMaxLength) d.(startDisabled) d.(startMarkup) d.(gridMarkup)
        d.(selectedSrc) d.(selectedAlt) d.(selectedHidden) v d.(canvasHidden).

(** [attachPreview]: the video element is created if it is missing, hidden
    while a run is under way, and the page is rendered again.  Of the
    element only its presence and [hidden] are followed, as in [Dom]. *)
Definition attachPreview (pg : Page) : Page :=
  let d := match (snd pg).(previewHidden) with
           | Some _ => snd pg
           | None => set_previewHidden (Some false) (snd pg)
           end in
  let d := set_previewHidden (Some (fst pg).(isRunning)) d in
  (fst pg, render (fst pg) d).

Definition acq_dispatch (e : AppEvent) (a : Acquisition) : Acquisition :=
  mkAcquisition (page_dispatch e a.(acqPage)) a.(stream) a.(streamInit) a.(requests)
                (a.(acqTrace) ++ [Dispatched e]).

(** What the promise returned by [initCamera] is: already settled with a
    value, or the promise of the attempt in flight. *)
Inductive Answer :=
| Settled (s : option nat)
| Pending.

(** One call of [initCamera()], up to its return. *)
Definition initCamera (hasApi : bool) (a : Acquisition) : Acquisition * Answer :=
  match a.(stream) with
  | Some s => (a, Settled (Some s))
  | None =>
      match a.(streamInit) with
      | InFlight => (a, Pending)
      | SettledNull => (a, Settled None)
      | NoAttempt =>
          if negb hasApi then
            let a := acq_dispatch
                       (ErrorEvent (lit "Webcam APIs unavailable in this browser.")
                                   (Some (lit "Webcam unavailable"))) a in
            (mkAcquisition a.(acqPage) a.(stream) SettledNull a.(requests) a.(acqTrace),
             Settled None)
          else
            (mkAcquisition a.(acqPage) a.(stream) InFlight (S a.(requests)) a.(acqTrace),
             Pending)
      end
  end.

(** How the request to [getUserMedia] ends. *)
Inductive MediaOutcome :=
| Granted (s : nat)
| Denied.

(** The rest of the attempt in flight, once [getUserMedia] has settled
    (lines 338-354). *)
Definition getUserMedia_settles (o : MediaOutcome) (a : Acquisition) : Acquisition :=
  match a.(streamInit) with
  | InFlight =>
      match o with
      | Granted s =>
          let a := mkAcquisition a.(acqPage) (Some s) a.(streamInit) a.(requests)
                                 a.(acqTrace) in
          let a := acq_dispatch StreamStarted a in
          mkAcquisition (attachPreview a.(acqPage)) a.(stream) NoAttempt a.(requests)
                        a.(acqTrace)
      | Denied =>
          let a := mkAcquisition a.(acqPage) a.(stream) a.(streamInit) a.(requests)
                     (a.(acqTrace) ++ [ConsoleError (lit "Camera access failed:")]) in
          let a := acq_dispatch
                     (ErrorEvent (lit "Camera permission denied.")
                                 (Some (lit "Permission required"))) a in
          mkAcquisition a.(acqPage) a.(stream) NoAttempt a.(requests) a.(acqTrace)
      end
  | NoAttempt | SettledNull => a
  end.

Inductive AcqInput :=
| CallInitCamera
| MediaSettles (o : MediaOutcome).

Definition acq_step (hasApi : bool) (a : Acquisition) (i : AcqInput) : Acquisition :=
  match i with
  | CallInitCamera => fst (initCamera hasApi a)
  | MediaSettles o => getUserMedia_settles o a
  end.

Definition acq_exec (hasApi : bool) (a : Acquisition) (inputs : list AcqInput)
  : Acquisition :=
  fold_left (acq_step hasApi) inputs a.

(** The store at page load, before the first call of [initCamera]. *)
Definition acq_initial (pg : Page) : Acquisition :=
  {| acqPage := pg; stream := None; streamInit := NoAttempt; requests := 0;
     acqTrace := [] |}.


(** The attempts that have ended: each one dispatched [stream-started] or
    the error of a denial. *)
Definition attempts_ended (l : list Effect) : nat :=
  List.length
    (filter (fun e => match e with
                      | Dispatched StreamStarted => true
                      | ConsoleError _ => true
                      | _ => false
                      end) l).

(** The event with which the branch without camera API reports. *)
Definition no_api_error : AppEvent :=
  ErrorEvent (lit "Webcam APIs unavailable in this browser.")
             (Some (lit "Webcam unavailable")).

Definition acq_inv (hasApi : bool) (a : Acquisition) : Prop :=
  requests a
  = (attempts_ended (acqTrace a)
     + match streamInit a with InFlight => 1 | _ => 0 end)%nat
  /\ (stream a <> None -> streamInit a = NoAttempt)
  /\ (hasApi = false ->
      requests a = 0%nat
      /\ stream a = None
      /\ streamInit a <> InFlight
      /\ acqTrace a = match streamInit a with
                      | SettledNull => [Dispatched no_api_error]
                      | _ => []
                      end)
  /\ (hasApi = true -> streamInit a <> SettledNull).

(* ================================================================== *)
(** * Properties of the reducer *)

Example show_20 : show 20 = lit "20".
Proof. reflexivity. Qed.

Example initial_status :
  status initialState = lit "Enter 20 frame pattern to begin.".
Proof. reflexivity. Qed.

Lemma length_snoc {A : Type} (l : list A) (x : A) :
  Z.of_nat (List.length (l ++ [x])) = Z.of_nat (List.length l) + 1.
Proof. rewrite length_app. simpl. lia. Qed.

Lemma reduce_keeps_budget (s : AppState) (e : AppEvent) :
  within_budget s ->
  (is_frame_captured e = true -> loop_guard s = true) ->
  within_budget (reduce s e).
Proof.
  unfold within_budget, loop_guard, capturedCount. intros H G.
  destruct e; cbn [reduce pendingCaptures captures]; try exact H.
  - destruct (isRunning s); exact H.
  - cbn [List.length]. unfold TARGET_LENGTH. lia.
  - lia.
  - specialize (G eq_refl). apply andb_prop in G. destruct G as [G1 G2].
    apply Z.ltb_lt in G1. apply Z.ltb_lt in G2.
    rewrite length_snoc. lia.
Qed.

Lemma reduce_keeps_flag (s : AppState) (e : AppEvent) :
  flag_is_threshold s -> flag_is_threshold (reduce s e).
Proof.
  unfold flag_is_threshold, capturedCount. intros H.
  destruct e; cbn [reduce captureComplete captures]; try exact H; try reflexivity.
  destruct (isRunning s); exact H.
Qed.

Lemma reduce_pending_nonneg (s : AppState) (e : AppEvent) :
  0 <= pendingCaptures s -> 0 <= pendingCaptures (reduce s e).
Proof.
  intros H. destruct e; cbn [reduce pendingCaptures]; try exact H; try lia.
  destruct (isRunning s); exact H.
Qed.

Lemma guarded_keeps_budget (es : list AppEvent) :
  forall s, within_budget s -> guarded s es = true -> within_budget (reduce_all s es).
Proof.
  induction es as [|e es IH]; intros s H G; simpl in *.
  - exact H.
  - apply andb_prop in G. destruct G as [Ge Gr].
    apply IH; [|exact Gr].
    apply reduce_keeps_budget; [exact H|].
    intros F. destruct e; try discriminate F. exact Ge.
Qed.

Lemma reduce_all_keeps_flag (es : list AppEvent) :
  forall s, flag_is_threshold s -> flag_is_threshold (reduce_all s es).
Proof.
  induction es as [|e es IH]; intros s H; simpl.
  - exact H.
  - apply IH. apply reduce_keeps_flag. exact H.
Qed.

Lemma reduce_all_pending_nonneg (es : list AppEvent) :
  forall s, 0 <= pendingCaptures s -> 0 <= pendingCaptures (reduce_all s es).
Proof.
  induction es as [|e es IH]; intros s H; simpl.
  - exact H.
  - apply IH. apply reduce_pending_nonneg. exact H.
Qed.

Lemma recognized_false (tag : jsstring) :
  recognized tag = false ->
  forall label : jsstring, In label case_labels -> jsstring_eqb tag label = false.
Proof.
  unfold recognized. intros H label I.
  destruct (jsstring_eqb tag label) eqn:E; [|reflexivity].
  rewrite <- H. symmetry. apply existsb_exists. exists label. split; assumption.
Qed.

(** No [case] of the [switch] takes a value that is none of its labels. *)
Lemma unlabelled_reaches_default (v : Runtime.Value) (label : string) :
  Runtime.is_case_label v = false ->
  In (lit label) case_labels ->
  Runtime.strict_equal v label = false.
Proof.
  intros H I. destruct v as [| |b|n|t]; try reflexivity.
  cbn [Runtime.strict_equal]. apply recognized_false; assumption.
Qed.

(** Outside the union the code can throw: an object tagged
    [pattern-changed] that has no [value] makes [reduce] read the [length]
    of [undefined]. *)
Lemma reduce_throws_on_missing_value :
  Runtime.reduce (state_object initialState)
    [Runtime.property "type" (Runtime.JsString (lit "pattern-changed"))]
  = Runtime.TypeError.
Proof. reflexivity. Qed.

(** Reads the fields of the record literals of both reducers. *)
Ltac runtime_fields :=
  cbn [reduce phaseIsWhite status error pendingCaptures captures captureComplete
       patternString isRunning selectedCaptureIndex
       Runtime.phaseIsWhite Runtime.status Runtime.error Runtime.pendingCaptures
       Runtime.captures Runtime.captureComplete Runtime.patternString
       Runtime.isRunning Runtime.selectedCaptureIndex
       Runtime.length_of Runtime.nullish].

(** C8.  The reducer is total: on every state and every event of the union
    [AppEvent] the code of [reduce] throws nothing and returns a state, the
    one that [reduce] of this development names; and whatever object it is
    handed, if the object's [type] is none of the [case] labels the code
    returns the input state itself. *)
Theorem reduce_total_unrecognized_noop :
  (forall (s : AppState) (e : AppEvent),
      well_tagged e = true ->
      Runtime.reduce (state_object s) (event_object e)
      = Runtime.Returned (state_object (reduce s e)))
  /\ (forall (current : Runtime.State) (event : Runtime.Event),
        Runtime.is_case_label (Runtime.get event "type") = false ->
        Runtime.reduce current event = Runtime.Returned current)
  /\ (forall (s : AppState) (e : AppEvent),
        recognized (event_type e) = false -> reduce s e = s).
Proof.
  split; [|split].
  - intros s e W.
    destruct e as [value|ps|isWhite|dataUrl| |message st| |i|tag].
    + unfold Runtime.reduce, event_object, state_object.
      cbn [Runtime.get Runtime.property String.eqb Ascii.eqb Bool.eqb].
      change (Runtime.strict_equal (Runtime.JsString (lit "pattern-changed"))
                "pattern-changed") with true.
      cbv iota. runtime_fields. destruct (isRunning s); reflexivity.
    + reflexivity.
    + unfold Runtime.reduce, event_object, state_object.
      cbn [Runtime.get Runtime.property String.eqb Ascii.eqb Bool.eqb].
      change (Runtime.strict_equal (Runtime.JsString (lit "phase-changed"))
                "pattern-changed") with false.
      change (Runtime.strict_equal (Runtime.JsString (lit "phase-changed"))
                "begin-run") with false.
      change (Runtime.strict_equal (Runtime.JsString (lit "phase-changed"))
                "phase-changed") with true.
      cbv iota. runtime_fields. rewrite length_map. reflexivity.
    + unfold Runtime.reduce, event_object, state_object.
      cbn [Runtime.get Runtime.property String.eqb Ascii.eqb Bool.eqb].
      change (Runtime.strict_equal (Runtime.JsString (lit "frame-captured"))
                "pattern-changed") with false.
      change (Runtime.strict_equal (Runtime.JsString (lit "frame-captured"))
                "begin-run") with false.
      change (Runtime.strict_equal (Runtime.JsString (lit "frame-captured"))
                "phase-changed") with false.
      change (Runtime.strict_equal (Runtime.JsString (lit "frame-captured"))
                "frame-captured") with true.
      cbv iota. runtime_fields.
      rewrite map_app, !length_app, length_map. cbn [map List.length].
      destruct (selectedCaptureIndex s); reflexivity.
    + reflexivity.
    + destruct st; reflexivity.
    + reflexivity.
    + reflexivity.
    + cbn [well_tagged] in W. apply Bool.negb_true_iff in W.
      pose proof (recognized_false tag W) as N.
      unfold Runtime.reduce, event_object.
      cbn [Runtime.get Runtime.property String.eqb Ascii.eqb Bool.eqb reduce
           Runtime.strict_equal].
      rewrite !N by (unfold case_labels; cbn [In]; tauto).
      reflexivity.
  - intros current event H.
    unfold Runtime.reduce.
    rewrite !(unlabelled_reaches_default _ _ H)
      by (unfold case_labels; cbn [In]; tauto).
    reflexivity.
  - intros s e H.
    destruct e; try (vm_compute in H; discriminate H). reflexivity.
Qed.

Lemma reduce_total_unrecognized_noop_witness :
  well_tagged (PatternChanged (lit "BW")) = true
  /\ Runtime.reduce (state_object initialState)
       (event_object (PatternChanged (lit "BW")))
     = Runtime.Returned (state_object (reduce initialState (PatternChanged (lit "BW"))))
  /\ Runtime.is_case_label
       (Runtime.get [Runtime.property "type" (Runtime.JsNumber 7)] "type") = false
  /\ Runtime.reduce (state_object initialState)
       [Runtime.property "type" (Runtime.JsNumber 7)]
     = Runtime.Returned (state_object initialState)
  /\ recognized (event_type (OtherEvent (lit "resize"))) = false
  /\ reduce initialState (OtherEvent (lit "resize")) = initialState.
Proof.
  destruct reduce_total_unrecognized_noop as (A & B & C).
  split; [reflexivity|].
  split; [apply A; reflexivity|].
  split; [reflexivity|].
  split; [apply B; reflexivity|].
  split; [reflexivity|].
  apply C. reflexivity.
Defined.

(** C4.  For every state, [phase-changed] sets the pending count to
    [clamp(pending + 1, 0, TARGET_LENGTH - captures.length)]; the result
    lies between 0 and [max(0, budget)], so it is never above a remaining
    budget that is not itself negative.  Scenario D: after [begin-run],
    phase ticks that arrive before any frame leave
    [min(ticks, TARGET_LENGTH)] pending captures. *)
Theorem phase_changed_clamps_pending (s : AppState) (isWhite : bool) :
  let budget := TARGET_LENGTH - capturedCount s in
  let s' := reduce s (PhaseChanged isWhite) in
  pendingCaptures s' = clamp (pendingCaptures s + 1) 0 budget
  /\ 0 <= pendingCaptures s' <= Z.max 0 budget
  /\ (0 <= budget -> pendingCaptures s' <= budget)
  /\ captures s' = captures s
  /\ (forall (ps : jsstring) (phases : list bool),
        pendingCaptures (reduce_all (reduce s (BeginRun ps)) (map PhaseChanged phases))
        = Z.min (Z.of_nat (List.length phases)) TARGET_LENGTH).
Proof.
  cbv zeta. unfold capturedCount. cbn [reduce pendingCaptures captures]. unfold clamp.
  repeat split; try lia.
  - destruct (Z.leb_spec (pendingCaptures s + 1)
                (TARGET_LENGTH - Z.of_nat (List.length (captures s))));
      match goal with |- _ = (if 0 <=? ?c then _ else _) =>
        destruct (Z.leb_spec 0 c) end; lia.
  - intros ps phases.
    assert (G : forall l s0, captures s0 = [] ->
              0 <= pendingCaptures s0 <= TARGET_LENGTH ->
              pendingCaptures (reduce_all s0 (map PhaseChanged l))
              = Z.min (pendingCaptures s0 + Z.of_nat (List.length l)) TARGET_LENGTH).
    { induction l as [|b l IH]; intros s0 Hc Hp.
      - cbn [map reduce_all fold_left List.length]. lia.
      - cbn [map List.length]. unfold reduce_all in *. cbn [fold_left].
        rewrite IH; cbn [reduce pendingCaptures captures]; rewrite ?Hc;
          cbn [List.length]; unfold TARGET_LENGTH in *; try reflexivity; lia. }
    rewrite G; cbn [reduce pendingCaptures captures]; unfold TARGET_LENGTH;
      try reflexivity; lia.
Qed.

Lemma phase_changed_clamps_pending_witness :
  0 <= TARGET_LENGTH - capturedCount initialState
  /\ pendingCaptures (reduce initialState (PhaseChanged true))
     <= TARGET_LENGTH - capturedCount initialState.
Proof.
  split.
  - vm_compute. discriminate.
  - apply (proj1 (proj2 (proj2 (phase_changed_clamps_pending initialState true)))).
    vm_compute. discriminate.
Defined.

Lemma reduce_keeps_selection (s : AppState) (e : AppEvent) :
  rewrites_selection e = false -> is_frame_captured e = false ->
  selectedCaptureIndex (reduce s e) = selectedCaptureIndex s.
Proof.
  intros R F. destruct e; try discriminate R; try discriminate F;
    cbn [reduce selectedCaptureIndex]; try reflexivity.
  destruct (isRunning s); reflexivity.
Qed.

Lemma frame_captured_keeps_choice (s : AppState) (i : Z) (dataUrl : jsstring) :
  selectedCaptureIndex s = Some i ->
  selectedCaptureIndex (reduce s (FrameCaptured dataUrl)) = Some i.
Proof. intros H. cbn [reduce selectedCaptureIndex]. rewrite H. reflexivity. Qed.

Lemma selection_stays_null (es : list AppEvent) :
  forall s,
    forallb (fun e => negb (rewrites_selection e) && negb (is_frame_captured e)) es = true ->
    selectedCaptureIndex (reduce_all s es) = selectedCaptureIndex s.
Proof.
  induction es as [|e es IH]; intros s H.
  - reflexivity.
  - cbn [forallb] in H. apply andb_prop in H. destruct H as [He Hr].
    apply andb_prop in He. destruct He as [H1 H2].
    apply negb_true_iff in H1. apply negb_true_iff in H2.
    unfold reduce_all in *. cbn [fold_left]. rewrite IH by exact Hr.
    apply reduce_keeps_selection; assumption.
Qed.

Lemma selection_survives (es : list AppEvent) :
  forall s i,
    forallb (fun e => negb (rewrites_selection e)) es = true ->
    selectedCaptureIndex s = Some i ->
    selectedCaptureIndex (reduce_all s es) = Some i.
Proof.
  induction es as [|e es IH]; intros s i H Hs.
  - exact Hs.
  - cbn [forallb] in H. apply andb_prop in H. destruct H as [He Hr].
    apply negb_true_iff in He.
    unfold reduce_all in *. cbn [fold_left]. apply IH; [exact Hr|].
    destruct (is_frame_captured e) eqn:F.
    + destruct e; try discriminate F. apply frame_captured_keeps_choice. exact Hs.
    + rewrite reduce_keeps_selection by assumption. exact Hs.
Qed.

(** C9.  [begin-run] resets the selection to null; it stays null until the
    first [frame-captured] of the run, which sets it to 0; it then stays 0
    through every later event of the run until a [select-capture] replaces
    it; [frame-captured] turns a null selection into 0 and preserves any
    selection that is not null. *)
Theorem first_capture_selects_zero
    (s : AppState) (ps : jsstring) (before after : list AppEvent) (dataUrl : jsstring) :
  forallb (fun e => negb (rewrites_selection e) && negb (is_frame_captured e)) before = true ->
  forallb (fun e => negb (rewrites_selection e)) after = true ->
  let s0 := reduce s (BeginRun ps) in
  let s1 := reduce_all s0 before in
  let s2 := reduce s1 (FrameCaptured dataUrl) in
  let s3 := reduce_all s2 after in
  selectedCaptureIndex s0 = None
  /\ selectedCaptureIndex s1 = None
  /\ selectedCaptureIndex s2 = Some 0
  /\ selectedCaptureIndex s3 = Some 0
  /\ (forall j : Z, selectedCaptureIndex (reduce s3 (SelectCapture j)) = Some j)
  /\ (forall (t : AppState) (url : jsstring),
        selectedCaptureIndex t = None ->
        selectedCaptureIndex (reduce t (FrameCaptured url)) = Some 0)
  /\ (forall (t : AppState) (i : Z) (url : jsstring),
        selectedCaptureIndex t = Some i ->
        selectedCaptureIndex (reduce t (FrameCaptured url)) = Some i).
Proof.
  intros Hb Ha s0 s1 s2 s3.
  assert (H0 : selectedCaptureIndex s0 = None) by reflexivity.
  assert (H1 : selectedCaptureIndex s1 = None).
  { unfold s1. rewrite selection_stays_null by exact Hb. exact H0. }
  assert (H2 : selectedCaptureIndex s2 = Some 0).
  { unfold s2. cbn [reduce selectedCaptureIndex]. rewrite H1. reflexivity. }
  repeat split; try assumption.
  - unfold s3. apply selection_survives; assumption.
  - intros t url Ht. cbn [reduce selectedCaptureIndex]. rewrite Ht. reflexivity.
  - intros t i url. apply frame_captured_keeps_choice.
Qed.

Lemma first_capture_selects_zero_witness :
  selectedCaptureIndex
    (reduce_all
       (reduce
          (reduce_all (reduce initialState (BeginRun (lit "BW")))
             [StreamStarted; PhaseChanged true])
          (FrameCaptured (lit "data:a")))
       [PhaseChanged false; FrameCaptured (lit "data:b"); RunComplete]) = Some 0.
Proof.
  apply (first_capture_selects_zero initialState (lit "BW")
           [StreamStarted; PhaseChanged true]
           [PhaseChanged false; FrameCaptured (lit "data:b"); RunComplete]
           (lit "data:a")); reflexivity.
Defined.

(* ================================================================== *)
(** * Properties of the pattern parser *)

Lemma strip_only_BW (s : jsstring) : forallb isBW (strip_non_BW s) = true.
Proof.
  apply forallb_forall. intros c H. apply filter_In in H. tauto.
Qed.

Lemma strip_fixes_BW (s : jsstring) :
  forallb isBW s = true -> strip_non_BW s = s.
Proof.
  unfold strip_non_BW. induction s as [|c s IH]; intros H.
  - reflexivity.
  - cbn [forallb] in H. apply andb_prop in H. destruct H as [Hc Hs].
    cbn [filter]. rewrite Hc, IH by exact Hs. reflexivity.
Qed.

Lemma forallb_firstn {A : Type} (f : A -> bool) (n : nat) (l : list A) :
  forallb f l = true -> forallb f (firstn n l) = true.
Proof.
  revert l. induction n as [|n IH]; intros [|x l] H; try reflexivity.
  cbn [forallb] in H. apply andb_prop in H. destruct H as [Hx Hl].
  cbn [firstn forallb]. rewrite Hx, IH by exact Hl. reflexivity.
Qed.

Lemma slice0_length (s : jsstring) (limit : Z) :
  0 <= limit -> jslength (slice0 s limit) = Z.min limit (jslength s).
Proof.
  intros H. unfold slice0, jslength.
  destruct (Z.ltb_spec limit 0); [lia|].
  rewrite length_firstn. lia.
Qed.

Lemma slice0_short (s : jsstring) (limit : Z) :
  jslength s <= limit -> slice0 s limit = s.
Proof.
  intros H. unfold slice0, jslength in *.
  destruct (Z.ltb_spec limit 0); [lia|].
  apply firstn_all2. lia.
Qed.

Lemma isBW_spec (c : Z) : isBW c = true <-> c = code_B \/ c = code_W.
Proof.
  unfold isBW. rewrite orb_true_iff, !Z.eqb_eq. tauto.
Qed.

Lemma ascii_upper_fixes_BW (s : jsstring) :
  forallb isBW s = true -> ascii_upper s = s.
Proof.
  unfold ascii_upper. induction s as [|c s IH]; intros H.
  - reflexivity.
  - cbn [forallb] in H. apply andb_prop in H. destruct H as [Hc Hs].
    cbn [map]. rewrite IH by exact Hs.
    apply isBW_spec in Hc. unfold code_B, code_W in Hc.
    destruct Hc as [-> | ->]; reflexivity.
Qed.

Section ParsePatternProperties.

Variable toUpperCase : jsstring -> jsstring.

(** The two letters of a pattern are their own upper case. *)
Hypothesis toUpperCase_fixes_BW :
  forall s : jsstring, forallb isBW s = true -> toUpperCase s = s.

(** C10.  For every input and every limit that is a length, the parsed
    text holds only ['B'] and ['W'], is at most [limit] long, the sequence
    has a [true] exactly where the text has a ['W'], [isComplete] says
    that the text is [limit] long, and parsing the text again returns the
    same result. *)
Theorem parsePatternInput_normalizes (value : jsstring) (limit : Z) :
  0 <= limit ->
  let p := parsePatternInput toUpperCase value limit in
  Forall (fun c => c = code_B \/ c = code_W) (text p)
  /\ jslength (text p) <= limit
  /\ List.length (sequence p) = List.length (text p)
  /\ (forall i : nat,
        nth_error (sequence p) i = Some true <-> nth_error (text p) i = Some code_W)
  /\ (isComplete p = true <-> jslength (text p) = limit)
  /\ parsePatternInput toUpperCase (text p) limit = p.
Proof.
  intros Hl p.
  assert (HBW : forallb isBW (text p) = true).
  { apply forallb_firstn. apply strip_only_BW. }
  assert (Hlen : jslength (text p) <= limit).
  { unfold p. cbn [text parsePatternInput]. rewrite slice0_length by exact Hl. lia. }
  repeat split.
  - apply Forall_forall. intros c Hc. apply isBW_spec.
    revert c Hc. apply forallb_forall. exact HBW.
  - exact Hlen.
  - apply length_map.
  - cbn [sequence parsePatternInput p text]. rewrite nth_error_map.
    destruct (nth_error _ i) as [c|]; cbn [option_map]; [|discriminate].
    intros H. injection H as H. apply Z.eqb_eq in H. congruence.
  - cbn [sequence parsePatternInput p text]. rewrite nth_error_map.
    intros H. rewrite H. cbn [option_map]. rewrite Z.eqb_refl. reflexivity.
  - cbn [isComplete parsePatternInput p]. rewrite length_map. intros H.
    apply Z.eqb_eq in H. exact H.
  - cbn [isComplete parsePatternInput p]. rewrite length_map. intros H.
    apply Z.eqb_eq. exact H.
  - unfold parsePatternInput at 1.
    rewrite toUpperCase_fixes_BW by exact HBW.
    rewrite strip_fixes_BW by exact HBW.
    rewrite slice0_short by exact Hlen. reflexivity.
Qed.

End ParsePatternProperties.

Example parse_small :
  let p := parsePatternInput ascii_upper (lit "bw-WBxw") 4 in
  text p = lit "BWWB" /\ sequence p = [false; true; true; false]
  /\ isComplete p = true.
Proof. repeat split. Qed.

Lemma parsePatternInput_normalizes_witness :
  0 <= 4
  /\ (let p := parsePatternInput ascii_upper (lit "bw-WBxw") 4 in
      Forall (fun c => c = code_B \/ c = code_W) (text p)
      /\ jslength (text p) <= 4
      /\ List.length (sequence p) = List.length (text p)
      /\ (forall i : nat,
            nth_error (sequence p) i = Some true <-> nth_error (text p) i = Some code_W)
      /\ (isComplete p = true <-> jslength (text p) = 4)
      /\ parsePatternInput ascii_upper (text p) 4 = p).
Proof.
  split.
  - vm_compute. discriminate.
  - apply (parsePatternInput_normalizes ascii_upper ascii_upper_fixes_BW (lit "bw-WBxw") 4).
    vm_compute. discriminate.
Defined.

(* ================================================================== *)
(** * Properties of [createOnce] and of the sequencer *)

Section OnceProperties.
Variable W : Type.
Variable called : W -> bool.
Variable set_called : bool -> W -> W.
Variable fn : W -> W.

(** The cell is a cell, and the wrapped function does not write it (it
    has no access to it). *)
Hypothesis called_set : forall b w, called (set_called b w) = b.
Hypothesis fn_keeps_called : forall w, called (fn w) = called w.

Lemma createOnce_marks (w : W) :
  called (createOnce called set_called fn w) = true.
Proof.
  unfold createOnce. destruct (called w) eqn:E.
  - exact E.
  - rewrite fn_keeps_called. apply called_set.
Qed.

Lemma createOnce_twice (w : W) :
  createOnce called set_called fn (createOnce called set_called fn w)
  = createOnce called set_called fn w.
Proof.
  unfold createOnce at 1. rewrite createOnce_marks. reflexivity.
Qed.
End OnceProperties.

Lemma stopIllumination_marks (i : Illumination) :
  stopCalled (stopIllumination i) = true.
Proof.
  unfold stopIllumination.
  destruct (pattern i); apply createOnce_marks; try reflexivity;
    intros w; destruct (negb (is_null (intervalId w))); reflexivity.
Qed.

Lemma stopIllumination_called (i : Illumination) :
  stopCalled i = true -> stopIllumination i = i.
Proof.
  intros H. unfold stopIllumination, createOnce. rewrite H.
  destruct (pattern i); reflexivity.
Qed.

Lemma stopIllumination_twice (i : Illumination) :
  stopIllumination (stopIllumination i) = stopIllumination i.
Proof. apply stopIllumination_called. apply stopIllumination_marks. Qed.

Lemma stopIllumination_null (i : Illumination) :
  intervalId i = None -> stopIllumination i = set_stopCalled true i.
Proof.
  intros H. destruct i as [p n v live k called]. cbn [intervalId] in H. subst v.
  unfold stopIllumination, createOnce. cbn.
  destruct p, called; reflexivity.
Qed.

Lemma cleanup_body_keeps_cell (w : World) :
  cleanupCalled (snd (cleanup_body w)) = cleanupCalled (snd w).
Proof. destruct w as [i a]. reflexivity. Qed.

Lemma cleanup_marks (w : World) : cleanupCalled (snd (cleanup w)) = true.
Proof.
  unfold cleanup.
  apply (createOnce_marks World (fun w => cleanupCalled (snd w))
           (fun b => on_app (set_cleanupCalled b)) cleanup_body).
  - intros b [i a]. reflexivity.
  - exact cleanup_body_keeps_cell.
Qed.

Lemma cleanup_called (w : World) :
  cleanupCalled (snd w) = true -> cleanup w = w.
Proof. intros H. unfold cleanup, createOnce. rewrite H. reflexivity. Qed.

Section SequencerProperties.
Variable C : Type.
Variable onPhase : bool -> C -> C.

Lemma firstn_succ_nth (p : list bool) :
  forall n, (n < List.length p)%nat ->
            firstn (S n) p = firstn n p ++ [nth n p false].
Proof.
  induction p as [|b p IH]; intros n H; cbn [List.length] in H.
  - lia.
  - destruct n as [|n].
    + reflexivity.
    + cbn [firstn nth app]. f_equal. apply IH. lia.
Qed.

Lemma emitStep_after_calls (p : list bool) (n : nat) (c : C) :
  (n < List.length p)%nat ->
  emitStep onPhase (after_calls onPhase p n c) = after_calls onPhase p (S n) c.
Proof.
  intros H. unfold after_calls, emitStep.
  cbn [pattern index intervalId set_index].
  destruct (Nat.leb_spec (List.length p) n) as [L|_]; [lia|].
  destruct (Nat.ltb_spec n (List.length p)) as [_|L]; [|lia].
  cbn [pattern index intervalId timerLive clearCalls stopCalled is_null negb].
  rewrite Nat.add_1_r, andb_true_r.
  rewrite (firstn_succ_nth p n H). unfold deliver. rewrite fold_left_app.
  cbn [fold_left].
  destruct (Nat.leb_spec (List.length p) (S n)) as [L|L];
    destruct (Nat.ltb_spec (S n) (List.length p)) as [L'|L']; try lia;
    reflexivity.
Qed.

Lemma startIllumination_after_calls (p : list bool) (c : C) :
  p <> [] -> startIllumination onPhase p c = after_calls onPhase p 1 c.
Proof.
  intros H. destruct p as [|b p]; [contradiction|].
  unfold startIllumination.
  rewrite <- (emitStep_after_calls (b :: p) 0 c) by (cbn [List.length]; lia).
  reflexivity.
Qed.

Lemma tick_after_calls (p : list bool) (n : nat) (c : C) :
  (n <= List.length p)%nat ->
  tick onPhase (after_calls onPhase p n c)
  = after_calls onPhase p (Nat.min (S n) (List.length p)) c.
Proof.
  intros H. unfold tick. cbn [fst after_calls timerLive].
  destruct (Nat.ltb_spec n (List.length p)) as [L|L].
  - rewrite emitStep_after_calls by exact L. rewrite Nat.min_l by lia. reflexivity.
  - rewrite Nat.min_r by lia. replace n with (List.length p) by lia. reflexivity.
Qed.

Lemma ticks_after_calls (k : nat) :
  forall (p : list bool) (n : nat) (c : C),
    (n <= List.length p)%nat ->
    ticks onPhase k (after_calls onPhase p n c)
    = after_calls onPhase p (Nat.min (n + k) (List.length p)) c.
Proof.
  induction k as [|k IH]; intros p n c H; cbn [ticks].
  - rewrite Nat.add_0_r, Nat.min_l by lia. reflexivity.
  - rewrite tick_after_calls by exact H. rewrite IH by lia.
    f_equal. lia.
Qed.

Lemma run_of_sequencer (p : list bool) (k : nat) (c : C) :
  p <> [] ->
  ticks onPhase k (startIllumination onPhase p c)
  = after_calls onPhase p (Nat.min (S k) (List.length p)) c.
Proof.
  intros H. rewrite startIllumination_after_calls by exact H.
  rewrite ticks_after_calls.
  - reflexivity.
  - destruct p; [contradiction|]. cbn [List.length]. lia.
Qed.

Lemma ticks_idle (k : nat) (c : C) : ticks onPhase k (idle, c) = (idle, c).
Proof. induction k as [|k IH]; [reflexivity|]. cbn [ticks]. exact IH. Qed.

End SequencerProperties.

Lemma deliver_record (phases log : list bool) :
  deliver record_phase log phases = log ++ phases.
Proof.
  revert log. induction phases as [|b l IH]; intros log.
  - symmetry. apply app_nil_r.
  - unfold deliver in *. cbn [fold_left]. rewrite IH. unfold record_phase.
    rewrite <- app_assoc. reflexivity.
Qed.

Lemma firstn_min_length {A : Type} (n : nat) (l : list A) :
  firstn (Nat.min n (List.length l)) l = firstn n l.
Proof.
  destruct (Nat.le_gt_cases n (List.length l)) as [H|H].
  - rewrite Nat.min_l by exact H. reflexivity.
  - rewrite Nat.min_r by lia. rewrite firstn_all. symmetry. apply firstn_all2. lia.
Qed.

(** C6.  Started on a pattern [p] and left alone, the sequencer has called
    its callback, after the start and [k] firings of the interval, on
    exactly the first [k + 1] elements of [p], each once and in order (the
    first one during [startIllumination] itself); once every element has
    been delivered the interval is cleared and further firings change
    nothing.  For the empty pattern nothing is ever delivered, no interval
    exists, and the returned handle only sets its own flag. *)
Theorem sequencer_calls_each_phase_once (p : list bool) :
  (forall (C : Type) (onPhase : bool -> C -> C) (c : C) (k : nat),
      snd (ticks onPhase k (startIllumination onPhase p c))
      = deliver onPhase c (firstn (S k) p))
  /\ (forall k : nat,
        let x := ticks record_phase k (startIllumination record_phase p []) in
        snd x = firstn (S k) p
        /\ index (fst x) = Nat.min (S k) (List.length p)
        /\ timerLive (fst x) = (S k <? List.length p)%nat)
  /\ (forall j : nat,
        let x := ticks record_phase (Nat.pred (List.length p) + j)
                   (startIllumination record_phase p []) in
        snd x = p /\ timerLive (fst x) = false /\ tick record_phase x = x)
  /\ (forall (C : Type) (onPhase : bool -> C -> C) (c : C) (k : nat),
        let x := ticks onPhase k (startIllumination onPhase [] c) in
        x = (idle, c)
        /\ timerLive (fst x) = false
        /\ stopIllumination (fst x) = set_stopCalled true (fst x)).
Proof.
  assert (G : forall (C : Type) (onPhase : bool -> C -> C) (c : C) (k : nat),
             snd (ticks onPhase k (startIllumination onPhase p c))
             = deliver onPhase c (firstn (S k) p)
             /\ index (fst (ticks onPhase k (startIllumination onPhase p c)))
                = Nat.min (S k) (List.length p)
             /\ timerLive (fst (ticks onPhase k (startIllumination onPhase p c)))
                = (S k <? List.length p)%nat).
  { intros C onPhase c k. destruct p as [|b q] eqn:E.
    - cbn [startIllumination]. rewrite ticks_idle. repeat split.
    - rewrite run_of_sequencer by discriminate.
      unfold after_calls. cbn [fst snd index timerLive].
      rewrite firstn_min_length. repeat split.
      destruct (Nat.ltb_spec (Nat.min (S k) (List.length (b :: q)))
                  (List.length (b :: q)));
        destruct (Nat.ltb_spec (S k) (List.length (b :: q))); try reflexivity; lia. }
  repeat apply conj.
  - intros C onPhase c k. apply G.
  - intros k. cbv zeta. destruct (G _ record_phase [] k) as (E & I & T).
    repeat split; try assumption.
    rewrite E. apply deliver_record.
  - intros j. cbv zeta.
    destruct (G _ record_phase [] (Nat.pred (List.length p) + j)%nat) as (E & I & T).
    assert (T' : timerLive (fst (ticks record_phase (Nat.pred (List.length p) + j)
                                   (startIllumination record_phase p []))) = false).
    { rewrite T. apply Nat.ltb_ge. lia. }
    repeat split.
    + rewrite E. rewrite deliver_record. cbn [app].
      apply firstn_all2. lia.
    + exact T'.
    + unfold tick. rewrite T'. reflexivity.
  - intros C onPhase c k. cbv zeta. cbn [startIllumination]. rewrite ticks_idle.
    repeat split.
Qed.

(** C7.  The handle returned by [startIllumination] and the [cleanup] of a
    run are idempotent: a second invocation returns the store of the first.
    Once the sequencer has delivered its whole pattern and cleared its own
    interval, its handle clears nothing: it only sets its own flag.  After
    the outer [finally] of [run] a late [beforeunload] changes nothing. *)
Theorem one_shot_handles_idempotent :
  (forall i : Illumination, stopIllumination (stopIllumination i) = stopIllumination i)
  /\ (forall w : World, cleanup (cleanup w) = cleanup w)
  /\ (forall (C : Type) (onPhase : bool -> C -> C) (p : list bool) (c : C) (j : nat),
        let i := fst (ticks onPhase (Nat.pred (List.length p) + j)
                        (startIllumination onPhase p c)) in
        timerLive i = false
        /\ stopIllumination i = set_stopCalled true i
        /\ clearCalls (stopIllumination i) = clearCalls i)
  /\ (forall (threw : bool) (w : World),
        step (leave_loop threw w) BeforeUnload = leave_loop threw w
        /\ cleanup (leave_loop threw w) = leave_loop threw w).
Proof.
  repeat apply conj.
  - exact stopIllumination_twice.
  - intros w. apply cleanup_called. apply cleanup_marks.
  - intros C onPhase p c j. cbv zeta.
    assert (N : intervalId (fst (ticks onPhase (Nat.pred (List.length p) + j)
                                   (startIllumination onPhase p c))) = None
                /\ timerLive (fst (ticks onPhase (Nat.pred (List.length p) + j)
                                     (startIllumination onPhase p c))) = false).
    { destruct p as [|b q].
      - cbn [startIllumination]. rewrite ticks_idle. split; reflexivity.
      - rewrite run_of_sequencer by discriminate.
        rewrite Nat.min_r by (cbn [List.length]; lia).
        unfold after_calls. cbn [fst intervalId timerLive].
        rewrite Nat.ltb_irrefl. split; reflexivity. }
    destruct N as [N L]. repeat split.
    + exact L.
    + apply stopIllumination_null. exact N.
    + rewrite stopIllumination_null by exact N. reflexivity.
  - intros threw w.
    assert (K : cleanupCalled (snd (leave_loop threw w)) = true).
    { unfold leave_loop. cbn [on_app snd set_reading cleanupCalled]. apply cleanup_marks. }
    split.
    + cbn [step]. rewrite cleanup_called by exact K.
      destruct (unloadListener (snd (leave_loop threw w))); reflexivity.
    + apply cleanup_called. exact K.
Qed.

(* ================================================================== *)
(** * Properties of a run *)

(** What a handle or a callback does to the global state. *)

Lemma emitStep_state {X : Type} (f : bool -> X -> X) (i : Illumination) (a : X) :
  snd (emitStep f (i, a)) = a
  \/ exists b : bool, snd (emitStep f (i, a)) = f b a.
Proof.
  unfold emitStep.
  destruct (List.length (pattern i) <=? index i)%nat.
  - left. destruct (negb (is_null (intervalId i))); reflexivity.
  - right. exists (nth (index i) (pattern i) false).
    match goal with |- context [if ?c then _ else _] => destruct c end; reflexivity.
Qed.

Lemma startIllumination_state {X : Type} (f : bool -> X -> X) (p : list bool) (a : X) :
  snd (startIllumination f p a) = a
  \/ exists b : bool, snd (startIllumination f p a) = f b a.
Proof.
  destruct p as [|b q]; cbn [startIllumination].
  - left. reflexivity.
  - apply emitStep_state.
Qed.

Lemma cleanup_state (w : World) :
  state (snd (cleanup w))
  = if cleanupCalled (snd w) then state (snd w)
    else reduce (state (snd w)) RunComplete.
Proof.
  destruct w as [i a]. unfold cleanup, createOnce. cbn [snd].
  destruct (cleanupCalled a); reflexivity.
Qed.

Lemma leave_loop_state (threw : bool) (w : World) :
  state (snd (leave_loop threw w))
  = let s := if threw
             then reduce (state (snd w)) (ErrorEvent (lit "Rendering stopped.") None)
             else state (snd w) in
    if cleanupCalled (snd w) then s else reduce s RunComplete.
Proof.
  destruct w as [i a]. unfold leave_loop. cbn [on_app snd set_reading state].
  rewrite cleanup_state. destruct threw; reflexivity.
Qed.

(** The state after the loop body of one frame: untouched, or one
    [frame-captured] reduced in a state that passed the guard. *)
Lemma process_frame_state (f : VideoFrame) (w : World) :
  let s := state (snd w) in
  let w' := outcome (process_frame f w) in
  (state (snd w') = s
   \/ (loop_guard s = true
       /\ exists dataUrl, png f = Some dataUrl
                          /\ state (snd w') = reduce s (FrameCaptured dataUrl)))
  /\ cleanupCalled (snd w') = cleanupCalled (snd w).
Proof.
  destruct w as [i a]. cbv zeta. unfold process_frame, frame_body, loop_guard, capturedCount.
  destruct (drawThrows f); [split; [left|]; reflexivity|].
  cbn [on_app fst snd emit state].
  destruct ((0 <? pendingCaptures (state a))
            && (Z.of_nat (List.length (captures (state a))) <? TARGET_LENGTH));
    [|split; [left|]; reflexivity].
  destruct (png f) as [dataUrl|]; [|split; [left|]; reflexivity].
  cbn [on_app fst snd dispatch emit set_state state].
  match goal with |- context [if ?c then _ else _] => destruct c end;
    (split; [right; split; [reflexivity|]; exists dataUrl; split; reflexivity
            | reflexivity]).
Qed.

Section StepInvariant.
(** A property of the global state that the events of a run preserve. *)
Variable P : AppState -> Prop.
Hypothesis P_phase : forall s b, P s -> P (reduce s (PhaseChanged b)).
Hypothesis P_frame :
  forall s dataUrl, P s -> loop_guard s = true -> P (reduce s (FrameCaptured dataUrl)).
Hypothesis P_error : forall s m st, P s -> P (reduce s (ErrorEvent m st)).
Hypothesis P_complete : forall s, P s -> P (reduce s RunComplete).
Hypothesis P_stream : forall s, P s -> P (reduce s StreamStarted).
Hypothesis P_select : forall s i, P s -> P (reduce s (SelectCapture i)).

Lemma leave_loop_preserves (threw : bool) (w : World) :
  P (state (snd w)) -> P (state (snd (leave_loop threw w))).
Proof.
  intros H. rewrite leave_loop_state. cbv zeta.
  destruct threw, (cleanupCalled (snd w)); auto.
Qed.

Lemma step_preserves (w : World) (i : Input) :
  P (state (snd w)) -> P (state (snd (step w i))).
Proof.
  intros H. destruct i as [|r| |j]; cbn [step].
  - unfold tick. destruct (timerLive (fst w)); [|exact H].
    destruct w as [il a]. cbn [snd] in H.
    destruct (emitStep_state onPhase il a) as [E|[b E]]; rewrite E.
    + exact H.
    + apply P_phase. exact H.
  - destruct (negb (reading (snd w))); [exact H|].
    destruct (if readerCancelled (snd w) then ReadDone else r) as [f| |].
    + pose proof (process_frame_state f w) as F. cbv zeta in F.
      assert (Q : forall w' : World, (state (snd w') = state (snd w)
                   \/ (loop_guard (state (snd w)) = true
                       /\ exists dataUrl, png f = Some dataUrl
                            /\ state (snd w') = reduce (state (snd w)) (FrameCaptured dataUrl)))
                  -> P (state (snd w'))).
      { intros w' [E|[G [u [_ E]]]]; rewrite E; auto. }
      destruct (process_frame f w) as [w'|w']; cbn [outcome] in F.
      * apply Q. apply F.
      * apply leave_loop_preserves. apply Q. apply F.
    + apply leave_loop_preserves. exact H.
    + apply leave_loop_preserves. exact H.
  - destruct (unloadListener (snd w)); [|exact H].
    rewrite cleanup_state. destruct (cleanupCalled (snd w)); auto.
  - destruct (same_selection (selectedCaptureIndex (state (snd w))) j); [exact H|].
    destruct w as [il a]. apply P_select. exact H.
Qed.

Lemma exec_preserves (inputs : list Input) :
  forall w, P (state (snd w)) -> P (state (snd (exec w inputs))).
Proof.
  induction inputs as [|i rest IH]; intros w H.
  - exact H.
  - unfold exec in *. cbn [fold_left]. apply IH. apply step_preserves. exact H.
Qed.

Lemma run_preserves (p : list bool) (cam : Camera) (hasProcessor : bool)
    (s : AppState) :
  P s -> P (state (snd (run p cam hasProcessor s))).
Proof.
  intros H. unfold run.
  assert (D : forall e a, P (state a) -> P (reduce (state a) e) ->
                          P (state (dispatch e a))).
  { intros e a _ K. exact K. }
  assert (S : forall a : App, P (state a) ->
            P (state (snd (on_app
                 (fun a => set_reading true (emit ListenerAdded (set_unloadListener true a)))
                 (startIllumination onPhase p a))))).
  { intros a Ha. unfold on_app.
    cbn [snd set_reading emit set_unloadListener state].
    destruct (startIllumination_state onPhase p a) as [E|[b E]]; rewrite E.
    - exact Ha.
    - apply P_phase. exact Ha. }
  destruct cam, hasProcessor; cbn [negb fst snd];
    try apply S; cbn [dispatch emit set_state state fresh]; auto.
Qed.
End StepInvariant.

Lemma run_invariant_begin (s : AppState) (ps : jsstring) :
  run_invariant (reduce s (BeginRun ps)).
Proof.
  split.
  - unfold within_budget, capturedCount.
    cbn [reduce initialState pendingCaptures captures List.length].
    unfold TARGET_LENGTH. lia.
  - reflexivity.
Qed.

Lemma run_invariant_reduce (s : AppState) (e : AppEvent) :
  run_invariant s ->
  (is_frame_captured e = true -> loop_guard s = true) ->
  run_invariant (reduce s e).
Proof.
  intros [B F] G. split.
  - apply reduce_keeps_budget; assumption.
  - apply reduce_keeps_flag; assumption.
Qed.

Lemma run_invariant_holds (ps : jsstring) (p : list bool) (cam : Camera)
    (hasProcessor : bool) (s0 : AppState) (inputs : list Input) :
  run_invariant (state (snd (exec (start_run ps p cam hasProcessor s0) inputs))).
Proof.
  assert (Q : forall s e, is_frame_captured e = false ->
                          run_invariant s -> run_invariant (reduce s e)).
  { intros s e F H. apply run_invariant_reduce; [exact H|].
    rewrite F. discriminate. }
  assert (G : forall s dataUrl, run_invariant s -> loop_guard s = true ->
                                run_invariant (reduce s (FrameCaptured dataUrl))).
  { intros s dataUrl H K. apply run_invariant_reduce; [exact H | intros _; exact K]. }
  unfold start_run.
  apply exec_preserves; try apply run_preserves;
    try exact G; try (intros; apply Q; [reflexivity | assumption]).
  apply run_invariant_begin.
Qed.

Lemma budget_forces_equality (s : AppState) :
  run_invariant s ->
  (captureComplete s = true <-> capturedCount s = TARGET_LENGTH).
Proof.
  intros [B F]. unfold within_budget, flag_is_threshold in *. rewrite F.
  rewrite Z.leb_le. lia.
Qed.

Lemma guarded_run_invariant (es : list AppEvent) :
  forall s, run_invariant s -> guarded s es = true -> run_invariant (reduce_all s es).
Proof.
  intros s [B F] G. split.
  - apply guarded_keeps_budget; assumption.
  - apply reduce_all_keeps_flag. exact F.
Qed.

Lemma run_invariant_initial : run_invariant initialState.
Proof.
  split.
  - unfold within_budget, capturedCount.
    cbn [reduce initialState pendingCaptures captures List.length].
    unfold TARGET_LENGTH. lia.
  - reflexivity.
Qed.

(** The upper bound rests on the guard of the read loop (line 408), the
    only place that dispatches [frame-captured]: the reducer by itself
    accepts the event in any state, and [TARGET_LENGTH + 1] of them in a
    row, which no run dispatches, would leave the pending count 0 above the
    remaining budget -1. *)
Lemma unguarded_captures_exceed_budget :
  let s := reduce_all initialState
             (BeginRun (lit "BWBWBWBWBWBWBWBWBWBW")
                :: repeat (FrameCaptured (lit "data:,")) 21) in
  pendingCaptures s = 0
  /\ TARGET_LENGTH - capturedCount s = -1
  /\ ~ within_budget s.
Proof.
  cbv zeta. repeat split.
  unfold within_budget.
  replace (capturedCount _) with 21 by reflexivity.
  replace (pendingCaptures _) with 0 by reflexivity.
  unfold TARGET_LENGTH. lia.
Qed.

(** C1.  At every state of a run, from [begin-run] through any
    interleaving of timer firings, reads, unload events and clicks,
    [0 <= pendingCaptures <= TARGET_LENGTH - captures.length].  The events
    of a run keep the bound in the reducer because [frame-captured] only
    arrives in states that pass the guard of the read loop: every such
    sequence of events keeps it, and no sequence of events at all takes the
    pending count below zero. *)
Theorem pending_within_budget_in_a_run :
  (forall (ps : jsstring) (p : list bool) (cam : Camera) (hasProcessor : bool)
          (s0 : AppState) (inputs : list Input),
      within_budget (state (snd (exec (start_run ps p cam hasProcessor s0) inputs))))
  /\ (forall (s : AppState) (events : list AppEvent),
        within_budget s -> guarded s events = true ->
        within_budget (reduce_all s events))
  /\ (forall (s : AppState) (events : list AppEvent),
        0 <= pendingCaptures s -> 0 <= pendingCaptures (reduce_all s events)).
Proof.
  repeat apply conj.
  - intros. apply run_invariant_holds.
  - intros s events. apply guarded_keeps_budget.
  - intros s events. apply reduce_all_pending_nonneg.
Qed.

Lemma pending_within_budget_in_a_run_witness :
  within_budget
    (reduce_all initialState
       [BeginRun (lit "BW"); PhaseChanged true; PhaseChanged false;
        FrameCaptured (lit "data:a"); RunComplete]).
Proof.
  apply (proj1 (proj2 pending_within_budget_in_a_run)).
  - exact (proj1 run_invariant_initial).
  - reflexivity.
Defined.

(** C5, as stated, fails on the reducer: the flag is computed with [>=],
    and [TARGET_LENGTH + 1] unguarded [frame-captured] events leave it true
    with 21 captures. *)
Lemma flag_true_beyond_target :
  let s := reduce_all initialState (repeat (FrameCaptured (lit "data:,")) 21) in
  captureComplete s = true
  /\ capturedCount s = 21
  /\ ~ (captureComplete s = true <-> capturedCount s = TARGET_LENGTH).
Proof.
  cbv zeta. repeat split.
  intros [H _]. specialize (H eq_refl). discriminate H.
Qed.

(** C5, amended.  In every state reachable through the reducer,
    [captureComplete] is true iff [captures.length >= TARGET_LENGTH]: it is
    recomputed by [frame-captured], reset by [begin-run] and left alone by
    every other event.  Where [frame-captured] only arrives under the guard
    of the read loop, and so at every state of a run, the count never
    passes [TARGET_LENGTH] and the flag is true iff
    [captures.length = TARGET_LENGTH]. *)
Theorem capture_complete_is_threshold :
  (forall events : list AppEvent,
      let s := reduce_all initialState events in
      captureComplete s = true <-> TARGET_LENGTH <= capturedCount s)
  /\ (forall (s : AppState) (e : AppEvent),
        captureComplete (reduce s e)
        = match e with
          | FrameCaptured _ => TARGET_LENGTH <=? capturedCount s + 1
          | BeginRun _ => false
          | _ => captureComplete s
          end)
  /\ (forall events : list AppEvent,
        guarded initialState events = true ->
        let s := reduce_all initialState events in
        captureComplete s = true <-> capturedCount s = TARGET_LENGTH)
  /\ (forall (ps : jsstring) (p : list bool) (cam : Camera) (hasProcessor : bool)
             (s0 : AppState) (inputs : list Input),
        let s := state (snd (exec (start_run ps p cam hasProcessor s0) inputs)) in
        captureComplete s = true <-> capturedCount s = TARGET_LENGTH).
Proof.
  repeat apply conj.
  - intros events s.
    assert (F : flag_is_threshold s).
    { apply reduce_all_keeps_flag. reflexivity. }
    rewrite F. apply Z.leb_le.
  - intros s e. destruct e; cbn [reduce captureComplete]; try reflexivity.
    + destruct (isRunning s); reflexivity.
    + unfold capturedCount. rewrite length_snoc. reflexivity.
  - intros events G s. apply budget_forces_equality.
    apply guarded_run_invariant; [apply run_invariant_initial | exact G].
  - intros. apply budget_forces_equality. apply run_invariant_holds.
Qed.

Lemma capture_complete_is_threshold_witness :
  let events := [BeginRun (lit "BW"); PhaseChanged true; FrameCaptured (lit "data:a")] in
  guarded initialState events = true
  /\ (captureComplete (reduce_all initialState events) = true
      <-> capturedCount (reduce_all initialState events) = TARGET_LENGTH).
Proof.
  cbv zeta. split.
  - reflexivity.
  - apply (proj1 (proj2 (proj2 capture_complete_is_threshold))). reflexivity.
Defined.

(** ** The sequencer inside a run *)

Lemma stopped_or_same_trans (i j k : Illumination) :
  stopped_or_same i j -> stopped_or_same j k -> stopped_or_same i k.
Proof.
  intros [->| ->] [->| ->]; unfold stopped_or_same; auto.
  right. apply stopIllumination_twice.
Qed.

Lemma seq_wf_idle : seq_wf idle.
Proof. repeat split. Qed.

Lemma seq_wf_emitStep {X : Type} (f : bool -> X -> X) (i : Illumination) (c : X) :
  seq_wf i -> seq_wf (fst (emitStep f (i, c))).
Proof.
  destruct i as [p n v live k called]. unfold seq_wf, emitStep.
  cbn [pattern index intervalId timerLive stopCalled set_index].
  intros (H1 & H2 & H3).
  destruct (List.length p <=? n)%nat.
  - destruct v; cbn; auto.
  - destruct ((List.length p <=? n + 1)%nat && negb (is_null v)); cbn; auto.
Qed.

Lemma seq_wf_start {X : Type} (f : bool -> X -> X) (p : list bool) (c : X) :
  seq_wf (fst (startIllumination f p c)).
Proof.
  destruct p as [|b q]; cbn [startIllumination].
  - apply seq_wf_idle.
  - apply seq_wf_emitStep. repeat split; discriminate.
Qed.

Lemma seq_wf_stop (i : Illumination) :
  seq_wf i -> seq_wf (stopIllumination i) /\ timerLive (stopIllumination i) = false.
Proof.
  destruct i as [p n v live k called]. unfold seq_wf, stopIllumination, createOnce.
  cbn [pattern index intervalId timerLive stopCalled].
  intros (H1 & H2 & H3).
  destruct p, called, v; cbn; repeat split; intros; try discriminate; auto.
Qed.

Lemma stop_keeps_dead (i : Illumination) :
  timerLive i = false -> timerLive (stopIllumination i) = false.
Proof.
  destruct i as [p n v live k called]. unfold stopIllumination, createOnce.
  cbn [pattern timerLive stopCalled]. intros ->.
  destruct p, called, v; reflexivity.
Qed.

Lemma cleanup_seq (w : World) : stopped_or_same (fst w) (fst (cleanup w)).
Proof.
  destruct w as [i a]. unfold cleanup, createOnce. cbn [snd].
  destruct (cleanupCalled a); [left|right]; reflexivity.
Qed.

Lemma process_frame_seq (f : VideoFrame) (w : World) :
  stopped_or_same (fst w)
    (fst (outcome (process_frame f w))).
Proof.
  destruct w as [i a]. unfold process_frame, frame_body.
  destruct (drawThrows f); [left; reflexivity|].
  cbn [on_app fst snd emit state].
  destruct ((0 <? pendingCaptures (state a))
            && (Z.of_nat (List.length (captures (state a))) <? TARGET_LENGTH));
    [|left; reflexivity].
  destruct (png f); [|left; reflexivity].
  match goal with |- context [if ?c then _ else _] => destruct c end;
    [right|left]; reflexivity.
Qed.

Lemma leave_loop_seq (threw : bool) (w : World) :
  stopped_or_same (fst w) (fst (leave_loop threw w)).
Proof.
  unfold leave_loop. cbn [on_app fst].
  destruct threw.
  - destruct w as [i a]. apply (cleanup_seq (catch_handler (i, a))).
  - apply cleanup_seq.
Qed.

Lemma step_seq (w : World) (i : Input) :
  i <> Tick -> stopped_or_same (fst w) (fst (step w i)).
Proof.
  intros N. destruct i as [|r| |j]; [contradiction| | |]; cbn [step].
  - destruct (negb (reading (snd w))); [left; reflexivity|].
    destruct (if readerCancelled (snd w) then ReadDone else r) as [f| |];
      try apply leave_loop_seq.
    pose proof (process_frame_seq f w) as F.
    destruct (process_frame f w) as [w'|w']; cbn [outcome] in F; [exact F|].
    eapply stopped_or_same_trans; [exact F | apply leave_loop_seq].
  - destruct (unloadListener (snd w)); [apply cleanup_seq | left; reflexivity].
  - left. destruct (same_selection (selectedCaptureIndex (state (snd w))) j); reflexivity.
Qed.

Lemma step_keeps_wf (w : World) (i : Input) :
  seq_wf (fst w) -> seq_wf (fst (step w i)).
Proof.
  intros H. destruct i as [|r| |j].
  - cbn [step]. unfold tick. destruct (timerLive (fst w)); [|exact H].
    destruct w as [il a]. apply seq_wf_emitStep. exact H.
  - destruct (step_seq w (Read r)) as [-> | ->]; [discriminate|exact H|].
    apply seq_wf_stop. exact H.
  - destruct (step_seq w BeforeUnload) as [-> | ->]; [discriminate|exact H|].
    apply seq_wf_stop. exact H.
  - destruct (step_seq w (ThumbnailClick j)) as [-> | ->]; [discriminate|exact H|].
    apply seq_wf_stop. exact H.
Qed.

Lemma step_keeps_dead (w : World) (i : Input) :
  timerLive (fst w) = false -> timerLive (fst (step w i)) = false.
Proof.
  intros H. destruct i as [|r| |j].
  - cbn [step]. unfold tick. rewrite H. exact H.
  - destruct (step_seq w (Read r)) as [-> | ->]; [discriminate|exact H|].
    apply stop_keeps_dead. exact H.
  - destruct (step_seq w BeforeUnload) as [-> | ->]; [discriminate|exact H|].
    apply stop_keeps_dead. exact H.
  - destruct (step_seq w (ThumbnailClick j)) as [-> | ->]; [discriminate|exact H|].
    apply stop_keeps_dead. exact H.
Qed.

Lemma run_seq_wf (p : list bool) (cam : Camera) (hasProcessor : bool) (s : AppState) :
  seq_wf (fst (run p cam hasProcessor s)).
Proof.
  unfold run.
  destruct cam, hasProcessor; cbn [negb fst snd on_app];
    try apply seq_wf_idle; apply seq_wf_start.
Qed.

Lemma exec_seq_wf (inputs : list Input) :
  forall w, seq_wf (fst w) -> seq_wf (fst (exec w inputs)).
Proof.
  induction inputs as [|i rest IH]; intros w H.
  - exact H.
  - unfold exec in *. cbn [fold_left]. apply IH. apply step_keeps_wf. exact H.
Qed.

(** ** The effects of a run *)

Lemma cleanup_appends (w : World) :
  effects (snd (cleanup w)) = effects (snd w) ++ cleanup_effects (snd w).
Proof.
  destruct w as [i a]. unfold cleanup, createOnce, cleanup_effects. cbn [snd].
  destruct (cleanupCalled a).
  - symmetry. apply app_nil_r.
  - cbn. rewrite <- !app_assoc. reflexivity.
Qed.

Lemma leave_loop_appends (threw : bool) (w : World) :
  effects (snd (leave_loop threw w))
  = effects (snd w) ++ (if threw then catch_effects else []) ++ cleanup_effects (snd w).
Proof.
  destruct w as [i a]. unfold leave_loop. cbn [on_app snd set_reading effects].
  rewrite cleanup_appends. destruct threw.
  - cbn. rewrite <- !app_assoc. reflexivity.
  - reflexivity.
Qed.

Lemma process_frame_appends (f : VideoFrame) (w : World) :
  let s := state (snd w) in
  (process_frame f w
   = (if frame_throws f s then Thrown else Normal)
       (outcome (process_frame f w)))
  /\ effects (snd (outcome (process_frame f w)))
     = effects (snd w) ++ frame_effects f s
  /\ reading (snd (outcome (process_frame f w)))
     = reading (snd w)
  /\ readerCancelled (snd (outcome (process_frame f w)))
     = readerCancelled (snd w).
Proof.
  destruct w as [i a]. cbv zeta.
  unfold process_frame, frame_body, frame_effects, frame_throws, loop_guard, capturedCount.
  destruct (drawThrows f); [repeat split|].
  cbn [on_app fst snd emit state orb].
  destruct ((0 <? pendingCaptures (state a))
            && (Z.of_nat (List.length (captures (state a))) <? TARGET_LENGTH)).
  - destruct (png f) as [dataUrl|].
    + cbn [on_app fst snd dispatch emit set_state state].
      match goal with |- context [if ?c then _ else _] => destruct c end;
        cbn; rewrite <- !app_assoc; repeat split.
    + cbn. rewrite <- !app_assoc. repeat split.
  - cbn. rewrite <- !app_assoc. repeat split.
Qed.

Lemma no_phase_dispatch_app (l1 l2 : list Effect) :
  no_phase_dispatch l1 = true -> no_phase_dispatch l2 = true ->
  no_phase_dispatch (l1 ++ l2) = true.
Proof.
  unfold no_phase_dispatch. intros H1 H2. rewrite forallb_app, H1, H2. reflexivity.
Qed.

Lemma frame_effects_quiet (f : VideoFrame) (s : AppState) :
  no_phase_dispatch (frame_effects f s) = true.
Proof.
  unfold frame_effects.
  destruct (drawThrows f), (loop_guard s), (png f); reflexivity.
Qed.

Lemma leave_effects_quiet (threw : bool) (a : App) :
  no_phase_dispatch ((if threw then catch_effects else []) ++ cleanup_effects a) = true.
Proof.
  unfold cleanup_effects. destruct threw, (cleanupCalled a); reflexivity.
Qed.

(** A turn of the event loop only appends to the trace, and with no live
    interval it appends no [phase-changed]. *)
Lemma step_appends (w : World) (i : Input) :
  exists tail : list Effect,
    effects (snd (step w i)) = effects (snd w) ++ tail
    /\ (timerLive (fst w) = false -> no_phase_dispatch tail = true).
Proof.
  destruct i as [|r| |j]; cbn [step].
  - unfold tick. destruct (timerLive (fst w)) eqn:L.
    + destruct w as [il a].
      destruct (emitStep_state onPhase il a) as [E|[b E]]; rewrite E.
      * exists []. split; [symmetry; apply app_nil_r | discriminate].
      * exists [Dispatched (PhaseChanged b)]. split; [reflexivity | discriminate].
    + exists []. split; [symmetry; apply app_nil_r | reflexivity].
  - destruct (negb (reading (snd w))).
    { exists []. split; [symmetry; apply app_nil_r | reflexivity]. }
    destruct (if readerCancelled (snd w) then ReadDone else r) as [f| |].
    + destruct (process_frame_appends f w) as (_ & E & _). cbv zeta in E.
      destruct (process_frame f w) as [w'|w']; cbn [outcome] in E.
      * eexists. split; [exact E | intros _; apply frame_effects_quiet].
      * eexists. split.
        -- rewrite leave_loop_appends, E, <- app_assoc. reflexivity.
        -- intros _. apply no_phase_dispatch_app;
             [apply frame_effects_quiet | apply (leave_effects_quiet true)].
    + eexists. split; [apply leave_loop_appends | intros _; apply (leave_effects_quiet false)].
    + eexists. split; [apply leave_loop_appends | intros _; apply (leave_effects_quiet true)].
  - destruct (unloadListener (snd w)).
    + eexists. split; [apply cleanup_appends|].
      intros _. apply (leave_effects_quiet false).
    + exists []. split; [symmetry; apply app_nil_r | reflexivity].
  - destruct (same_selection (selectedCaptureIndex (state (snd w))) j).
    + exists []. split; [symmetry; apply app_nil_r | reflexivity].
    + exists [Dispatched (SelectCapture j)]. split; reflexivity.
Qed.

Lemma exec_appends_quietly (inputs : list Input) :
  forall w : World,
    timerLive (fst w) = false ->
    timerLive (fst (exec w inputs)) = false
    /\ exists tail : list Effect,
         effects (snd (exec w inputs)) = effects (snd w) ++ tail
         /\ no_phase_dispatch tail = true.
Proof.
  induction inputs as [|i rest IH]; intros w L.
  - split; [exact L|]. exists []. split; [symmetry; apply app_nil_r | reflexivity].
  - unfold exec in *. cbn [fold_left].
    destruct (IH (step w i) (step_keeps_dead w i L)) as [L' [t2 [E2 Q2]]].
    destruct (step_appends w i) as [t1 [E1 Q1]].
    split; [exact L'|]. exists (t1 ++ t2). split.
    + rewrite E2, E1, <- app_assoc. reflexivity.
    + apply no_phase_dispatch_app; auto.
Qed.

(** With the target reached no later event of the run changes [captures]. *)
Lemma captures_frozen (w : World) (inputs : list Input) :
  TARGET_LENGTH <= capturedCount (state (snd w)) ->
  captures (state (snd (exec w inputs))) = captures (state (snd w)).
Proof.
  intros H.
  apply (exec_preserves (fun s => captures s = captures (state (snd w)))).
  - intros s b E. exact E.
  - intros s dataUrl E G. unfold loop_guard, capturedCount in *.
    rewrite E in G. apply andb_prop in G. destruct G as [_ G].
    apply Z.ltb_lt in G. lia.
  - intros s m st E. exact E.
  - intros s E. exact E.
  - intros s j E. exact E.
  - reflexivity.
Qed.

(** ** The read loop when the target is reached, and when a frame fails *)

(** The turn of the loop that captures the last frame. *)
Lemma last_capture_step (w : World) (f : VideoFrame) (dataUrl : jsstring) :
  reading (snd w) = true ->
  readerCancelled (snd w) = false ->
  drawThrows f = false ->
  png f = Some dataUrl ->
  loop_guard (state (snd w)) = true ->
  capturedCount (state (snd w)) + 1 = TARGET_LENGTH ->
  step w (Read (ReadFrame f))
  = (stopIllumination (fst w),
     emit (FrameClosed (frameId f))
       (dispatch (FrameCaptured dataUrl) (emit (DrawImage (frameId f)) (snd w)))).
Proof.
  destruct w as [i a]. cbn [fst snd]. intros R C D U G T.
  cbn [step snd]. rewrite R, C. cbn [negb].
  unfold process_frame, frame_body. rewrite D.
  cbn [on_app fst snd emit state].
  unfold loop_guard, capturedCount in G. rewrite G, U.
  cbn [on_app fst snd dispatch emit set_state state reduce captures].
  unfold capturedCount in T. rewrite length_snoc, T, Z.leb_refl.
  reflexivity.
Qed.

(** A frame that is not captured: drawn, released, nothing else. *)
Lemma idle_frame_step (w : World) (g : VideoFrame) :
  reading (snd w) = true ->
  readerCancelled (snd w) = false ->
  drawThrows g = false ->
  loop_guard (state (snd w)) = false ->
  step w (Read (ReadFrame g))
  = on_app (emit (FrameClosed (frameId g))) (on_app (emit (DrawImage (frameId g))) w).
Proof.
  destruct w as [i a]. cbn [fst snd]. intros R C D G.
  cbn [step snd]. rewrite R, C. cbn [negb].
  unfold process_frame, frame_body. rewrite D.
  cbn [on_app fst snd emit state].
  unfold loop_guard, capturedCount in G. rewrite G. reflexivity.
Qed.

(** C2, as stated, fails: with 20 captures made the loop is still in its
    read cycle, and the next frame delivered is read, drawn and released. *)
Lemma read_cycle_survives_target :
  let frame := fun n : nat => mkVideoFrame n false (Some (lit "data:image/png")) in
  let w := exec (start_run (lit "WWWWWWWWWWWWWWWWWWWW") (repeat true 20)
                   CameraHeld true initialState)
             (repeat Tick 19 ++ map (fun n => Read (ReadFrame (frame n))) (seq 0 20)) in
  capturedCount (state (snd w)) = TARGET_LENGTH
  /\ reading (snd w) = true
  /\ effects (snd (step w (Read (ReadFrame (frame 20%nat)))))
     = effects (snd w) ++ [DrawImage 20; FrameClosed 20].
Proof. vm_compute. repeat split. Qed.

(** C2, amended.  The turn of the loop on which the count of captures
    reaches [TARGET_LENGTH] calls the handle of the sequencer: from then on
    no interval is live, whatever part of the pattern remains, and no later
    turn dispatches [phase-changed] or changes [captures].  The loop does
    not leave its read cycle on that turn: it goes on reading, and as long
    as it does every later frame is drawn and released without being
    captured. *)
Theorem target_reached_stops_sequencer_not_reads
    (ps : jsstring) (p : list bool) (cam : Camera) (hasProcessor : bool)
    (s0 : AppState) (before : list Input) (f : VideoFrame) (dataUrl : jsstring)
    (later : list Input) :
  let w := exec (start_run ps p cam hasProcessor s0) before in
  reading (snd w) = true ->
  readerCancelled (snd w) = false ->
  drawThrows f = false ->
  png f = Some dataUrl ->
  loop_guard (state (snd w)) = true ->
  capturedCount (state (snd w)) + 1 = TARGET_LENGTH ->
  let w' := step w (Read (ReadFrame f)) in
  capturedCount (state (snd w')) = TARGET_LENGTH
  /\ captureComplete (state (snd w')) = true
  /\ stopCalled (fst w') = true
  /\ timerLive (fst w') = false
  /\ reading (snd w') = true
  /\ (exists tail : list Effect,
        effects (snd (exec w' later)) = effects (snd w') ++ tail
        /\ no_phase_dispatch tail = true)
  /\ captures (state (snd (exec w' later))) = captures (state (snd w'))
  /\ (forall g : VideoFrame,
        drawThrows g = false ->
        reading (snd (exec w' later)) = true ->
        readerCancelled (snd (exec w' later)) = false ->
        step (exec w' later) (Read (ReadFrame g))
        = on_app (emit (FrameClosed (frameId g)))
            (on_app (emit (DrawImage (frameId g))) (exec w' later))).
Proof.
  intros w R C D U G T w'.
  assert (E : w' = (stopIllumination (fst w),
                    emit (FrameClosed (frameId f))
                      (dispatch (FrameCaptured dataUrl)
                         (emit (DrawImage (frameId f)) (snd w))))).
  { apply last_capture_step; assumption. }
  assert (WF : seq_wf (fst w)).
  { apply exec_seq_wf. apply run_seq_wf. }
  assert (N : capturedCount (state (snd w')) = TARGET_LENGTH).
  { rewrite E. unfold capturedCount in *.
    cbn [snd emit dispatch set_state state reduce captures].
    rewrite length_snoc. exact T. }
  assert (L : timerLive (fst w') = false).
  { rewrite E. cbn [fst]. apply seq_wf_stop. exact WF. }
  repeat apply conj.
  - exact N.
  - rewrite E. unfold capturedCount in T.
    cbn [snd emit dispatch set_state state reduce captureComplete].
    rewrite length_snoc, T. apply Z.leb_refl.
  - rewrite E. cbn [fst]. apply stopIllumination_marks.
  - exact L.
  - rewrite E. cbn [snd emit dispatch set_state reading]. exact R.
  - apply exec_appends_quietly. exact L.
  - apply captures_frozen. lia.
  - intros g Dg R2 C2. apply idle_frame_step; try assumption.
    unfold loop_guard, capturedCount in *.
    rewrite (captures_frozen w' later) by (unfold capturedCount; lia).
    rewrite N, Z.ltb_irrefl. apply andb_false_r.
Qed.

Lemma target_reached_stops_sequencer_not_reads_witness :
  let frame := fun n : nat => mkVideoFrame n false (Some (lit "data:image/png")) in
  let w := exec (start_run (lit "WWWWWWWWWWWWWWWWWWWW") (repeat true 25)
                   CameraHeld true initialState)
             (repeat Tick 19 ++ map (fun n => Read (ReadFrame (frame n))) (seq 0 19)) in
  let w' := step w (Read (ReadFrame (frame 19%nat))) in
  (index (fst w) = 20%nat /\ timerLive (fst w) = true)
  /\ capturedCount (state (snd w')) = TARGET_LENGTH
  /\ timerLive (fst w') = false
  /\ reading (snd w') = true.
Proof.
  cbv zeta.
  pose proof (target_reached_stops_sequencer_not_reads
                (lit "WWWWWWWWWWWWWWWWWWWW") (repeat true 25) CameraHeld true initialState
                (repeat Tick 19
                   ++ map (fun n => Read (ReadFrame
                                            (mkVideoFrame n false (Some (lit "data:image/png")))))
                        (seq 0 19))
                (mkVideoFrame 19 false (Some (lit "data:image/png")))
                (lit "data:image/png")
                [Tick; Read ReadDone]) as H.
  cbv zeta in H.
  destruct H as (N & _ & _ & L & R & _); try (vm_compute; reflexivity).
  split; [vm_compute; split; reflexivity|].
  split; [exact N|]. split; [exact L | exact R].
Defined.

Lemma leave_loop_marks (threw : bool) (w : World) :
  cleanupCalled (snd (leave_loop threw w)) = true
  /\ reading (snd (leave_loop threw w)) = false.
Proof.
  unfold leave_loop. cbn [on_app snd set_reading cleanupCalled reading].
  split; [apply cleanup_marks | reflexivity].
Qed.

Lemma leave_loop_after_throw (w : World) :
  isRunning (state (snd (leave_loop true w))) = false
  /\ error (state (snd (leave_loop true w))) = lit "Rendering stopped.".
Proof.
  rewrite leave_loop_state. cbv zeta.
  destruct (cleanupCalled (snd w)); split; reflexivity.
Qed.

(** C3, as stated, fails: a frame whose [drawImage] throws ends the loop;
    the run reports "Rendering stopped." and the next frame is never
    read. *)
Lemma frame_failure_is_not_contained :
  let w0 := start_run (lit "WWWWWWWWWWWWWWWWWWWW") (repeat true 20)
              CameraHeld true initialState in
  let bad := mkVideoFrame 0 true None in
  let good := mkVideoFrame 1 false (Some (lit "data:image/png")) in
  let w1 := step w0 (Read (ReadFrame bad)) in
  reading (snd w0) = true
  /\ reading (snd w1) = false
  /\ error (state (snd w1)) = lit "Rendering stopped."
  /\ step w1 (Read (ReadFrame good)) = w1.
Proof. vm_compute. repeat split. Qed.

(** C3, amended.  A failure while processing a frame is not contained:
    the frame is released, and then, exactly as when the read call itself
    fails, the loop ends, the failure is dispatched as the error
    "Rendering stopped.", the one-shot cleanup runs, and no later frame is
    read.  The loop goes on to the next read only after a frame whose
    processing does not throw. *)
Theorem frame_failure_ends_the_loop (w : World) (f : VideoFrame) :
  reading (snd w) = true ->
  readerCancelled (snd w) = false ->
  let s := state (snd w) in
  (frame_throws f s = true ->
   let w' := step w (Read (ReadFrame f)) in
   effects (snd w')
   = effects (snd w) ++ frame_effects f s ++ catch_effects ++ cleanup_effects (snd w)
   /\ In (FrameClosed (frameId f)) (frame_effects f s)
   /\ reading (snd w') = false
   /\ cleanupCalled (snd w') = true
   /\ isRunning (state (snd w')) = false
   /\ error (state (snd w')) = lit "Rendering stopped."
   /\ (forall r : ReadResult, step w' (Read r) = w'))
  /\ (let v := step w (Read ReadRejected) in
      effects (snd v) = effects (snd w) ++ catch_effects ++ cleanup_effects (snd w)
      /\ reading (snd v) = false
      /\ cleanupCalled (snd v) = true
      /\ isRunning (state (snd v)) = false
      /\ error (state (snd v)) = lit "Rendering stopped.")
  /\ (frame_throws f s = false ->
      reading (snd (step w (Read (ReadFrame f)))) = true
      /\ In (FrameClosed (frameId f)) (effects (snd (step w (Read (ReadFrame f)))))).
Proof.
  intros R C s.
  destruct (process_frame_appends f w) as (K & E & R' & _).
  destruct (process_frame_state f w) as (_ & CC).
  cbv zeta in K, E, R', CC. fold s in K, E.
  remember (outcome (process_frame f w)) as w1 eqn:W1.
  clear W1.
  assert (IN : In (FrameClosed (frameId f)) (frame_effects f s)).
  { unfold frame_effects.
    destruct (drawThrows f), (loop_guard s), (png f); cbn; auto. }
  split; [|split].
  - intros T w'.
    assert (W : w' = leave_loop true w1).
    { unfold w'. cbn [step]. rewrite R, C. cbn [negb]. rewrite K, T. reflexivity. }
    rewrite W. repeat apply conj.
    + rewrite leave_loop_appends, E. unfold cleanup_effects. rewrite CC.
      rewrite <- !app_assoc. reflexivity.
    + exact IN.
    + apply leave_loop_marks.
    + apply leave_loop_marks.
    + apply leave_loop_after_throw.
    + apply leave_loop_after_throw.
    + intros r. cbn [step].
      rewrite (proj2 (leave_loop_marks true _)). reflexivity.
  - cbv zeta. cbn [step]. rewrite R, C. cbn [negb]. repeat apply conj.
    + apply leave_loop_appends.
    + apply leave_loop_marks.
    + apply leave_loop_marks.
    + apply leave_loop_after_throw.
    + apply leave_loop_after_throw.
  - intros T. cbn [step]. rewrite R, C. cbn [negb]. rewrite K, T. split.
    + rewrite R'. exact R.
    + rewrite E. apply in_or_app. right. exact IN.
Qed.

Lemma frame_failure_ends_the_loop_witness :
  let w0 := start_run (lit "WWWWWWWWWWWWWWWWWWWW") (repeat true 20)
              CameraHeld true initialState in
  let bad := mkVideoFrame 0 true None in
  reading (snd (step w0 (Read (ReadFrame bad)))) = false
  /\ isRunning (state (snd (step w0 (Read (ReadFrame bad))))) = false.
Proof.
  cbv zeta.
  destruct (frame_failure_ends_the_loop
              (start_run (lit "WWWWWWWWWWWWWWWWWWWW") (repeat true 20)
                 CameraHeld true initialState)
              (mkVideoFrame 0 true None) eq_refl eq_refl) as [H _].
  destruct (H eq_refl) as (_ & _ & R & _ & I & _).
  split; assumption.
Defined.

(* ================================================================== *)
(** * Further properties of the reducer *)

Lemma reduce_captures (s : AppState) (e : AppEvent) :
  captures (reduce s e)
  = match e with
    | BeginRun _ => []
    | FrameCaptured dataUrl => captures s ++ [dataUrl]
    | _ => captures s
    end.
Proof.
  destruct e; cbn [reduce captures]; try reflexivity.
  destruct (isRunning s); reflexivity.
Qed.

Lemma captures_grow (events : list AppEvent) :
  forall s : AppState,
    no_begin_run events = true ->
    captures (reduce_all s events) = captures s ++ captured_urls events.
Proof.
  induction events as [|e rest IH]; intros s H.
  - symmetry. apply app_nil_r.
  - cbn [no_begin_run forallb] in H. apply andb_prop in H. destruct H as [He Hr].
    unfold reduce_all in *. cbn [fold_left captured_urls flat_map].
    rewrite IH by exact Hr. rewrite reduce_captures.
    destruct e; try discriminate He; cbn [app]; try reflexivity.
    rewrite <- app_assoc. reflexivity.
Qed.

(** X1.  [captures] holds exactly the data URLs of the [frame-captured]
    events reduced since the latest [begin-run], in the order of arrival:
    without a [begin-run] a sequence of events only appends to it, and a
    [begin-run] empties it. *)
Theorem captures_are_the_frames_since_begin_run :
  (forall (s : AppState) (events : list AppEvent),
      no_begin_run events = true ->
      captures (reduce_all s events) = captures s ++ captured_urls events)
  /\ (forall (s : AppState) (before : list AppEvent) (ps : jsstring)
             (after : list AppEvent),
        no_begin_run after = true ->
        captures (reduce_all s (before ++ BeginRun ps :: after)) = captured_urls after).
Proof.
  split.
  - intros s events. apply captures_grow.
  - intros s before ps after H.
    unfold reduce_all. rewrite fold_left_app. cbn [fold_left].
    fold (reduce_all (reduce (fold_left reduce before s) (BeginRun ps)) after).
    rewrite captures_grow by exact H. reflexivity.
Qed.

Lemma captures_are_the_frames_since_begin_run_witness :
  captures
    (reduce_all initialState
       ([FrameCaptured (lit "old")]
          ++ BeginRun (lit "BW")
          :: [PhaseChanged true; FrameCaptured (lit "a"); PhaseChanged false;
              FrameCaptured (lit "b")]))
  = [lit "a"; lit "b"].
Proof.
  apply (proj2 captures_are_the_frames_since_begin_run initialState
           [FrameCaptured (lit "old")] (lit "BW")
           [PhaseChanged true; FrameCaptured (lit "a"); PhaseChanged false;
            FrameCaptured (lit "b")]).
  reflexivity.
Defined.

Lemma phase_count_cons (e : AppEvent) (rest : list AppEvent) :
  phase_count (e :: rest)
  = (match e with PhaseChanged _ => 1 | _ => 0 end) + phase_count rest.
Proof.
  unfold phase_count. cbn [filter].
  destruct e; cbn [List.length]; lia.
Qed.

Lemma sum_counts_phases (events : list AppEvent) :
  forall s : AppState,
    within_budget s ->
    guarded s events = true ->
    no_begin_run events = true ->
    capturedCount (reduce_all s events) + pendingCaptures (reduce_all s events)
    = Z.min (capturedCount s + pendingCaptures s + phase_count events) TARGET_LENGTH.
Proof.
  induction events as [|e rest IH]; intros s B G N.
  - unfold within_budget in B. cbn [reduce_all fold_left].
    unfold phase_count. cbn [filter List.length]. lia.
  - cbn [guarded] in G. apply andb_prop in G. destruct G as [Ge Gr].
    cbn [no_begin_run forallb] in N. apply andb_prop in N. destruct N as [Ne Nr].
    assert (B' : within_budget (reduce s e)).
    { apply reduce_keeps_budget; [exact B|].
      intros F. destruct e; try discriminate F. exact Ge. }
    unfold reduce_all in *. cbn [fold_left].
    rewrite (IH (reduce s e) B' Gr Nr). rewrite phase_count_cons.
    assert (phase_count rest >= 0) by (unfold phase_count; lia).
    unfold within_budget, capturedCount, loop_guard in *.
    destruct e; try discriminate Ne;
      cbn [reduce pendingCaptures captures] in *; try lia.
    + destruct (isRunning s); cbn [pendingCaptures captures]; lia.
    + apply andb_prop in Ge. destruct Ge as [G1 G2].
      apply Z.ltb_lt in G1. rewrite length_snoc in *. lia.
Qed.

(** X2.  Along a sequence of events without [begin-run] in which
    [frame-captured] only arrives under the guard of the read loop, the
    captures made plus the captures owed grow by the phase ticks received,
    capped at [TARGET_LENGTH]; counted from a [begin-run] they equal the
    phase ticks received, capped: every phase tick is worth one capture and
    a capture consumes exactly one of them. *)
Theorem captured_plus_pending_counts_phases (events : list AppEvent) (s : AppState) :
  no_begin_run events = true ->
  (within_budget s ->
   guarded s events = true ->
   capturedCount (reduce_all s events) + pendingCaptures (reduce_all s events)
   = Z.min (capturedCount s + pendingCaptures s + phase_count events) TARGET_LENGTH)
  /\ (forall ps : jsstring,
        guarded (reduce s (BeginRun ps)) events = true ->
        capturedCount (reduce_all (reduce s (BeginRun ps)) events)
        + pendingCaptures (reduce_all (reduce s (BeginRun ps)) events)
        = Z.min (phase_count events) TARGET_LENGTH).
Proof.
  intros N. split.
  - intros B G. apply sum_counts_phases; assumption.
  - intros ps G.
    rewrite sum_counts_phases;
      [|exact (proj1 (run_invariant_begin s ps))|exact G|exact N].
    f_equal.
Qed.

Lemma captured_plus_pending_counts_phases_witness :
  capturedCount
    (reduce_all (reduce initialState (BeginRun (lit "BW")))
       [PhaseChanged true; PhaseChanged false; FrameCaptured (lit "a")])
  + pendingCaptures
      (reduce_all (reduce initialState (BeginRun (lit "BW")))
         [PhaseChanged true; PhaseChanged false; FrameCaptured (lit "a")])
  = Z.min (phase_count [PhaseChanged true; PhaseChanged false; FrameCaptured (lit "a")])
          TARGET_LENGTH.
Proof.
  apply (proj2 (captured_plus_pending_counts_phases
                  [PhaseChanged true; PhaseChanged false; FrameCaptured (lit "a")]
                  initialState eq_refl) (lit "BW")).
  reflexivity.
Defined.

Lemma reduce_isRunning (s : AppState) (e : AppEvent) :
  isRunning (reduce s e)
  = if is_begin_run e then true else isRunning s && negb (ends_run e).
Proof.
  destruct e; cbn [reduce isRunning is_begin_run ends_run negb];
    rewrite ?andb_true_r, ?andb_false_r; try reflexivity.
  destruct (isRunning s); reflexivity.
Qed.

Lemma isRunning_fold (events : list AppEvent) :
  forall s : AppState,
    no_begin_run events = true ->
    isRunning (reduce_all s events)
    = isRunning s && forallb (fun e => negb (ends_run e)) events.
Proof.
  induction events as [|e rest IH]; intros s N.
  - cbn [reduce_all fold_left forallb]. symmetry. apply andb_true_r.
  - cbn [no_begin_run forallb] in N. apply andb_prop in N. destruct N as [Ne Nr].
    unfold reduce_all in *. cbn [fold_left forallb].
    rewrite (IH _ Nr), reduce_isRunning.
    apply negb_true_iff in Ne. rewrite Ne. symmetry. apply andb_assoc.
Qed.

(** X3.  [isRunning] is switched on by [begin-run] only and switched off by
    [error] and [run-complete] only: after a sequence of events without
    [begin-run] it is true exactly when it was true before and the sequence
    holds neither of the two; after a [begin-run] it is true exactly when
    none of the two has followed. *)
Theorem isRunning_tracks_begin_and_end :
  (forall (s : AppState) (events : list AppEvent),
      no_begin_run events = true ->
      isRunning (reduce_all s events)
      = isRunning s && forallb (fun e => negb (ends_run e)) events)
  /\ (forall (s : AppState) (before : list AppEvent) (ps : jsstring)
             (after : list AppEvent),
        no_begin_run after = true ->
        isRunning (reduce_all s (before ++ BeginRun ps :: after))
        = forallb (fun e => negb (ends_run e)) after).
Proof.
  split.
  - intros s events. apply isRunning_fold.
  - intros s before ps after N.
    unfold reduce_all. rewrite fold_left_app. cbn [fold_left].
    fold (reduce_all (reduce (fold_left reduce before s) (BeginRun ps)) after).
    rewrite isRunning_fold by exact N. reflexivity.
Qed.

Lemma isRunning_tracks_begin_and_end_witness :
  isRunning
    (reduce_all initialState
       ([PatternChanged (lit "BW")]
          ++ BeginRun (lit "BW")
          :: [PhaseChanged true; ErrorEvent (lit "Rendering stopped.") None;
              PhaseChanged false]))
  = false.
Proof.
  apply (proj2 isRunning_tracks_begin_and_end initialState
           [PatternChanged (lit "BW")] (lit "BW")
           [PhaseChanged true; ErrorEvent (lit "Rendering stopped.") None;
            PhaseChanged false]).
  reflexivity.
Defined.

(* ================================================================== *)
(** * Further properties of the parser, of [createOnce] and of the sequencer *)

(** X4.  The parsed text is the upper-cased input stripped of everything
    but ['B'] and ['W'] and cut to its first [limit] letters, and
    [isComplete] says that at least [limit] letters were there; a negative
    [limit] instead drops that many letters from the end and is never
    complete. *)
Theorem parsePatternInput_keeps_leading_letters
    (toUpperCase : jsstring -> jsstring) (value : jsstring) (limit : Z) :
  let kept := strip_non_BW (toUpperCase value) in
  let p := parsePatternInput toUpperCase value limit in
  (0 <= limit ->
   text p = firstn (Z.to_nat limit) kept
   /\ (isComplete p = true <-> limit <= jslength kept))
  /\ (limit < 0 ->
      text p = firstn (List.length kept - Z.to_nat (- limit)) kept
      /\ isComplete p = false).
Proof.
  intros kept p. unfold p, parsePatternInput. cbn [text isComplete].
  fold kept. rewrite length_map. unfold slice0, jslength. split; intros H.
  - destruct (Z.ltb_spec limit 0) as [L|_]; [lia|]. split.
    + destruct (Z.le_gt_cases limit (Z.of_nat (List.length kept))) as [K|K].
      * rewrite Z.min_l by exact K. reflexivity.
      * rewrite Z.min_r by lia. rewrite Nat2Z.id.
        rewrite firstn_all. symmetry. apply firstn_all2. lia.
    + rewrite Z.eqb_eq, length_firstn. lia.
  - destruct (Z.ltb_spec limit 0) as [_|L]; [|lia]. split.
    + f_equal. lia.
    + apply Z.eqb_neq. lia.
Qed.

Lemma parsePatternInput_keeps_leading_letters_witness :
  (text (parsePatternInput ascii_upper (lit "bw-WBxw") 4)
   = firstn 4 (strip_non_BW (ascii_upper (lit "bw-WBxw"))))
  /\ isComplete (parsePatternInput ascii_upper (lit "bw-WBxw") (-2)) = false.
Proof.
  split.
  - apply (proj1 (parsePatternInput_keeps_leading_letters ascii_upper (lit "bw-WBxw") 4)).
    vm_compute. discriminate.
  - apply (proj2 (parsePatternInput_keeps_leading_letters ascii_upper (lit "bw-WBxw") (-2))).
    reflexivity.
Defined.

Section OnceRepeated.
Variable W : Type.
Variable called : W -> bool.
Variable set_called : bool -> W -> W.
Variable fn : W -> W.

Hypothesis called_set : forall b w, called (set_called b w) = b.
Hypothesis fn_keeps_called : forall w, called (fn w) = called w.

(** X5.  However often the function returned by [createOnce] is invoked,
    the wrapped function runs at most once: any number of invocations
    leaves the store of the first, which ran the wrapped function unless
    the cell was already set. *)
Theorem createOnce_runs_at_most_once (n : nat) (w : W) :
  Nat.iter (S n) (createOnce called set_called fn) w
  = if called w then w else fn (set_called true w).
Proof.
  induction n as [|n IH].
  - reflexivity.
  - change (Nat.iter (S (S n)) (createOnce called set_called fn) w)
      with (createOnce called set_called fn
              (Nat.iter (S n) (createOnce called set_called fn) w)).
    rewrite IH. unfold createOnce at 1.
    destruct (called w) eqn:E.
    + rewrite E. reflexivity.
    + rewrite fn_keeps_called, called_set. reflexivity.
Qed.

End OnceRepeated.

Lemma createOnce_runs_at_most_once_witness :
  let live := {| pattern := [true; false]; index := 1; intervalId := Some tt;
                 timerLive := true; clearCalls := 0; stopCalled := false |} in
  Nat.iter 3 (createOnce stopCalled set_stopCalled clearInterval) live
  = clearInterval (set_stopCalled true live).
Proof.
  apply (createOnce_runs_at_most_once Illumination stopCalled set_stopCalled clearInterval
           (fun b w => eq_refl) (fun w => eq_refl) 2).
Defined.

Lemma seq_inv_idle : seq_inv idle.
Proof.
  unfold seq_inv, idle. cbn. repeat split; auto; discriminate.
Qed.

Lemma seq_inv_tick {X : Type} (f : bool -> X -> X) (i : Illumination) (c : X) :
  seq_inv i ->
  seq_inv (fst (tick f (i, c)))
  /\ pattern (fst (tick f (i, c))) = pattern i
  /\ ((fst (tick f (i, c)) = i /\ snd (tick f (i, c)) = c)
      \/ (timerLive i = true
          /\ index (fst (tick f (i, c))) = S (index i)
          /\ snd (tick f (i, c)) = f (nth (index i) (pattern i) false) c)).
Proof.
  destruct i as [p n v live k called]. unfold seq_inv, tick, emitStep.
  cbn [fst snd pattern index intervalId timerLive stopCalled clearCalls set_index].
  intros (H1 & H2 & H3).
  destruct live.
  - destruct (H2 eq_refl) as (L & -> & -> & ->).
    destruct (Nat.leb_spec (List.length p) n) as [K|_]; [lia|].
    cbn [is_null negb andb]. rewrite andb_true_r.
    destruct (Nat.leb_spec (List.length p) (n + 1)) as [K|K];
      unfold set_index, set_intervalId, clearInterval;
      cbn [fst snd pattern index intervalId timerLive stopCalled clearCalls];
      (split; [|split; [reflexivity|right; repeat split; lia]]).
    + repeat split; try lia; try discriminate; auto.
      destruct p; [cbn in L; lia | reflexivity].
    + repeat split; try lia; try discriminate; auto; intros; discriminate.
  - cbn [fst snd]. split; [|split; [reflexivity|left; split; reflexivity]].
    repeat split; auto; try discriminate; apply H3; reflexivity.
Qed.

Lemma seq_inv_stop (i : Illumination) :
  seq_inv i ->
  seq_inv (stopIllumination i)
  /\ pattern (stopIllumination i) = pattern i
  /\ index (stopIllumination i) = index i
  /\ timerLive (stopIllumination i) = false
  /\ stopCalled (stopIllumination i) = true.
Proof.
  destruct i as [p n v live k called]. unfold seq_inv, stopIllumination, createOnce.
  cbn [pattern index intervalId timerLive stopCalled clearCalls].
  intros (H1 & H2 & H3).
  destruct live.
  - destruct (H2 eq_refl) as (L & -> & -> & ->).
    destruct p as [|b q]; [cbn in L; lia|].
    cbn. repeat split; auto; try discriminate.
  - destruct (H3 eq_refl) as (D & K).
    destruct p as [|b q], called, v as [[]|]; cbn in *;
      repeat split; auto; try discriminate; try lia;
      destruct D; discriminate.
Qed.

Lemma seq_inv_start {X : Type} (f : bool -> X -> X) (p : list bool) (c : X) :
  seq_inv (fst (startIllumination f p c))
  /\ pattern (fst (startIllumination f p c)) = p
  /\ snd (startIllumination f p c)
     = deliver f c (firstn (index (fst (startIllumination f p c))) p).
Proof.
  destruct p as [|b q].
  - cbn [startIllumination fst snd]. split; [apply seq_inv_idle|]. split; reflexivity.
  - rewrite startIllumination_after_calls by discriminate.
    unfold after_calls, seq_inv.
    cbn [fst snd pattern index intervalId timerLive stopCalled clearCalls List.length].
    destruct (Nat.ltb_spec 1 (S (List.length q))) as [L|L].
    + repeat split; try lia; try discriminate.
    + repeat split; try lia; try discriminate. left. reflexivity.
Qed.

Lemma seq_exec_invariant {X : Type} (f : bool -> X -> X) (p : list bool) (c : X)
    (inputs : list SeqInput) :
  forall x : Illumination * X,
    seq_inv (fst x) -> pattern (fst x) = p ->
    snd x = deliver f c (firstn (index (fst x)) p) ->
    seq_inv (fst (seq_exec f x inputs))
    /\ pattern (fst (seq_exec f x inputs)) = p
    /\ snd (seq_exec f x inputs)
       = deliver f c (firstn (index (fst (seq_exec f x inputs))) p)
    /\ (stopCalled (fst x) = true \/ In CallStop inputs ->
        stopCalled (fst (seq_exec f x inputs)) = true)
    /\ (timerLive (fst x) = false -> snd (seq_exec f x inputs) = snd x).
Proof.
  induction inputs as [|i rest IH]; intros x I P D.
  - cbn [seq_exec fold_left]. split; [exact I|]. split; [exact P|].
    split; [exact D|]. split; [|reflexivity]. intros [H|[]]. exact H.
  - unfold seq_exec in *. cbn [fold_left].
    assert (K : seq_inv (fst (seq_step f x i)) /\ pattern (fst (seq_step f x i)) = p
                /\ snd (seq_step f x i)
                   = deliver f c (firstn (index (fst (seq_step f x i))) p)
                /\ (stopCalled (fst x) = true \/ i = CallStop ->
                    stopCalled (fst (seq_step f x i)) = true)
                /\ (timerLive (fst x) = false ->
                    snd (seq_step f x i) = snd x
                    /\ timerLive (fst (seq_step f x i)) = false)).
    { destruct x as [il cl]. cbn [fst snd] in *. destruct i; cbn [seq_step fst snd].
      - destruct (seq_inv_tick f il cl I) as (I' & P' & [[E1 E2]|(L & E1 & E2)]).
        + rewrite E1, E2. split; [exact I|]. split; [exact P|]. split; [exact D|].
          split.
          * intros [H|H]; [exact H|discriminate H].
          * intros H. split; [reflexivity|exact H].
        + split; [exact I'|]. split; [congruence|]. split; [|split].
          * rewrite E2, E1, D.
            assert (N : (index il < List.length p)%nat).
            { destruct I as (_ & I2 & _). rewrite <- P. apply I2. exact L. }
            rewrite (firstn_succ_nth p (index il) N). unfold deliver.
            rewrite fold_left_app, P. reflexivity.
          * intros [H|H]; [|discriminate H].
            destruct I as (_ & I2 & _). destruct (I2 L) as (_ & _ & S & _). congruence.
          * intros H. congruence.
      - destruct (seq_inv_stop il I) as (I' & P' & X' & L' & S').
        split; [exact I'|]. split; [congruence|]. split; [|split].
        + rewrite X'. exact D.
        + intros _. exact S'.
        + intros _. split; [reflexivity|exact L']. }
    destruct K as (I' & P' & D' & S' & L').
    destruct (IH (seq_step f x i) I' P' D') as (I2 & P2 & D2 & S2 & L2).
    split; [exact I2|]. split; [exact P2|]. split; [exact D2|]. split.
    + intros [H|[H|H]].
      * apply S2. left. apply S'. left. exact H.
      * apply S2. left. apply S'. right. exact H.
      * apply S2. right. exact H.
    + intros H. destruct (L' H) as [E1 E2]. rewrite <- E1. apply L2. exact E2.
Qed.

(** X6.  Under every interleaving of interval firings and calls of the
    returned handle, the callback has been applied to a prefix of the
    pattern, in order and without repetition, and [clearInterval] has been
    called at most once.  Once the handle has been called the interval is
    dead and no later firing delivers anything. *)
Theorem sequencer_delivers_a_prefix_under_cancellation
    (C : Type) (onPhase : bool -> C -> C) (p : list bool) (c : C)
    (inputs : list SeqInput) :
  let x := seq_exec onPhase (startIllumination onPhase p c) inputs in
  snd x = deliver onPhase c (firstn (index (fst x)) p)
  /\ (index (fst x) <= List.length p)%nat
  /\ (clearCalls (fst x) <= 1)%nat
  /\ (In CallStop inputs ->
      timerLive (fst x) = false
      /\ forall more : list SeqInput, snd (seq_exec onPhase x more) = snd x).
Proof.
  intros x.
  destruct (seq_inv_start onPhase p c) as (I0 & P0 & D0).
  destruct (seq_exec_invariant onPhase p c inputs _ I0 P0 D0) as (I & P & D & S & _).
  fold x in I, P, D, S.
  assert (K : (clearCalls (fst x) <= 1)%nat).
  { destruct I as (_ & I2 & I3). destruct (timerLive (fst x)).
    - destruct (I2 eq_refl) as (_ & _ & _ & ->). lia.
    - destruct (I3 eq_refl) as (_ & ->). destruct (pattern (fst x)); lia. }
  repeat split.
  - exact D.
  - destruct I as (I1 & _). rewrite P in I1. exact I1.
  - exact K.
  - specialize (S (or_intror H)). destruct I as (_ & I2 & _).
    destruct (timerLive (fst x)); [|reflexivity].
    destruct (I2 eq_refl) as (_ & _ & F & _). congruence.
  - intros more.
    assert (L : timerLive (fst x) = false).
    { specialize (S (or_intror H)). destruct I as (_ & I2 & _).
      destruct (timerLive (fst x)); [|reflexivity].
      destruct (I2 eq_refl) as (_ & _ & F & _). congruence. }
    destruct (seq_exec_invariant onPhase p c more x I P D) as (_ & _ & _ & _ & Q).
    apply Q. exact L.
Qed.

Lemma sequencer_delivers_a_prefix_under_cancellation_witness :
  let x := seq_exec record_phase (startIllumination record_phase [true; false; true] [])
             [FireInterval; CallStop; FireInterval] in
  timerLive (fst x) = false
  /\ forall more : list SeqInput, snd (seq_exec record_phase x more) = snd x.
Proof.
  apply (sequencer_delivers_a_prefix_under_cancellation (list bool) record_phase
           [true; false; true] [] [FireInterval; CallStop; FireInterval]).
  right. left. reflexivity.
Defined.

(* ================================================================== *)
(** * Further properties of a run *)

Lemma dispatched_app (l1 l2 : list Effect) :
  dispatched (l1 ++ l2) = dispatched l1 ++ dispatched l2.
Proof. unfold dispatched. apply flat_map_app. Qed.

Lemma closed_frames_app (l1 l2 : list Effect) :
  closed_frames (l1 ++ l2) = closed_frames l1 ++ closed_frames l2.
Proof. unfold closed_frames. apply flat_map_app. Qed.

Lemma reduce_all_snoc (s : AppState) (events : list AppEvent) (e : AppEvent) :
  reduce_all s (events ++ [e]) = reduce (reduce_all s events) e.
Proof. unfold reduce_all. rewrite fold_left_app. reflexivity. Qed.

Lemma reduce_all_append (s : AppState) (es1 es2 : list AppEvent) :
  reduce_all s (es1 ++ es2) = reduce_all (reduce_all s es1) es2.
Proof. unfold reduce_all. apply fold_left_app. Qed.

(** The state after the loop body of one frame is the fold of the reducer
    over what the body dispatched. *)
Lemma process_frame_reduces (f : VideoFrame) (w : World) :
  state (snd (outcome (process_frame f w)))
  = reduce_all (state (snd w)) (dispatched (frame_effects f (state (snd w)))).
Proof.
  destruct w as [i a].
  unfold process_frame, frame_body, frame_effects, loop_guard, capturedCount.
  destruct (drawThrows f); [reflexivity|].
  cbn [on_app fst snd emit state].
  destruct ((0 <? pendingCaptures (state a))
            && (Z.of_nat (List.length (captures (state a))) <? TARGET_LENGTH));
    [|reflexivity].
  destruct (png f) as [dataUrl|]; [|reflexivity].
  cbn [on_app fst snd dispatch emit set_state state].
  match goal with |- context [if ?c then _ else _] => destruct c end; reflexivity.
Qed.

Lemma cleanup_reduces (w : World) :
  state (snd (cleanup w))
  = reduce_all (state (snd w)) (dispatched (cleanup_effects (snd w))).
Proof.
  rewrite cleanup_state. unfold cleanup_effects.
  destruct (cleanupCalled (snd w)); reflexivity.
Qed.

Lemma leave_loop_reduces (threw : bool) (w : World) :
  state (snd (leave_loop threw w))
  = reduce_all (state (snd w))
      (dispatched ((if threw then catch_effects else []) ++ cleanup_effects (snd w))).
Proof.
  rewrite leave_loop_state. cbv zeta. unfold cleanup_effects.
  destruct threw, (cleanupCalled (snd w)); reflexivity.
Qed.

(** One turn of the event loop appends to the trace, and the new state is
    the fold of the reducer over the events appended. *)
Lemma step_trace (w : World) (i : Input) :
  exists tail : list Effect,
    effects (snd (step w i)) = effects (snd w) ++ tail
    /\ state (snd (step w i)) = reduce_all (state (snd w)) (dispatched tail).
Proof.
  destruct i as [|r| |j]; cbn [step].
  - unfold tick. destruct (timerLive (fst w)).
    + destruct w as [il a].
      destruct (emitStep_state onPhase il a) as [E|[b E]]; rewrite E.
      * exists []. split; [symmetry; apply app_nil_r | reflexivity].
      * exists [Dispatched (PhaseChanged b)]. split; reflexivity.
    + exists []. split; [symmetry; apply app_nil_r | reflexivity].
  - destruct (negb (reading (snd w))).
    { exists []. split; [symmetry; apply app_nil_r | reflexivity]. }
    destruct (if readerCancelled (snd w) then ReadDone else r) as [f| |].
    + destruct (process_frame_appends f w) as (_ & E & _). cbv zeta in E.
      pose proof (process_frame_reduces f w) as S.
      destruct (process_frame f w) as [w'|w']; cbn [outcome] in E, S.
      * eexists. split; [exact E | exact S].
      * eexists. split.
        -- rewrite leave_loop_appends, E, <- app_assoc. reflexivity.
        -- rewrite leave_loop_reduces, S.
           rewrite (dispatched_app (frame_effects f (state (snd w)))).
           symmetry. apply reduce_all_append.
    + eexists. split; [apply leave_loop_appends | apply leave_loop_reduces].
    + eexists. split; [apply leave_loop_appends | apply leave_loop_reduces].
  - destruct (unloadListener (snd w)).
    + eexists. split; [apply cleanup_appends | apply cleanup_reduces].
    + exists []. split; [symmetry; apply app_nil_r | reflexivity].
  - destruct (same_selection (selectedCaptureIndex (state (snd w))) j).
    + exists []. split; [symmetry; apply app_nil_r | reflexivity].
    + exists [Dispatched (SelectCapture j)]. split; reflexivity.
Qed.

Lemma exec_trace (inputs : list Input) :
  forall w : World,
  exists tail : list Effect,
    effects (snd (exec w inputs)) = effects (snd w) ++ tail
    /\ state (snd (exec w inputs)) = reduce_all (state (snd w)) (dispatched tail).
Proof.
  induction inputs as [|i rest IH]; intros w.
  - exists []. split; [symmetry; apply app_nil_r | reflexivity].
  - unfold exec in *. cbn [fold_left].
    destruct (step_trace w i) as [t1 [E1 S1]].
    destruct (IH (step w i)) as [t2 [E2 S2]].
    exists (t1 ++ t2). split.
    + rewrite E2, E1, <- app_assoc. reflexivity.
    + rewrite S2, S1, dispatched_app, reduce_all_append. reflexivity.
Qed.

Lemma run_trace (p : list bool) (cam : Camera) (hasProcessor : bool) (s : AppState) :
  state (snd (run p cam hasProcessor s))
  = reduce_all s (dispatched (effects (snd (run p cam hasProcessor s)))).
Proof.
  unfold run.
  assert (S : forall a : App,
             state a = reduce_all s (dispatched (effects a)) ->
             let w := on_app
                        (fun a => set_reading true
                                    (emit ListenerAdded (set_unloadListener true a)))
                        (startIllumination onPhase p a) in
             state (snd w) = reduce_all s (dispatched (effects (snd w)))).
  { intros a Ha w. unfold w, on_app.
    cbn [snd set_reading emit set_unloadListener state effects].
    destruct (startIllumination_state onPhase p a) as [E|[b E]]; rewrite E.
    - rewrite dispatched_app, app_nil_r. exact Ha.
    - unfold onPhase, dispatch. cbn [emit set_state state effects].
      rewrite !dispatched_app. cbn [dispatched flat_map app].
      rewrite app_nil_r, reduce_all_snoc, Ha. reflexivity. }
  destruct cam, hasProcessor; cbn [negb fst snd]; try apply S; reflexivity.
Qed.

(** X7.  [dispatch] is the only writer of the global state: from the call
    of [run] on, through every turn of the event loop, the state is the
    fold of the reducer, started at the state [run] was called in, over the
    events dispatched so far, in the order of the trace. *)
Theorem state_is_fold_of_dispatched_events
    (p : list bool) (cam : Camera) (hasProcessor : bool) (s : AppState)
    (inputs : list Input) :
  let w := exec (run p cam hasProcessor s) inputs in
  state (snd w) = reduce_all s (dispatched (effects (snd w))).
Proof.
  cbv zeta.
  destruct (exec_trace inputs (run p cam hasProcessor s)) as [tail [E S]].
  rewrite S, E, dispatched_app, reduce_all_append, <- run_trace. reflexivity.
Qed.

(** What one turn adds to the frames closed. *)
Lemma step_closes (w : World) (i : Input) :
  closed_frames (effects (snd (step w i)))
  = closed_frames (effects (snd w)) ++ frames_taken w [i].
Proof.
  assert (Q : forall (threw : bool) (a : App),
             closed_frames ((if threw then catch_effects else []) ++ cleanup_effects a)
             = []).
  { intros threw a. unfold cleanup_effects.
    destruct threw, (cleanupCalled a); reflexivity. }
  assert (F : forall f s, closed_frames (frame_effects f s) = [frameId f]).
  { intros f s. unfold frame_effects.
    destruct (drawThrows f), (loop_guard s), (png f); reflexivity. }
  cbn [frames_taken]. rewrite app_nil_r.
  destruct i as [|r| |j]; cbn [step].
  - rewrite app_nil_r. unfold tick. destruct (timerLive (fst w)); [|reflexivity].
    destruct w as [il a].
    destruct (emitStep_state onPhase il a) as [E|[b E]]; rewrite E; [reflexivity|].
    unfold onPhase, dispatch. cbn [snd emit set_state effects].
    rewrite closed_frames_app. apply app_nil_r.
  - destruct (reading (snd w)); cbn [negb andb];
      [|destruct r; rewrite app_nil_r; reflexivity].
    destruct (readerCancelled (snd w)); cbn [negb].
    + rewrite leave_loop_appends, closed_frames_app, (Q false).
      destruct r; reflexivity.
    + destruct r as [f| |].
      * destruct (process_frame_appends f w) as (_ & E & _). cbv zeta in E.
        destruct (process_frame f w) as [w'|w']; cbn [outcome] in E.
        -- rewrite E, closed_frames_app, F. reflexivity.
        -- rewrite leave_loop_appends, closed_frames_app, (Q true), app_nil_r.
           rewrite E, closed_frames_app, F. reflexivity.
      * rewrite leave_loop_appends, closed_frames_app, (Q false). reflexivity.
      * rewrite leave_loop_appends, closed_frames_app, (Q true). reflexivity.
  - rewrite app_nil_r. destruct (unloadListener (snd w)); [|reflexivity].
    rewrite cleanup_appends, closed_frames_app.
    pose proof (Q false (snd w)) as K. cbn [app] in K. rewrite K. apply app_nil_r.
  - rewrite app_nil_r.
    destruct (same_selection (selectedCaptureIndex (state (snd w))) j); [reflexivity|].
    destruct w as [il a]. unfold on_app, dispatch. cbn [snd emit set_state effects].
    rewrite closed_frames_app. apply app_nil_r.
Qed.

(** X8.  No frame leaks and none is closed twice: along every list of
    inputs the frames closed are exactly the frames the loop took from the
    reader, each once and in the order taken, whether the frame was
    captured, discarded, or made the body throw. *)
Theorem every_taken_frame_is_closed_once (inputs : list Input) :
  forall w : World,
    closed_frames (effects (snd (exec w inputs)))
    = closed_frames (effects (snd w)) ++ frames_taken w inputs.
Proof.
  induction inputs as [|i rest IH]; intros w.
  - symmetry. apply app_nil_r.
  - unfold exec in *. cbn [fold_left]. rewrite IH, step_closes.
    cbn [frames_taken]. rewrite (app_nil_r (match i with Read (ReadFrame f) => _ | _ => [] end)).
    rewrite <- app_assoc. reflexivity.
Qed.

Lemma emitStep_exact {X : Type} (f : bool -> X -> X) (i : Illumination) (c : X) :
  snd (emitStep f (i, c))
  = (if (index i <? List.length (pattern i))%nat
     then f (nth (index i) (pattern i) false) c else c)
  /\ index (fst (emitStep f (i, c)))
     = (if (index i <? List.length (pattern i))%nat then S (index i) else index i)
  /\ pattern (fst (emitStep f (i, c))) = pattern i.
Proof.
  unfold emitStep.
  destruct (Nat.leb_spec (List.length (pattern i)) (index i)) as [L|L];
    destruct (Nat.ltb_spec (index i) (List.length (pattern i))) as [K|K]; try lia.
  - destruct (negb (is_null (intervalId i))); repeat split.
  - match goal with |- context [if ?c then _ else _] => destruct c end;
      cbn [fst snd set_index set_intervalId clearInterval index pattern];
      repeat split; lia.
Qed.

Lemma process_frame_flags (f : VideoFrame) (w : World) :
  cleanupCalled (snd (outcome (process_frame f w))) = cleanupCalled (snd w)
  /\ unloadListener (snd (outcome (process_frame f w))) = unloadListener (snd w)
  /\ reading (snd (outcome (process_frame f w))) = reading (snd w)
  /\ readerCancelled (snd (outcome (process_frame f w))) = readerCancelled (snd w).
Proof.
  destruct w as [i a]. unfold process_frame, frame_body.
  destruct (drawThrows f); [repeat split|].
  cbn [on_app fst snd emit state].
  destruct ((0 <? pendingCaptures (state a))
            && (Z.of_nat (List.length (captures (state a))) <? TARGET_LENGTH));
    [|repeat split].
  destruct (png f) as [dataUrl|]; [|repeat split].
  cbn [on_app fst snd dispatch emit set_state state].
  match goal with |- context [if ?c then _ else _] => destruct c end; repeat split.
Qed.

Lemma cleanup_flags (w : World) :
  cleanupCalled (snd (cleanup w)) = true
  /\ reading (snd (cleanup w)) = reading (snd w)
  /\ unloadListener (snd (cleanup w))
     = (if cleanupCalled (snd w) then unloadListener (snd w) else false)
  /\ readerCancelled (snd (cleanup w))
     = (if cleanupCalled (snd w) then readerCancelled (snd w) else true).
Proof.
  destruct w as [i a]. unfold cleanup, createOnce. cbn [snd].
  destruct (cleanupCalled a) eqn:E; repeat split. exact E.
Qed.

Lemma leave_loop_flags (threw : bool) (w : World) :
  cleanupCalled (snd (leave_loop threw w)) = true
  /\ reading (snd (leave_loop threw w)) = false
  /\ unloadListener (snd (leave_loop threw w))
     = (if cleanupCalled (snd w) then unloadListener (snd w) else false)
  /\ readerCancelled (snd (leave_loop threw w))
     = (if cleanupCalled (snd w) then readerCancelled (snd w) else true).
Proof.
  destruct w as [i a]. unfold leave_loop.
  cbn [on_app snd set_reading cleanupCalled reading unloadListener readerCancelled].
  destruct threw.
  - destruct (cleanup_flags (catch_handler (i, a))) as (C & _ & U & R).
    repeat split; assumption.
  - destruct (cleanup_flags (i, a)) as (C & _ & U & R).
    repeat split; assumption.
Qed.

(** [step_effects] is what [step] appends, and the new state is the fold
    of the reducer over it. *)
Lemma step_effects_spec (w : World) (i : Input) :
  effects (snd (step w i)) = effects (snd w) ++ step_effects w i
  /\ state (snd (step w i))
     = reduce_all (state (snd w)) (dispatched (step_effects w i)).
Proof.
  destruct i as [|r| |j]; cbn [step step_effects].
  - unfold tick. destruct (timerLive (fst w)); cbn [andb].
    + destruct w as [il a]. cbn [fst snd].
      destruct (emitStep_exact onPhase il a) as (E & _). rewrite E.
      destruct (index il <? List.length (pattern il))%nat.
      * split; reflexivity.
      * split; [symmetry; apply app_nil_r | reflexivity].
    + split; [symmetry; apply app_nil_r | reflexivity].
  - destruct (reading (snd w)); cbn [negb];
      [|split; [symmetry; apply app_nil_r | reflexivity]].
    destruct (if readerCancelled (snd w) then ReadDone else r) as [f| |].
    + destruct (process_frame_appends f w) as (K & E & _). cbv zeta in K, E.
      pose proof (process_frame_reduces f w) as S.
      destruct (process_frame_flags f w) as (CC & _).
      rewrite K. destruct (frame_throws f (state (snd w))).
      * rewrite leave_loop_appends, leave_loop_reduces, E, S.
        unfold cleanup_effects. rewrite CC. split.
        -- rewrite <- app_assoc. reflexivity.
        -- rewrite (dispatched_app (frame_effects f (state (snd w)))).
           symmetry. apply reduce_all_append.
      * rewrite app_nil_r. split; [exact E | exact S].
    + split; [apply leave_loop_appends | apply leave_loop_reduces].
    + split; [apply leave_loop_appends | apply leave_loop_reduces].
  - destruct (unloadListener (snd w)).
    + split; [apply cleanup_appends | apply cleanup_reduces].
    + split; [symmetry; apply app_nil_r | reflexivity].
  - destruct (same_selection (selectedCaptureIndex (state (snd w))) j).
    + split; [symmetry; apply app_nil_r | reflexivity].
    + split; reflexivity.
Qed.

Lemma run_completions_app (l1 l2 : list Effect) :
  run_completions (l1 ++ l2) = (run_completions l1 + run_completions l2)%nat.
Proof. unfold run_completions. rewrite filter_app. apply length_app. Qed.

Lemma frame_effects_no_completion (f : VideoFrame) (s : AppState) :
  run_completions (frame_effects f s) = 0%nat.
Proof.
  unfold frame_effects.
  destruct (drawThrows f), (loop_guard s), (png f); reflexivity.
Qed.

Lemma leave_effects_completions (threw : bool) (a : App) :
  run_completions ((if threw then catch_effects else []) ++ cleanup_effects a)
  = if cleanupCalled a then 0%nat else 1%nat.
Proof.
  unfold cleanup_effects. destruct threw, (cleanupCalled a); reflexivity.
Qed.

Lemma cleanup_effects_completions (a : App) :
  run_completions (cleanup_effects a) = if cleanupCalled a then 0%nat else 1%nat.
Proof. exact (leave_effects_completions false a). Qed.

Lemma tick_flags (w : World) :
  cleanupCalled (snd (tick onPhase w)) = cleanupCalled (snd w)
  /\ unloadListener (snd (tick onPhase w)) = unloadListener (snd w)
  /\ reading (snd (tick onPhase w)) = reading (snd w)
  /\ readerCancelled (snd (tick onPhase w)) = readerCancelled (snd w).
Proof.
  unfold tick. destruct (timerLive (fst w)); [|repeat split].
  destruct w as [il a].
  destruct (emitStep_state onPhase il a) as [E|[b E]]; rewrite E; repeat split.
Qed.

(** How one turn moves the flags of a run. *)
Lemma step_flags (w : World) (i : Input) :
  cleanupCalled (snd (step w i)) = cleanupCalled (snd w) || calls_cleanup w i
  /\ reading (snd (step w i)) = reading (snd w) && negb (leaves_loop w i)
  /\ unloadListener (snd (step w i))
     = (if negb (cleanupCalled (snd w)) && calls_cleanup w i then false
        else unloadListener (snd w))
  /\ run_completions (step_effects w i)
     = (if negb (cleanupCalled (snd w)) && calls_cleanup w i then 1%nat else 0%nat).
Proof.
  destruct i as [|r| |j]; cbn [step step_effects calls_cleanup leaves_loop].
  - destruct (tick_flags w) as (C & U & R & _). rewrite C, U, R.
    rewrite orb_false_r, andb_true_r, andb_false_r.
    repeat split.
    destruct (timerLive (fst w) && (index (fst w) <? List.length (pattern (fst w)))%nat);
      reflexivity.
  - destruct (reading (snd w)) eqn:R; cbn [negb andb].
    2:{ rewrite R, orb_false_r, andb_false_r. repeat split. }
    destruct (if readerCancelled (snd w) then ReadDone else r) as [f| |].
    + destruct (process_frame_appends f w) as (K & _). cbv zeta in K.
      destruct (process_frame_flags f w) as (CC & UU & RR & _).
      rewrite K. destruct (frame_throws f (state (snd w))).
      * destruct (leave_loop_flags true (outcome (process_frame f w))) as (C & R' & U & _).
        rewrite C, R', U, CC, UU, orb_true_r, andb_true_r.
        rewrite run_completions_app, frame_effects_no_completion.
        rewrite (leave_effects_completions true).
        destruct (cleanupCalled (snd w)); repeat split.
      * rewrite CC, UU, RR, R, orb_false_r, andb_false_r, app_nil_r.
        rewrite frame_effects_no_completion. repeat split.
    + destruct (leave_loop_flags false w) as (C & R' & U & _).
      rewrite C, R', U, orb_true_r, andb_true_r.
      rewrite cleanup_effects_completions.
      destruct (cleanupCalled (snd w)); repeat split.
    + destruct (leave_loop_flags true w) as (C & R' & U & _).
      rewrite C, R', U, orb_true_r, andb_true_r.
      rewrite (leave_effects_completions true).
      destruct (cleanupCalled (snd w)); repeat split.
  - rewrite andb_true_r. destruct (unloadListener (snd w)) eqn:U.
    + destruct (cleanup_flags w) as (C & R & U' & _).
      rewrite C, R, U', U, orb_true_r, andb_true_r.
      rewrite cleanup_effects_completions.
      destruct (cleanupCalled (snd w)); repeat split.
    + rewrite U, orb_false_r, andb_false_r. repeat split.
  - rewrite orb_false_r, andb_true_r, andb_false_r.
    destruct (same_selection (selectedCaptureIndex (state (snd w))) j);
      destruct w as [il a]; repeat split.
Qed.

Lemma step_effects_no_begin (w : World) (i : Input) :
  no_begin_run (dispatched (step_effects w i)) = true.
Proof.
  assert (F : forall f s, no_begin_run (dispatched (frame_effects f s)) = true).
  { intros f s. unfold frame_effects.
    destruct (drawThrows f), (loop_guard s), (png f); reflexivity. }
  assert (Q : forall (threw : bool) (a : App),
             no_begin_run
               (dispatched ((if threw then catch_effects else []) ++ cleanup_effects a))
             = true).
  { intros threw a. unfold cleanup_effects.
    destruct threw, (cleanupCalled a); reflexivity. }
  destruct i as [|r| |j]; cbn [step_effects].
  - destruct (timerLive (fst w) && (index (fst w) <? List.length (pattern (fst w)))%nat);
      reflexivity.
  - destruct (reading (snd w)); [|reflexivity].
    destruct (if readerCancelled (snd w) then ReadDone else r) as [f| |].
    + rewrite dispatched_app. unfold no_begin_run in *. rewrite forallb_app, F.
      destruct (frame_throws f (state (snd w))); [apply (Q true)|reflexivity].
    + apply (Q false).
    + apply (Q true).
  - destruct (unloadListener (snd w)); [apply (Q false)|reflexivity].
  - destruct (same_selection (selectedCaptureIndex (state (snd w))) j); reflexivity.
Qed.

Lemma completion_ends_run (l : list Effect) :
  run_completions l <> 0%nat ->
  forallb (fun e => negb (ends_run e)) (dispatched l) = false.
Proof.
  induction l as [|e l IH]; intros H.
  - contradiction H. reflexivity.
  - change (e :: l) with ([e] ++ l) in *.
    rewrite dispatched_app, forallb_app. rewrite run_completions_app in H.
    destruct e as [ev| | | | | |]; try (cbn in *; apply IH; exact H).
    destruct ev; try (cbn in *; apply IH; exact H); reflexivity.
Qed.

Lemma cleanup_kills_timer (w : World) (i : Input) :
  seq_wf (fst w) ->
  cleanupCalled (snd w) = false ->
  calls_cleanup w i = true ->
  timerLive (fst (step w i)) = false.
Proof.
  intros WF C K.
  assert (S : forall v : World,
             stopped_or_same (fst w) (fst v) -> cleanupCalled (snd v) = false ->
             timerLive (fst (cleanup v)) = false).
  { intros [il a] M Cv. unfold cleanup, createOnce. cbn [snd fst] in *. rewrite Cv.
    cbn [cleanup_body on_seq on_app fst snd].
    destruct M as [-> | ->].
    - apply seq_wf_stop. exact WF.
    - rewrite stopIllumination_twice. apply seq_wf_stop. exact WF. }
  destruct i as [|r| |j]; cbn [calls_cleanup leaves_loop] in K; try discriminate K;
    cbn [step].
  - apply andb_prop in K. destruct K as [R K]. rewrite R. cbn [negb].
    destruct (if readerCancelled (snd w) then ReadDone else r) as [f| |].
    + destruct (process_frame_appends f w) as (E & _). cbv zeta in E.
      destruct (process_frame_flags f w) as (CC & _).
      pose proof (process_frame_seq f w) as M.
      rewrite E, K. unfold leave_loop. cbn [on_app fst].
      destruct (outcome (process_frame f w)) as [il a] eqn:O.
      apply (S (catch_handler (il, a))).
      * exact M.
      * cbn [snd] in *. rewrite <- C, <- CC. reflexivity.
    + unfold leave_loop. cbn [on_app fst]. apply S; [left; reflexivity|exact C].
    + unfold leave_loop. cbn [on_app fst]. destruct w as [il a].
      apply (S (catch_handler (il, a))); [left; reflexivity|exact C].
  - rewrite K. apply S; [left; reflexivity|exact C].
Qed.

Lemma step_keeps_shape (w : World) (i : Input) :
  loop_run_shape w -> loop_run_shape (step w i).
Proof.
  intros (WF & N & R & D).
  destruct (step_flags w i) as (C' & R' & U' & N').
  destruct (step_effects_spec w i) as (E & S).
  split; [apply step_keeps_wf; exact WF|].
  split; [|split].
  - rewrite E, run_completions_app, N, N', C'.
    destruct (cleanupCalled (snd w)), (calls_cleanup w i); reflexivity.
  - rewrite R', C'. intros H.
    destruct (reading (snd w)) eqn:Rw.
    + cbn [andb] in H. apply negb_false_iff in H.
      assert (K : calls_cleanup w i = true).
      { destruct i; cbn [calls_cleanup]; try exact H. discriminate H. }
      rewrite K. apply orb_true_r.
    + rewrite (R eq_refl). reflexivity.
  - intros H. rewrite C' in H.
    destruct (cleanupCalled (snd w)) eqn:Cw.
    + destruct (D eq_refl) as (U & L & I). cbn [negb andb] in U'.
      split; [rewrite U'; exact U|]. split; [apply step_keeps_dead; exact L|].
      rewrite S, isRunning_fold by apply step_effects_no_begin.
      rewrite I. reflexivity.
    + cbn [orb] in H. rewrite H in U', N'. cbn [negb andb] in U', N'.
      split; [exact U'|]. split; [apply cleanup_kills_timer; assumption|].
      rewrite S, isRunning_fold by apply step_effects_no_begin.
      rewrite completion_ends_run; [apply andb_false_r|].
      rewrite N'. discriminate.
Qed.

Lemma exec_keeps_shape (inputs : list Input) :
  forall w : World, loop_run_shape w -> loop_run_shape (exec w inputs).
Proof.
  induction inputs as [|i rest IH]; intros w H.
  - exact H.
  - unfold exec in *. cbn [fold_left]. apply IH. apply step_keeps_shape. exact H.
Qed.

Lemma run_enters_with_shape (p : list bool) (cam : Camera) (hasProcessor : bool)
    (s : AppState) :
  enters_loop cam hasProcessor = true ->
  loop_run_shape (run p cam hasProcessor s)
  /\ reading (snd (run p cam hasProcessor s)) = true.
Proof.
  intros H. pose proof (run_seq_wf p cam hasProcessor s) as WF.
  unfold loop_run_shape. split; [split; [exact WF|]|].
  - unfold run in *.
    assert (Q : forall a : App,
               run_completions (effects a) = 0%nat -> cleanupCalled a = false ->
               let w := on_app
                          (fun a => set_reading true
                                      (emit ListenerAdded (set_unloadListener true a)))
                          (startIllumination onPhase p a) in
               run_completions (effects (snd w)) = 0%nat
               /\ cleanupCalled (snd w) = false /\ reading (snd w) = true).
    { intros a Na Ca w. unfold w, on_app.
      cbn [snd set_reading emit set_unloadListener effects cleanupCalled reading].
      destruct (startIllumination_state onPhase p a) as [E|[b E]]; rewrite E.
      - rewrite run_completions_app, Na. repeat split. exact Ca.
      - unfold onPhase, dispatch. cbn [emit set_state effects cleanupCalled].
        rewrite !run_completions_app, Na. repeat split. exact Ca. }
    destruct cam, hasProcessor; try discriminate H; cbn [negb fst snd];
      match goal with |- context [startIllumination onPhase p ?a] =>
        destruct (Q a eq_refl eq_refl) as (N & C & R) end;
      cbv zeta in N, C, R; rewrite N, C, R;
      (split; [reflexivity|split; discriminate]).
  - unfold run. destruct cam, hasProcessor; try discriminate H; reflexivity.
Qed.

(** The store of a run that returned early is only ever changed by
    clicks. *)
Lemma early_step (w : World) (i : Input) :
  fst w = idle -> reading (snd w) = false -> unloadListener (snd w) = false ->
  (step w i = w
   \/ exists j : Z, step w i = on_app (dispatch (SelectCapture j)) w).
Proof.
  intros I R U. destruct i as [|r| |j]; cbn [step].
  - left. unfold tick. rewrite I. reflexivity.
  - left. rewrite R. reflexivity.
  - left. rewrite U. reflexivity.
  - destruct (same_selection (selectedCaptureIndex (state (snd w))) j);
      [left; reflexivity | right; exists j; reflexivity].
Qed.

Lemma early_exec (inputs : list Input) :
  forall w : World,
    fst w = idle -> reading (snd w) = false -> unloadListener (snd w) = false ->
    let v := exec w inputs in
    fst v = idle /\ reading (snd v) = false /\ unloadListener (snd v) = false
    /\ cleanupCalled (snd v) = cleanupCalled (snd w)
    /\ captures (state (snd v)) = captures (state (snd w))
    /\ pendingCaptures (state (snd v)) = pendingCaptures (state (snd w))
    /\ isRunning (state (snd v)) = isRunning (state (snd w))
    /\ error (state (snd v)) = error (state (snd w))
    /\ run_completions (effects (snd v)) = run_completions (effects (snd w))
    /\ closed_frames (effects (snd v)) = closed_frames (effects (snd w))
    /\ (no_phase_dispatch (effects (snd w)) = true ->
        no_phase_dispatch (effects (snd v)) = true).
Proof.
  induction inputs as [|i rest IH]; intros w I R U.
  - cbn. repeat split; auto.
  - unfold exec in *. cbn [fold_left].
    assert (K : fst (step w i) = idle /\ reading (snd (step w i)) = false
                /\ unloadListener (snd (step w i)) = false
                /\ cleanupCalled (snd (step w i)) = cleanupCalled (snd w)
                /\ captures (state (snd (step w i))) = captures (state (snd w))
                /\ pendingCaptures (state (snd (step w i)))
                   = pendingCaptures (state (snd w))
                /\ isRunning (state (snd (step w i))) = isRunning (state (snd w))
                /\ error (state (snd (step w i))) = error (state (snd w))
                /\ run_completions (effects (snd (step w i)))
                   = run_completions (effects (snd w))
                /\ closed_frames (effects (snd (step w i)))
                   = closed_frames (effects (snd w))
                /\ (no_phase_dispatch (effects (snd w)) = true ->
                    no_phase_dispatch (effects (snd (step w i))) = true)).
    { destruct (early_step w i I R U) as [-> | [j ->]].
      - repeat split; auto.
      - destruct w as [il a]. cbn [fst snd] in *.
        unfold on_app, dispatch.
        cbn [fst snd emit set_state state effects reading unloadListener cleanupCalled
             reduce captures pendingCaptures isRunning error].
        rewrite run_completions_app, closed_frames_app. cbn.
        rewrite Nat.add_0_r, app_nil_r. repeat split; auto.
        intros Q. apply no_phase_dispatch_app; [exact Q|reflexivity]. }
    destruct K as (I' & R' & U' & K).
    destruct (IH (step w i) I' R' U') as (A1 & A2 & A3 & A).
    split; [exact A1|]. split; [exact A2|]. split; [exact A3|].
    destruct K as (K1 & K2 & K3 & K4 & K5 & K6 & K7 & K8).
    destruct A as (B1 & B2 & B3 & B4 & B5 & B6 & B7 & B8).
    repeat split; try congruence. auto.
Qed.

(** X9.  A run ends once: whatever the event loop delivers, [run-complete]
    is dispatched at most once; it has been dispatched as soon as the run is
    no longer in its read cycle; and from then on [isRunning] is off, no
    interval is live and the [beforeunload] listener is not registered. *)
Theorem run_completes_exactly_once
    (p : list bool) (cam : Camera) (hasProcessor : bool) (s : AppState)
    (inputs : list Input) :
  let w := exec (run p cam hasProcessor s) inputs in
  (run_completions (effects (snd w)) <= 1)%nat
  /\ (reading (snd w) = false -> run_completions (effects (snd w)) = 1%nat)
  /\ (run_completions (effects (snd w)) = 1%nat ->
      isRunning (state (snd w)) = false
      /\ timerLive (fst w) = false
      /\ unloadListener (snd w) = false).
Proof.
  cbv zeta. destruct (enters_loop cam hasProcessor) eqn:L.
  - destruct (run_enters_with_shape p cam hasProcessor s L) as (H & _).
    destruct (exec_keeps_shape inputs _ H) as (_ & N & R & D).
    rewrite N. repeat split.
    + destruct (cleanupCalled _); lia.
    + intros K. rewrite (R K). reflexivity.
    + destruct (cleanupCalled _); [apply D; reflexivity | discriminate H0].
    + destruct (cleanupCalled _); [apply D; reflexivity | discriminate H0].
    + destruct (cleanupCalled _); [apply D; reflexivity | discriminate H0].
  - assert (E : fst (run p cam hasProcessor s) = idle
                /\ reading (snd (run p cam hasProcessor s)) = false
                /\ unloadListener (snd (run p cam hasProcessor s)) = false
                /\ run_completions (effects (snd (run p cam hasProcessor s))) = 1%nat
                /\ isRunning (state (snd (run p cam hasProcessor s))) = false).
    { unfold run. destruct cam, hasProcessor; try discriminate L; repeat split. }
    destruct E as (I & R & U & N & Q).
    destruct (early_exec inputs _ I R U) as (I' & R' & U' & _ & _ & _ & Q' & _ & N' & _).
    rewrite N', N. repeat split; try lia.
    + rewrite Q'. exact Q.
    + rewrite I'. reflexivity.
    + exact U'.
Qed.

Lemma run_completes_exactly_once_witness :
  let w := exec (run (repeat true 20) CameraHeld true
                   (reduce initialState (BeginRun (lit "WWWWWWWWWWWWWWWWWWWW"))))
             [Tick; BeforeUnload; Read (ReadFrame (mkVideoFrame 0 false None)); Tick] in
  reading (snd w) = false
  /\ run_completions (effects (snd w)) = 1%nat
  /\ isRunning (state (snd w)) = false.
Proof.
  cbv zeta.
  destruct (run_completes_exactly_once (repeat true 20) CameraHeld true
              (reduce initialState (BeginRun (lit "WWWWWWWWWWWWWWWWWWWW")))
              [Tick; BeforeUnload; Read (ReadFrame (mkVideoFrame 0 false None)); Tick])
    as (_ & A & B).
  split; [reflexivity|]. split; [apply A; reflexivity|].
  apply B. apply A. reflexivity.
Defined.

Lemma phase_count_app (es1 es2 : list AppEvent) :
  phase_count (es1 ++ es2) = phase_count es1 + phase_count es2.
Proof. unfold phase_count. rewrite filter_app, length_app. lia. Qed.

(** Every [frame-captured] that a turn dispatches passes the guard of the
    read loop in the state it is reduced in. *)
Lemma step_effects_guarded (w : World) (i : Input) :
  guarded (state (snd w)) (dispatched (step_effects w i)) = true.
Proof.
  assert (Q : forall (threw : bool) (a : App) (s : AppState),
             guarded s (dispatched ((if threw then catch_effects else [])
                                      ++ cleanup_effects a)) = true).
  { intros threw a s. unfold cleanup_effects.
    destruct threw, (cleanupCalled a); reflexivity. }
  destruct i as [|r| |j]; cbn [step_effects].
  - destruct (timerLive (fst w) && (index (fst w) <? List.length (pattern (fst w)))%nat);
      reflexivity.
  - destruct (reading (snd w)); [|reflexivity].
    destruct (if readerCancelled (snd w) then ReadDone else r) as [f| |].
    + unfold frame_effects, frame_throws.
      destruct (drawThrows f); cbn [orb].
      * apply (Q true).
      * destruct (loop_guard (state (snd w))) eqn:G; cbn [andb].
        -- destruct (png f) as [u|].
           ++ cbn [app dispatched flat_map guarded]. rewrite G. reflexivity.
           ++ apply (Q true).
        -- reflexivity.
    + apply (Q false).
    + apply (Q true).
  - destruct (unloadListener (snd w)); [apply (Q false)|reflexivity].
  - destruct (same_selection (selectedCaptureIndex (state (snd w))) j); reflexivity.
Qed.

Lemma stopIllumination_index (i : Illumination) :
  index (stopIllumination i) = index i /\ pattern (stopIllumination i) = pattern i.
Proof.
  destruct i as [p n v live k called]. unfold stopIllumination, createOnce.
  cbn [pattern stopCalled]. destruct p, called, v; split; reflexivity.
Qed.

(** The index of the sequencer advances by the phases a turn dispatches. *)
Lemma step_index (w : World) (i : Input) :
  Z.of_nat (index (fst (step w i)))
  = Z.of_nat (index (fst w)) + phase_count (dispatched (step_effects w i))
  /\ pattern (fst (step w i)) = pattern (fst w).
Proof.
  assert (Q : forall (threw : bool) (a : App),
             phase_count (dispatched ((if threw then catch_effects else [])
                                        ++ cleanup_effects a)) = 0).
  { intros threw a. unfold cleanup_effects.
    destruct threw, (cleanupCalled a); reflexivity. }
  assert (F : forall f s, phase_count (dispatched (frame_effects f s)) = 0).
  { intros f s. unfold frame_effects.
    destruct (drawThrows f), (loop_guard s), (png f); reflexivity. }
  assert (M : forall j : Input, j <> Tick ->
                index (fst (step w j)) = index (fst w)
                /\ pattern (fst (step w j)) = pattern (fst w)).
  { intros j N. destruct (step_seq w j N) as [-> | ->].
    - split; reflexivity.
    - apply stopIllumination_index. }
  destruct i as [|r| |j].
  - cbn [step step_effects]. unfold tick. destruct (timerLive (fst w)); cbn [andb].
    + destruct w as [il a]. cbn [fst snd].
      destruct (emitStep_exact onPhase il a) as (_ & E & P). rewrite E, P.
      destruct (index il <? List.length (pattern il))%nat; split;
        try reflexivity; unfold phase_count; cbn; lia.
    + split; [unfold phase_count; cbn; lia | reflexivity].
  - destruct (M (Read r)) as [-> ->]; [discriminate|]. split; [|reflexivity].
    cbn [step_effects]. destruct (reading (snd w)); [|unfold phase_count; cbn; lia].
    destruct (if readerCancelled (snd w) then ReadDone else r) as [f| |].
    + rewrite dispatched_app, phase_count_app, F.
      destruct (frame_throws f (state (snd w)));
        [rewrite (Q true)|unfold phase_count; cbn]; lia.
    + pose proof (Q false (snd w)) as K. cbn [app] in K. rewrite K. lia.
    + rewrite (Q true). lia.
  - destruct (M BeforeUnload) as [-> ->]; [discriminate|]. split; [|reflexivity].
    cbn [step_effects]. pose proof (Q false (snd w)) as K. cbn [app] in K.
    destruct (unloadListener (snd w));
      [rewrite K|unfold phase_count; cbn]; lia.
  - destruct (M (ThumbnailClick j)) as [-> ->]; [discriminate|]. split; [|reflexivity].
    cbn [step_effects].
    destruct (same_selection (selectedCaptureIndex (state (snd w))) j);
      unfold phase_count; cbn; lia.
Qed.

Lemma step_keeps_seq_inv (w : World) (i : Input) :
  seq_inv (fst w) -> seq_inv (fst (step w i)).
Proof.
  intros H. destruct i as [|r| |j].
  - cbn [step]. destruct w as [il a]. apply seq_inv_tick. exact H.
  - destruct (step_seq w (Read r)) as [-> | ->]; [discriminate|exact H|].
    apply seq_inv_stop. exact H.
  - destruct (step_seq w BeforeUnload) as [-> | ->]; [discriminate|exact H|].
    apply seq_inv_stop. exact H.
  - destruct (step_seq w (ThumbnailClick j)) as [-> | ->]; [discriminate|exact H|].
    apply seq_inv_stop. exact H.
Qed.

Lemma step_keeps_books (p : list bool) (w : World) (i : Input) :
  run_books p w -> run_books p (step w i).
Proof.
  intros (B & S & X & I & P).
  destruct (step_effects_spec w i) as (E & St).
  destruct (step_index w i) as (Ix & Pt).
  pose proof (step_effects_guarded w i) as G.
  pose proof (step_effects_no_begin w i) as N.
  assert (K : phase_count (dispatched (step_effects w i)) >= 0)
    by (unfold phase_count; lia).
  split; [|split; [|split; [|split]]].
  - rewrite St. apply guarded_keeps_budget; assumption.
  - rewrite St, sum_counts_phases by assumption. rewrite S, Ix. lia.
  - rewrite E, dispatched_app, phase_count_app, Ix, X. reflexivity.
  - apply step_keeps_seq_inv. exact I.
  - rewrite Pt. exact P.
Qed.

Lemma exec_keeps_books (p : list bool) (inputs : list Input) :
  forall w : World, run_books p w -> run_books p (exec w inputs).
Proof.
  induction inputs as [|i rest IH]; intros w H.
  - exact H.
  - unfold exec in *. cbn [fold_left]. apply IH. apply step_keeps_books. exact H.
Qed.

Lemma start_run_books (ps : jsstring) (p : list bool) (cam : Camera)
    (hasProcessor : bool) (s0 : AppState) :
  run_books p (start_run ps p cam hasProcessor s0).
Proof.
  unfold start_run.
  assert (E : forall a : App,
             pendingCaptures (state a) = 0 -> captures (state a) = [] ->
             phase_count (dispatched (effects a)) = 0 ->
             run_books p (idle, a)).
  { intros a Hp Hc He. unfold run_books, within_budget, capturedCount.
    cbn [fst snd index pattern idle]. rewrite Hp, Hc, He. cbn [List.length].
    split; [unfold TARGET_LENGTH; lia|]. split; [unfold TARGET_LENGTH; lia|].
    split; [reflexivity|]. split; [apply seq_inv_idle|]. right. reflexivity. }
  assert (S : forall a : App,
             pendingCaptures (state a) = 0 -> captures (state a) = [] ->
             phase_count (dispatched (effects a)) = 0 ->
             run_books p
               (on_app (fun a => set_reading true
                                   (emit ListenerAdded (set_unloadListener true a)))
                  (startIllumination onPhase p a))).
  { intros a Hp Hc He.
    destruct (seq_inv_start onPhase p a) as (I & P & _).
    destruct p as [|b q].
    - cbn [startIllumination]. unfold run_books, within_budget, capturedCount, on_app.
      cbn [fst snd index pattern idle set_reading emit set_unloadListener state effects].
      rewrite dispatched_app, phase_count_app, Hp, Hc, He. cbn [List.length].
      split; [unfold TARGET_LENGTH; lia|]. split; [unfold TARGET_LENGTH; lia|].
      split; [reflexivity|]. split; [apply seq_inv_idle|]. left. reflexivity.
    - rewrite startIllumination_after_calls in * by discriminate.
      unfold after_calls in *. unfold run_books, within_budget, capturedCount, on_app.
      cbn [fst snd index pattern set_reading emit set_unloadListener state effects
           deliver firstn fold_left] in *.
      unfold onPhase, dispatch.
      cbn [emit set_state state effects reduce pendingCaptures captures].
      rewrite !dispatched_app, !phase_count_app, Hp, Hc, He. cbn [List.length].
      split; [unfold TARGET_LENGTH; lia|]. split; [unfold TARGET_LENGTH; lia|].
      split; [unfold phase_count; cbn; lia|]. split; [exact I|]. left. reflexivity. }
  unfold run.
  destruct cam, hasProcessor; cbn [negb fst snd];
    try (apply S; reflexivity); apply E; reflexivity.
Qed.

(** X11.  The books of a run balance at every turn: the captures made plus
    the captures owed equal the phases the sequencer has delivered so far,
    capped at [TARGET_LENGTH]; the phases delivered are the
    [phase-changed] events of the trace and never exceed the pattern; so
    the loop never captures more frames than phases were shown. *)
Theorem captures_never_outrun_phases
    (ps : jsstring) (p : list bool) (cam : Camera) (hasProcessor : bool)
    (s0 : AppState) (inputs : list Input) :
  let w := exec (start_run ps p cam hasProcessor s0) inputs in
  capturedCount (state (snd w)) + pendingCaptures (state (snd w))
  = Z.min (Z.of_nat (index (fst w))) TARGET_LENGTH
  /\ Z.of_nat (index (fst w)) = phase_count (dispatched (effects (snd w)))
  /\ (index (fst w) <= List.length p)%nat
  /\ capturedCount (state (snd w)) <= Z.of_nat (index (fst w)).
Proof.
  cbv zeta.
  destruct (exec_keeps_books p inputs _ (start_run_books ps p cam hasProcessor s0))
    as (B & S & X & I & P).
  unfold within_budget in B.
  repeat split.
  - exact S.
  - exact X.
  - destruct I as (I1 & _). destruct P as [P|P]; rewrite P in I1; cbn in *; lia.
  - lia.
Qed.

(** X12.  With a pattern of at most [TARGET_LENGTH] phases, which is what
    [startFromControls] passes, the sequencer has finished by itself before
    the last frame is captured: whenever captures made and owed reach
    [TARGET_LENGTH] no interval is live, every phase has been delivered,
    and calling the handle, as the loop does on the last capture, clears
    nothing. *)
Theorem last_capture_finds_sequencer_finished
    (ps : jsstring) (p : list bool) (cam : Camera) (hasProcessor : bool)
    (s0 : AppState) (inputs : list Input) :
  Z.of_nat (List.length p) <= TARGET_LENGTH ->
  let w := exec (start_run ps p cam hasProcessor s0) inputs in
  TARGET_LENGTH <= capturedCount (state (snd w)) + pendingCaptures (state (snd w)) ->
  index (fst w) = List.length p
  /\ timerLive (fst w) = false
  /\ clearCalls (stopIllumination (fst w)) = clearCalls (fst w).
Proof.
  intros L w H.
  destruct (exec_keeps_books p inputs _ (start_run_books ps p cam hasProcessor s0))
    as (B & S & X & I & P).
  fold w in B, S, X, I, P.
  destruct I as (I1 & I2 & I3).
  assert (Ip : (index (fst w) <= List.length p)%nat).
  { destruct P as [P|P]; rewrite P in I1; cbn in *; lia. }
  assert (E : index (fst w) = List.length p) by lia.
  assert (D : timerLive (fst w) = false).
  { destruct (timerLive (fst w)); [|reflexivity].
    destruct (I2 eq_refl) as (Lt & _).
    destruct P as [P|P]; rewrite P in Lt; cbn in *; lia. }
  repeat split; try assumption.
  destruct (I3 D) as ([V|V] & _).
  - rewrite stopIllumination_null by exact V. reflexivity.
  - rewrite stopIllumination_called by exact V. reflexivity.
Qed.

Lemma last_capture_finds_sequencer_finished_witness :
  let frame := fun n : nat => mkVideoFrame n false (Some (lit "data:image/png")) in
  let w := exec (start_run (lit "WWWWWWWWWWWWWWWWWWWW") (repeat true 20)
                   CameraHeld true initialState)
             (repeat Tick 19 ++ map (fun n => Read (ReadFrame (frame n))) (seq 0 19)) in
  index (fst w) = 20%nat
  /\ timerLive (fst w) = false
  /\ clearCalls (stopIllumination (fst w)) = clearCalls (fst w).
Proof.
  cbv zeta.
  apply (last_capture_finds_sequencer_finished
           (lit "WWWWWWWWWWWWWWWWWWWW") (repeat true 20) CameraHeld true initialState
           (repeat Tick 19
              ++ map (fun n => Read (ReadFrame
                                       (mkVideoFrame n false (Some (lit "data:image/png")))))
                   (seq 0 19))).
  - vm_compute. discriminate.
  - vm_compute. discriminate.
Defined.

(* ================================================================== *)
(** * Properties of [render] and of the handlers of the controls *)

Lemma jsstring_eqb_eq (a b : jsstring) : jsstring_eqb a b = true <-> a = b.
Proof.
  unfold jsstring_eqb. destruct (list_eq_dec Z.eq_dec a b); split; auto; discriminate.
Qed.

Lemma jsstring_eqb_refl (a : jsstring) : jsstring_eqb a a = true.
Proof. apply jsstring_eqb_eq. reflexivity. Qed.

Lemma lookup_set_same (n v : jsstring) (st : list (jsstring * jsstring)) :
  lookup_property n (setProperty n v st) = Some v.
Proof.
  induction st as [|[m w] rest IH]; cbn [setProperty lookup_property].
  - rewrite jsstring_eqb_refl. reflexivity.
  - destruct (jsstring_eqb m n) eqn:E; cbn [lookup_property]; rewrite E; auto.
Qed.

Lemma lookup_set_other (n m v : jsstring) (st : list (jsstring * jsstring)) :
  n <> m -> lookup_property n (setProperty m v st) = lookup_property n st.
Proof.
  intros N. induction st as [|[k w] rest IH]; cbn [setProperty lookup_property].
  - destruct (jsstring_eqb m n) eqn:E; [|reflexivity].
    apply jsstring_eqb_eq in E. congruence.
  - destruct (jsstring_eqb k m) eqn:E; cbn [lookup_property].
    + destruct (jsstring_eqb k n) eqn:F; [|reflexivity].
      apply jsstring_eqb_eq in E. apply jsstring_eqb_eq in F. congruence.
    + rewrite IH. reflexivity.
Qed.

Lemma set_bound_property (n v : jsstring) (st : list (jsstring * jsstring)) :
  lookup_property n st = Some v -> setProperty n v st = st.
Proof.
  induction st as [|[k w] rest IH]; cbn [setProperty lookup_property]; intros H.
  - discriminate H.
  - destruct (jsstring_eqb k n).
    + congruence.
    + rewrite IH by exact H. reflexivity.
Qed.

Lemma apply_theme_other (theme : list (jsstring * jsstring)) :
  forall (n : jsstring) (st : list (jsstring * jsstring)),
    ~ In n (map fst theme) ->
    lookup_property n (apply_theme theme st) = lookup_property n st.
Proof.
  induction theme as [|[m w] rest IH]; intros n st H.
  - reflexivity.
  - unfold apply_theme in *. cbn [fold_left fst snd]. cbn [map fst In] in H.
    rewrite IH by tauto. apply lookup_set_other. intros E. apply H. left. congruence.
Qed.

Lemma apply_theme_binds (theme : list (jsstring * jsstring)) :
  NoDup (map fst theme) ->
  forall (st : list (jsstring * jsstring)) (n v : jsstring),
    In (n, v) theme -> lookup_property n (apply_theme theme st) = Some v.
Proof.
  induction theme as [|[m w] rest IH]; intros D st n v H.
  - destruct H.
  - cbn [map fst] in D. inversion D as [|? ? Hm Hr]; subst.
    unfold apply_theme in *. cbn [fold_left fst snd]. destruct H as [H|H].
    + injection H as -> ->.
      fold (apply_theme rest (setProperty n v st)).
      rewrite apply_theme_other by exact Hm. apply lookup_set_same.
    + apply IH; assumption.
Qed.

Lemma apply_theme_fixed (theme : list (jsstring * jsstring)) :
  forall st : list (jsstring * jsstring),
    (forall n v, In (n, v) theme -> lookup_property n st = Some v) ->
    apply_theme theme st = st.
Proof.
  induction theme as [|[m w] rest IH]; intros st H.
  - reflexivity.
  - unfold apply_theme in *. cbn [fold_left fst snd].
    rewrite set_bound_property by (apply H; left; reflexivity).
    apply IH. intros n v K. apply H. right. exact K.
Qed.

Lemma theme_keys_distinct (white : bool) :
  NoDup (map fst (if white then LIGHT_FRAME_THEME else DARK_FRAME_THEME)).
Proof.
  destruct white; cbn [map fst LIGHT_FRAME_THEME DARK_FRAME_THEME];
    repeat constructor; cbn [In]; intros H;
    repeat (destruct H as [H|H]; [vm_compute in H; discriminate H|]); exact H.
Qed.

Lemma apply_theme_twice (white : bool) (st : list (jsstring * jsstring)) :
  let theme := if white then LIGHT_FRAME_THEME else DARK_FRAME_THEME in
  apply_theme theme (apply_theme theme st) = apply_theme theme st.
Proof.
  intros theme. apply apply_theme_fixed. intros n v H.
  apply apply_theme_binds; [apply theme_keys_distinct | exact H].
Qed.

Lemma render_inputValue (s : AppState) (d : Dom) :
  inputValue (render s d) = patternString s.
Proof.
  unfold render. cbn [inputValue].
  destruct (jsstring_eqb (inputValue d) (patternString s)) eqn:E; cbn [negb].
  - apply jsstring_eqb_eq. exact E.
  - reflexivity.
Qed.

Lemma render_twice (s : AppState) (d : Dom) : render s (render s d) = render s d.
Proof.
  unfold render.
  cbn [rootStyle controlsDisplay inputValue inputSelection previewHidden].
  rewrite apply_theme_twice.
  destruct (jsstring_eqb (inputValue d) (patternString s)) eqn:E; cbn [negb].
  - rewrite E. cbn [negb].
    destruct (controlsDisplay d), (previewHidden d); reflexivity.
  - rewrite jsstring_eqb_refl. cbn [negb].
    destruct (controlsDisplay d), (previewHidden d); reflexivity.
Qed.

(** X13.  [render] makes the document a function of the state: rendering
    the same state again changes nothing; the pattern box always ends up
    holding [patternString]; the start button is enabled exactly when no
    run is under way and the pattern has [TARGET_LENGTH] characters; and
    where a preview video exists, exactly one of the video and the canvas
    is hidden, the canvas being shown during a run. *)
Theorem render_shows_the_state (s : AppState) (d : Dom) :
  render s (render s d) = render s d
  /\ inputValue (render s d) = patternString s
  /\ (startDisabled (render s d) = false
      <-> isRunning s = false /\ jslength (patternString s) = TARGET_LENGTH)
  /\ inputDisabled (render s d) = isRunning s
  /\ galleryHidden (render s d) = negb (captureComplete s)
  /\ (forall hidden : bool,
        previewHidden d = Some hidden ->
        previewHidden (render s d) = Some (isRunning s)
        /\ canvasHidden (render s d) = negb (isRunning s))
  /\ (previewHidden d = None -> canvasHidden (render s d) = false).
Proof.
  split; [apply render_twice|]. split; [apply render_inputValue|].
  unfold render.
  cbn [startDisabled inputDisabled galleryHidden previewHidden canvasHidden].
  repeat split.
  - destruct (isRunning s); [discriminate H | reflexivity].
  - apply orb_false_iff in H. destruct H as [_ H].
    apply negb_false_iff in H. apply Z.eqb_eq. exact H.
  - intros [-> H]. rewrite H, Z.eqb_refl. reflexivity.
  - rewrite H. reflexivity.
  - rewrite H. reflexivity.
  - intros ->. reflexivity.
Qed.

Lemma render_shows_the_state_witness :
  let d := mkDom [] [] false true (Some []) (lit "bw") (0, 0) false 20 true [] [] None []
             true (Some false) false in
  previewHidden (render initialState d) = Some (isRunning initialState)
  /\ canvasHidden (render initialState d) = negb (isRunning initialState).
Proof.
  cbv zeta.
  apply (proj1 (proj2 (proj2 (proj2 (proj2 (proj2
           (render_shows_the_state initialState
              (mkDom [] [] false true (Some []) (lit "bw") (0, 0) false 20 true [] []
                 None [] true (Some false) false))))))) false).
  reflexivity.
Defined.

Lemma reduce_keeps_selection_in_range (s : AppState) (e : AppEvent) :
  selection_in_range s ->
  clicks_on_thumbnails s [e] = true ->
  selection_in_range (reduce s e).
Proof.
  unfold selection_in_range, capturedCount. intros H C.
  destruct e; cbn [reduce selectedCaptureIndex captures]; try exact H; try exact I.
  - destruct (isRunning s); exact H.
  - rewrite length_snoc. destruct (selectedCaptureIndex s); lia.
  - cbn [clicks_on_thumbnails] in C. rewrite andb_true_r in C.
    apply andb_prop in C. destruct C as [C1 C2].
    apply Z.leb_le in C1. apply Z.ltb_lt in C2. unfold capturedCount in C2. lia.
Qed.

Lemma selection_stays_in_range (events : list AppEvent) :
  forall s : AppState,
    selection_in_range s ->
    clicks_on_thumbnails s events = true ->
    selection_in_range (reduce_all s events).
Proof.
  induction events as [|e rest IH]; intros s H C.
  - exact H.
  - cbn [clicks_on_thumbnails] in C. apply andb_prop in C. destruct C as [Ce Cr].
    unfold reduce_all in *. cbn [fold_left]. apply IH; [|exact Cr].
    apply reduce_keeps_selection_in_range; [exact H|].
    cbn [clicks_on_thumbnails]. rewrite Ce. reflexivity.
Qed.

(** X14.  As long as [select-capture] comes from clicks on rendered
    thumbnails, the selection always points at an existing capture
    (auto-selection picks the first one, and captures are only emptied
    together with the selection), so the preview rendered for it shows that
    capture, visible, and never the empty fallback of line 183. *)
Theorem selection_points_at_a_capture (events : list AppEvent) (d : Dom) :
  clicks_on_thumbnails initialState events = true ->
  let s := reduce_all initialState events in
  selection_in_range s
  /\ (forall i : Z,
        selectedCaptureIndex s = Some i ->
        exists src : jsstring,
          nth_error (captures s) (Z.to_nat i) = Some src
          /\ selectedSrc (render s d) = Some src
          /\ selectedHidden (render s d) = false).
Proof.
  intros C s.
  assert (R : selection_in_range s).
  { apply selection_stays_in_range; [exact I | exact C]. }
  split; [exact R|].
  intros i H. unfold selection_in_range, capturedCount in R. rewrite H in R.
  destruct (nth_error (captures s) (Z.to_nat i)) as [src|] eqn:N.
  - exists src. split; [reflexivity|].
    unfold render. cbn [selectedSrc selectedHidden]. rewrite H.
    unfold capture_at. destruct (Z.ltb_spec i 0); [lia|]. rewrite N.
    split; reflexivity.
  - apply nth_error_None in N. lia.
Qed.

Lemma selection_points_at_a_capture_witness :
  selection_in_range
    (reduce_all initialState
       [BeginRun (lit "BW"); PhaseChanged true; FrameCaptured (lit "a");
        PhaseChanged false; FrameCaptured (lit "b"); SelectCapture 1]).
Proof.
  apply (selection_points_at_a_capture
           [BeginRun (lit "BW"); PhaseChanged true; FrameCaptured (lit "a");
            PhaseChanged false; FrameCaptured (lit "b"); SelectCapture 1]
           (mkDom [] [] false true None [] (0, 0) false 20 true [] [] None [] true
              None false)).
  reflexivity.
Defined.

Lemma set_inputValue_twice (u v : jsstring) (d : Dom) :
  set_inputValue v (set_inputValue u d) = set_inputValue v d.
Proof. reflexivity. Qed.

Lemma set_inputValue_same (d : Dom) : set_inputValue (inputValue d) d = d.
Proof. destruct d. reflexivity. Qed.

Lemma page_dispatch_in_sync (e : AppEvent) (pg : Page) : in_sync (page_dispatch e pg).
Proof. unfold in_sync, page_dispatch. cbn [fst snd]. apply render_twice. Qed.

Lemma parsed_complete_length (toUpperCase : jsstring -> jsstring) (value : jsstring) :
  let parsed := parsePatternInput toUpperCase value TARGET_LENGTH in
  isComplete parsed = (jslength (text parsed) =? TARGET_LENGTH)
  /\ (isComplete parsed = true -> Z.of_nat (List.length (sequence parsed)) = TARGET_LENGTH).
Proof.
  cbv zeta. unfold parsePatternInput. cbn [isComplete text sequence].
  rewrite length_map. split; [reflexivity|]. intros H. apply Z.eqb_eq. exact H.
Qed.

Section ControlsProperties.
Variable toUpperCase : jsstring -> jsstring.

(** X15.  [startFromControls] is the gate of a run.  While a run is under
    way it does nothing.  With an incomplete pattern in the box it
    dispatches the one error "Pattern incomplete", shows it, and hands
    nothing to [run]: captures and [isRunning] are untouched.  Only with a
    complete pattern does it dispatch [begin-run], which leaves a fresh
    running state holding the parsed text, and it hands to [run] the parsed
    sequence, which has exactly [TARGET_LENGTH] phases. *)
Theorem startFromControls_gates_the_run (pg : Page) :
  let parsed := parsePatternInput toUpperCase (inputValue (snd pg)) TARGET_LENGTH in
  let r := startFromControls toUpperCase pg in
  (isRunning (fst pg) = true -> r = (pg, None))
  /\ (isRunning (fst pg) = false -> isComplete parsed = false ->
      snd r = None
      /\ fst (fst r)
         = reduce (fst pg) (ErrorEvent incomplete_message (Some (lit "Pattern incomplete")))
      /\ errorText (snd (fst r)) = incomplete_message
      /\ isRunning (fst (fst r)) = false
      /\ captures (fst (fst r)) = captures (fst pg))
  /\ (isRunning (fst pg) = false -> isComplete parsed = true ->
      snd r = Some (sequence parsed)
      /\ sequence parsed = map (fun c => c =? code_W) (text parsed)
      /\ isRunning (fst (fst r)) = true
      /\ patternString (fst (fst r)) = text parsed
      /\ captures (fst (fst r)) = []
      /\ pendingCaptures (fst (fst r)) = 0
      /\ selectedCaptureIndex (fst (fst r)) = None
      /\ inputValue (snd (fst r)) = text parsed
      /\ startDisabled (snd (fst r)) = true)
  /\ (forall seq : list bool,
        snd r = Some seq -> Z.of_nat (List.length seq) = TARGET_LENGTH)
  /\ (in_sync pg -> in_sync (fst r)).
Proof.
  intros parsed r.
  destruct (parsed_complete_length toUpperCase (inputValue (snd pg))) as (_ & L).
  fold parsed in L.
  assert (E : r = if isRunning (fst pg) then (pg, None)
                  else
                    let pg1 :=
                      if negb (jsstring_eqb (inputValue (snd pg)) (text parsed))
                      then (fst pg, set_inputValue (text parsed) (snd pg)) else pg in
                    if negb (isComplete parsed) then
                      (page_dispatch
                         (ErrorEvent incomplete_message (Some (lit "Pattern incomplete")))
                         pg1, None)
                    else
                      let pg2 :=
                        if negb (jsstring_eqb (text parsed) (patternString (fst pg1)))
                        then page_dispatch (PatternChanged (text parsed)) pg1 else pg1 in
                      (page_dispatch (BeginRun (text parsed)) pg2, Some (sequence parsed)))
    by reflexivity.
  assert (F : fst (if negb (jsstring_eqb (inputValue (snd pg)) (text parsed))
                   then (fst pg, set_inputValue (text parsed) (snd pg)) else pg)
              = fst pg).
  { destruct (negb (jsstring_eqb (inputValue (snd pg)) (text parsed))); reflexivity. }
  rewrite E. clear E. cbv zeta.
  split; [|split; [|split; [|split]]].
  - intros ->. reflexivity.
  - intros -> ->. cbn [negb fst snd page_dispatch]. rewrite F.
    repeat split.
  - intros -> C. rewrite C. cbn [negb fst snd page_dispatch].
    split; [reflexivity|]. split; [reflexivity|].
    split; [reflexivity|]. split; [reflexivity|]. split; [reflexivity|].
    split; [reflexivity|]. split; [reflexivity|].
    split; [apply render_inputValue|]. reflexivity.
  - intros seq. destruct (isRunning (fst pg)); [discriminate|].
    destruct (isComplete parsed); cbn [negb snd]; [|discriminate].
    intros H. injection H as <-. apply L. reflexivity.
  - intros S. destruct (isRunning (fst pg)); [exact S|].
    destruct (isComplete parsed); cbn [negb fst]; apply page_dispatch_in_sync.
Qed.

(** X16.  The [input] listener normalises what is typed: on a page in sync
    and with no run under way, whatever text arrives, the box and
    [patternString] both end up holding the parsed text (only ['B'] and
    ['W'], at most [TARGET_LENGTH] long), the page is in sync again, the
    start button is enabled exactly when the pattern is complete, and
    nothing of the run data is touched. *)
Theorem on_input_normalises (typed : jsstring) (pg : Page) :
  in_sync pg ->
  isRunning (fst pg) = false ->
  let parsed := parsePatternInput toUpperCase typed TARGET_LENGTH in
  let pg' := on_input toUpperCase typed pg in
  patternString (fst pg') = text parsed
  /\ inputValue (snd pg') = text parsed
  /\ Forall (fun c => c = code_B \/ c = code_W) (text parsed)
  /\ jslength (text parsed) <= TARGET_LENGTH
  /\ in_sync pg'
  /\ startDisabled (snd pg') = negb (isComplete parsed)
  /\ isRunning (fst pg') = false
  /\ captures (fst pg') = captures (fst pg)
  /\ pendingCaptures (fst pg') = pendingCaptures (fst pg)
  /\ selectedCaptureIndex (fst pg') = selectedCaptureIndex (fst pg).
Proof.
  intros S R parsed pg'.
  destruct pg as [s d]. cbn [fst snd] in *.
  assert (BW : Forall (fun c => c = code_B \/ c = code_W) (text parsed)
               /\ jslength (text parsed) <= TARGET_LENGTH).
  { split.
    - apply Forall_forall. intros c Hc. apply isBW_spec.
      revert c Hc. apply forallb_forall. apply forallb_firstn. apply strip_only_BW.
    - unfold parsed, parsePatternInput. cbn [text].
      rewrite slice0_length by (unfold TARGET_LENGTH; lia). lia. }
  destruct BW as [BW LE].
  assert (D1 : (if negb (jsstring_eqb (text parsed) typed)
                then (s, set_inputValue (text parsed) (set_inputValue typed d))
                else (s, set_inputValue typed d))
               = (s, set_inputValue (text parsed) d)).
  { destruct (jsstring_eqb (text parsed) typed) eqn:E; cbn [negb].
    - apply jsstring_eqb_eq in E. rewrite E. reflexivity.
    - reflexivity. }
  assert (E : pg' = if negb (jsstring_eqb (text parsed) (patternString s))
                    then page_dispatch (PatternChanged (text parsed))
                           (s, set_inputValue (text parsed) d)
                    else (s, set_inputValue (text parsed) d)).
  { unfold pg', on_input. cbn [fst snd]. rewrite R. fold parsed.
    cbv zeta. rewrite D1. reflexivity. }
  assert (C : isComplete parsed = (jslength (text parsed) =? TARGET_LENGTH)).
  { apply (parsed_complete_length toUpperCase typed). }
  rewrite E. clear E D1.
  destruct (jsstring_eqb (text parsed) (patternString s)) eqn:Q; cbn [negb].
  - apply jsstring_eqb_eq in Q.
    assert (V : inputValue d = patternString s).
    { unfold in_sync in S. cbn [fst snd] in S. rewrite <- S. apply render_inputValue. }
    assert (D : set_inputValue (text parsed) d = d).
    { rewrite Q, <- V. apply set_inputValue_same. }
    rewrite D. cbn [fst snd].
    split; [symmetry; exact Q|]. split; [congruence|]. split; [exact BW|].
    split; [exact LE|]. split; [exact S|].
    split; [|repeat split; assumption].
    unfold in_sync in S. cbn [fst snd] in S. rewrite <- S.
    unfold render. cbn [startDisabled]. rewrite R, C, Q. reflexivity.
  - cbn [page_dispatch fst snd reduce]. rewrite R.
    cbn [patternString isRunning captures pendingCaptures selectedCaptureIndex].
    split; [reflexivity|]. split; [apply render_inputValue|]. split; [exact BW|].
    split; [exact LE|]. split; [apply render_twice|].
    split; [|repeat split; assumption].
    unfold render. cbn [startDisabled isRunning patternString]. rewrite C.
    reflexivity.
Qed.

End ControlsProperties.

Lemma startFromControls_gates_the_run_witness :
  let box := lit "bwbwbwbwbwbwbwbwbwbw" in
  let pg : Page := (initialState,
                    mkDom [] [] false true None box (0, 0) false 20 true [] [] None []
                      true None false) in
  snd (startFromControls ascii_upper pg)
  = Some (sequence (parsePatternInput ascii_upper box TARGET_LENGTH))
  /\ isRunning (fst (fst (startFromControls ascii_upper pg))) = true.
Proof.
  cbv zeta.
  destruct (startFromControls_gates_the_run ascii_upper
              (initialState,
               mkDom [] [] false true None (lit "bwbwbwbwbwbwbwbwbwbw") (0, 0) false 20
                 true [] [] None [] true None false)) as (_ & _ & H & _).
  destruct (H eq_refl eq_refl) as (A & _ & B & _).
  split; [exact A | exact B].
Defined.

Lemma on_input_normalises_witness :
  let pg : Page := (initialState,
                    render initialState
                      (mkDom [] [] false true None [] (0, 0) false 20 true [] [] None []
                         true None false)) in
  patternString (fst (on_input ascii_upper (lit "bw-x") pg)) = lit "BW"
  /\ inputValue (snd (on_input ascii_upper (lit "bw-x") pg)) = lit "BW".
Proof.
  cbv zeta.
  destruct (on_input_normalises ascii_upper (lit "bw-x")
              (initialState,
               render initialState
                 (mkDom [] [] false true None [] (0, 0) false 20 true [] [] None []
                    true None false))
              (render_twice _ _) eq_refl) as (A & B & _).
  split; [exact A | exact B].
Defined.




(* ================================================================== *)
(** * Properties of [initCamera] *)

Lemma attempts_ended_app (l1 l2 : list Effect) :
  attempts_ended (l1 ++ l2) = (attempts_ended l1 + attempts_ended l2)%nat.
Proof. unfold attempts_ended. rewrite filter_app. apply length_app. Qed.

Lemma acq_step_keeps_inv (hasApi : bool) (a : Acquisition) (i : AcqInput) :
  acq_inv hasApi a -> acq_inv hasApi (acq_step hasApi a i).
Proof.
  destruct a as [pg st si n tr]. unfold acq_inv.
  cbn [requests acqTrace streamInit stream]. intros (R & S & N & Y).
  destruct i as [|o]; cbn [acq_step].
  - unfold initCamera. cbn [stream streamInit].
    destruct st as [s|].
    { cbn [fst requests acqTrace streamInit stream]. tauto. }
    destruct si; cbn [fst requests acqTrace streamInit stream]; try tauto.
    destruct hasApi; cbn [negb fst acq_dispatch requests acqTrace streamInit stream].
    + split; [lia|]. split; [tauto|]. split; [discriminate|]. discriminate.
    + destruct (N eq_refl) as (N1 & _ & N2 & N3). subst tr.
      split; [cbn; lia|]. split; [tauto|]. split; [|discriminate].
      intros _. split; [exact N1|]. split; [reflexivity|].
      split; [discriminate|reflexivity].
  - unfold getUserMedia_settles. cbn [streamInit].
    destruct si; cbn [requests acqTrace streamInit stream]; try tauto.
    assert (A : hasApi = true).
    { destruct hasApi; [reflexivity|]. destruct (N eq_refl) as (_ & _ & K & _).
      contradiction K. reflexivity. }
    destruct o as [s|]; cbn [acq_dispatch requests acqTrace streamInit stream];
      rewrite ?attempts_ended_app; cbn [attempts_ended filter List.length];
      (split; [lia|]); (split; [tauto|]);
      (split; [intros H; congruence | discriminate]).
Qed.

Lemma acq_exec_keeps_inv (hasApi : bool) (inputs : list AcqInput) :
  forall a : Acquisition, acq_inv hasApi a -> acq_inv hasApi (acq_exec hasApi a inputs).
Proof.
  induction inputs as [|i rest IH]; intros a H.
  - exact H.
  - unfold acq_exec in *. cbn [fold_left]. apply IH. apply acq_step_keeps_inv. exact H.
Qed.

Lemma acq_initial_inv (hasApi : bool) (pg : Page) : acq_inv hasApi (acq_initial pg).
Proof.
  unfold acq_inv, acq_initial. cbn [requests acqTrace streamInit stream].
  split; [reflexivity|]. split; [intros H; contradiction H; reflexivity|].
  split; [|discriminate]. intros _. repeat split. discriminate.
Qed.

Lemma calls_keep_attempts (hasApi : bool) (n : nat) :
  forall a : Acquisition,
    attempts_ended (acqTrace (acq_exec hasApi a (repeat CallInitCamera n)))
    = attempts_ended (acqTrace a).
Proof.
  induction n as [|n IH]; intros a.
  - reflexivity.
  - unfold acq_exec in *. cbn [repeat fold_left]. rewrite IH.
    cbn [acq_step]. unfold initCamera.
    destruct (stream a); [reflexivity|].
    destruct (streamInit a); try reflexivity.
    destruct hasApi; cbn [negb fst acqTrace acq_dispatch]; [reflexivity|].
    rewrite attempts_ended_app. cbn. lia.
Qed.

Lemma no_api_sticks (inputs : list AcqInput) :
  forall a : Acquisition,
    acq_inv false a ->
    streamInit a = SettledNull \/ In CallInitCamera inputs ->
    streamInit (acq_exec false a inputs) = SettledNull.
Proof.
  induction inputs as [|i rest IH]; intros a H K.
  - destruct K as [K|[]]. exact K.
  - unfold acq_exec in *. cbn [fold_left].
    apply IH; [apply acq_step_keeps_inv; exact H|].
    destruct H as (_ & _ & N & _). destruct (N eq_refl) as (_ & S & F & _).
    destruct i as [|o].
    + left. cbn [acq_step]. unfold initCamera. rewrite S.
      destruct (streamInit a) eqn:E; cbn [fst].
      * reflexivity.
      * contradiction F. reflexivity.
      * exact E.
    + destruct K as [K|[K|K]]; [left|discriminate K|right; exact K].
      cbn [acq_step]. unfold getUserMedia_settles. rewrite K. exact K.
Qed.

(** X17.  [initCamera] coalesces: every call of [getUserMedia] that is not
    in flight has ended with [stream-started] or with a denial, so at most
    one is ever outstanding, and calls of [initCamera] made while one is
    outstanding add none.  Once a stream is held nothing changes any more.
    Without the camera API no request is ever made and the error is
    dispatched by the first call only: the promise resolved with null stays
    in [streamInit], and every later call answers null without a word. *)
Theorem initCamera_coalesces (hasApi : bool) (pg : Page) (inputs : list AcqInput) :
  let a := acq_exec hasApi (acq_initial pg) inputs in
  requests a
  = (attempts_ended (acqTrace a)
     + match streamInit a with InFlight => 1 | _ => 0 end)%nat
  /\ (forall n : nat,
        (requests (acq_exec hasApi a (repeat CallInitCamera n))
         <= S (attempts_ended (acqTrace a)))%nat)
  /\ (stream a <> None -> forall more : list AcqInput, acq_exec hasApi a more = a)
  /\ (hasApi = false ->
      requests a = 0%nat
      /\ (In CallInitCamera inputs ->
          acqTrace a = [Dispatched no_api_error]
          /\ initCamera hasApi a = (a, Settled None))).
Proof.
  intros a.
  pose proof (acq_exec_keeps_inv hasApi inputs _ (acq_initial_inv hasApi pg)) as H.
  fold a in H.
  split; [apply H|]. split; [|split].
  - intros n.
    pose proof (acq_exec_keeps_inv hasApi (repeat CallInitCamera n) a H) as (R & _).
    rewrite R, calls_keep_attempts.
    destruct (streamInit _); lia.
  - intros S more. destruct H as (_ & I2 & _). specialize (I2 S).
    induction more as [|i rest IH]; [reflexivity|].
    unfold acq_exec in *. cbn [fold_left].
    assert (E : acq_step hasApi a i = a).
    { destruct i as [|o]; cbn [acq_step].
      - unfold initCamera. destruct (stream a); [reflexivity|contradiction S; reflexivity].
      - unfold getUserMedia_settles. rewrite I2. reflexivity. }
    rewrite E. exact IH.
  - intros ->. destruct H as (_ & _ & N & _).
    destruct (N eq_refl) as (N1 & N2 & N3 & N4).
    split; [exact N1|]. intros K.
    assert (S : streamInit a = SettledNull).
    { apply no_api_sticks; [apply acq_initial_inv | right; exact K]. }
    rewrite S in N4. split; [exact N4|].
    unfold initCamera. rewrite N2, S. reflexivity.
Qed.

Lemma initCamera_coalesces_witness :
  let d := mkDom [] [] false true None [] (0, 0) false 20 true [] [] None [] true None
             false in
  let a := acq_exec false (acq_initial (initialState, d))
             [CallInitCamera; CallInitCamera; MediaSettles Denied; CallInitCamera] in
  requests a = 0%nat /\ acqTrace a = [Dispatched no_api_error].
Proof.
  cbv zeta.
  destruct (initCamera_coalesces false
              (initialState,
               mkDom [] [] false true None [] (0, 0) false 20 true [] [] None [] true
                 None false)
              [CallInitCamera; CallInitCamera; MediaSettles Denied; CallInitCamera])
    as (_ & _ & _ & H).
  destruct (H eq_refl) as (R & K).
  split; [exact R|]. apply K. left. reflexivity.
Defined.

(* ================================================================== *)
(** * The early returns of [run] *)


